(** * Sale posting and role-gated authorization: a shallow embedding

    The development follows [references/transactions.md]: the transactional
    service [crearDetalleVenta], the token helpers [generarToken] and
    [verificarToken], the middlewares [autenticarToken] and [verificarRol],
    and the [login] controller.

    Definitions:
    - [JsNum]: JavaScript numbers, as IEEE-754 binary64, with the numeric
      primitives the service uses ([+], [*], [<], [<=], [===],
      [parseFloat(x.toFixed(2))]);
    - [Js]: the dynamically typed values of the [any] payload, [Number],
      truthiness, and the key equality of [Set] and [Map];
    - [Ventas]: the store, the unit of work and [crearDetalleVenta], in a
      state-and-error monad over the world of the store;
    - [Auth]: tokens, requests, responses, the two middlewares and [login];
    - [Jsonwebtoken]: what [jwt.verify] decides on a token;
    - [Servicios]: the other services of the document, over the relational
      store of its schema: [actualizarInventario] with a row lock and with a
      version number, [transferStock], [crearUsuario], and the role
      management service;
    - [Rutas]: a route behind [autenticarToken] and [verificarRol];
    - [Trazas]: the store calls of [crearDetalleVenta].

    Theorems:
    - [JsNumFacts]: the number model against IEEE-754 on samples, and the
      rounding-error bounds behind the sums of sub-totals;
    - [JsFacts]: equality of values, [Map] and [Set];
    - [VentasFacts]: the properties of [crearDetalleVenta];
    - [AuthFacts]: the properties of token verification and of the guard;
    - [TrazasFacts]: which store calls [crearDetalleVenta] makes;
    - [ServiciosFacts]: the stock, user and role services;
    - [RutasFacts]: the token of a request, protected routes and [login].

    What the repository takes from elsewhere is either modelled from the
    specification (the store and its unit of work, [crearMovimiento], the
    verdict of [jwt.verify]) or a parameter ([jwt.sign], the [argon2]
    package, the encoding and the signature of tokens). *)

From Stdlib Require Import ZArith List Bool String Ascii Lia SpecFloat.
Import ListNotations.

Local Open Scope Z_scope.

(* ================================================================= *)
(** ** JavaScript numbers *)

Module JsNum.

(** A finite double is an integer multiple of [2^-1074] (the smallest
    subnormal), so a finite number is stored as that integer: [Fin u] is the
    double [u * 2^-1074].  Every double has exactly one representation.  The
    sign of zero is not tracked: no operation of the modelled code
    ([===], [<], [<=], truthiness, [Map] keys, [toFixed]) tells [-0] from
    [+0]. *)
Inductive number : Type :=
| NaN
| Inf (neg : bool)
| Fin (u : Z).

(** One, in units of [2^-1074]. *)
Definition U : Z := Eval vm_compute in 2 ^ 1074.

(** First magnitude that no longer rounds to a finite double: [2^1024]. *)
Definition OVF : Z := Eval vm_compute in 2 ^ 2098.

(** [10^21], from which on [toFixed] prints a number as [toString] does. *)
Definition E21 : Z := Eval vm_compute in 10 ^ 21 * 2 ^ 1074.

(** How the fractional part [f] of a non-negative real, [0 <= f < 1], stands
    to one half. *)
Inductive frac : Type :=
| Exact    (* f = 0 *)
| Below    (* 0 < f < 1/2 *)
| Half     (* f = 1/2 *)
| Above.   (* 1/2 < f *)

(** The fraction [r / b], for [0 <= r < b]. *)
Definition frac_of (r b : Z) : frac :=
  if r =? 0 then Exact
  else
    match 2 * r ?= b with
    | Lt => Below
    | Eq => Half
    | Gt => Above
    end.

(** Round the real [q + f] (in units), [0 <= q], to the nearest double, ties
    to even.  Below [2^53] units the spacing of doubles is one unit
    (subnormals and the first binade).  Above, a double keeps 53 significant
    bits: with [k] the number of bits to drop, [q = hi * 2^k + lo] is rounded
    to [hi * 2^k] or [(hi + 1) * 2^k]; a result of [2^1024] or more is an
    overflow. *)
Definition round_sig (q : Z) (f : frac) : number :=
  let k := Z.log2 q - 52 in
  if k <=? 0 then
    Fin (match f with
         | Exact | Below => q
         | Half => if Z.even q then q else q + 1
         | Above => q + 1
         end)
  else
    let hi := Z.shiftr q k in
    let lo := Z.land q (Z.ones k) in
    let up :=
      match lo ?= Z.shiftl 1 (k - 1) with
      | Lt => false
      | Gt => true
      | Eq => match f with Exact => Z.odd hi | _ => true end
      end in
    let r := Z.shiftl (if up then hi + 1 else hi) k in
    if r <? OVF then Fin r else Inf false.

(** The rational [a / b], for [0 <= a] and [0 < b]. *)
Definition round_ratio (a b : Z) : number :=
  let (q, r) := Z.div_eucl a b in round_sig q (frac_of r b).

(** The dyadic [a / 2^s], for [0 <= a] and [0 <= s]. *)
Definition round_dyadic (a s : Z) : number :=
  round_sig (Z.shiftr a s) (frac_of (Z.land a (Z.ones s)) (Z.shiftl 1 s)).

Definition neg (x : number) : number :=
  match x with
  | NaN => NaN
  | Inf s => Inf (negb s)
  | Fin u => Fin (- u)
  end.

(** The number of magnitude [x] with the sign of [z]. *)
Definition signed (z : Z) (x : number) : number :=
  if z <? 0 then neg x else x.

Definition zero : number := Fin 0.

Definition of_Z (n : Z) : number := signed n (round_sig (Z.abs n * U) Exact).

(** [x + y]. *)
Definition add (x y : number) : number :=
  match x, y with
  | NaN, _ | _, NaN => NaN
  | Inf s, Inf t => if Bool.eqb s t then Inf s else NaN
  | Inf s, Fin _ | Fin _, Inf s => Inf s
  | Fin a, Fin b => signed (a + b) (round_sig (Z.abs (a + b)) Exact)
  end.

(** [x * y]. *)
Definition mul (x y : number) : number :=
  match x, y with
  | NaN, _ | _, NaN => NaN
  | Inf s, Inf t => Inf (xorb s t)
  | Inf s, Fin b => if b =? 0 then NaN else Inf (xorb s (b <? 0))
  | Fin a, Inf t => if a =? 0 then NaN else Inf (xorb (a <? 0) t)
  | Fin a, Fin b => signed (a * b) (round_dyadic (Z.abs (a * b)) 1074)
  end.

(** [x < y], [x <= y] and [x === y] on numbers: false as soon as one side is
    [NaN]. *)
Definition ltb (x y : number) : bool :=
  match x, y with
  | NaN, _ | _, NaN => false
  | Inf s, Inf t => s && negb t
  | Inf s, Fin _ => s
  | Fin _, Inf t => negb t
  | Fin a, Fin b => a <? b
  end.

Definition eqb (x y : number) : bool :=
  match x, y with
  | NaN, _ | _, NaN => false
  | Inf s, Inf t => Bool.eqb s t
  | Fin a, Fin b => a =? b
  | _, _ => false
  end.

Definition leb (x y : number) : bool := ltb x y || eqb x y.

(** [Math.abs(x)]. *)
Definition abs (x : number) : number :=
  match x with
  | NaN => NaN
  | Inf _ => Inf false
  | Fin u => Fin (Z.abs u)
  end.

(** [ToBoolean] of a number: false for zero and [NaN]. *)
Definition truthy (x : number) : bool :=
  match x with
  | NaN => false
  | Inf _ => true
  | Fin u => negb (u =? 0)
  end.

(** The decimal [d * 10^e] as a correctly rounded double. *)
Definition of_decimal (d e : Z) : number :=
  signed d
    (if 0 <=? e then round_sig (Z.abs d * 10 ^ e * U) Exact
     else round_ratio (Z.abs d * U) (10 ^ (- e))).

(** The double nearest to [n / 100]. *)
Definition of_cents (n : Z) : number :=
  signed n (round_ratio (Z.abs n * U) 100).

(** The integer [n] for which [n / 100] is closest to the magnitude of the
    double [u] (in units), the larger one on a tie. *)
Definition cents (u : Z) : Z := Z.shiftr (200 * Z.abs u + U) 1075.

(** [parseFloat(x.toFixed(2))].

    [toFixed(2)] of [NaN] is the string NaN and of a magnitude of at least
    [10^21] it is the ordinary (round-tripping) rendering of the number, so
    in both cases [parseFloat] gives [x] back; the same holds for the
    infinities.  Otherwise [toFixed] takes the integer [n] for which
    [n / 100] is closest to the magnitude of [x] (the larger one on a tie),
    prints it with two decimals behind the sign of [x], and [parseFloat]
    reads that decimal back as the nearest double. *)
Definition toFixed2 (x : number) : number :=
  match x with
  | NaN => NaN
  | Inf s => Inf s
  | Fin u =>
      if E21 <=? Z.abs u then Fin u
      else of_cents (Z.sgn u * cents u)
  end.

(** [y] is [x] rounded to two decimals.  For a magnitude below [10^21], [y]
    is the double nearest to [n / 100], where [n / 100] is the multiple of
    one hundredth nearest to [x]: [|x - n / 100| <= 1 / 200], and of two
    multiples that are equally near it is the one of larger magnitude.  From
    [10^21] on, where every double is a whole number, and for [NaN] and the
    infinities, [y] is [x]. *)
Definition redondeado_2 (x y : number) : Prop :=
  match x with
  | Fin u =>
      if Z.abs u <? E21 then
        exists n,
          2 * Z.abs (100 * u - n * U) <= U /\
          (2 * Z.abs (100 * u - n * U) = U ->
           Z.abs (100 * u) < Z.abs (n * U)) /\
          y = of_cents n
      else y = x
  | _ => y = x
  end.

(** [2^30] in units, and the largest gap between neighbouring doubles below
    it, [2^-23]: the range in which the rounding errors of sums of money are
    bounded in the theorems. *)
Definition LIMIT : Z := Eval vm_compute in 2 ^ 1104.

Definition SPACING : Z := Eval vm_compute in 2 ^ 1051.

(** The same number in the Standard Library's specification of IEEE-754
    [binary64], against which the operations above are checked on samples. *)
Definition to_spec (x : number) : spec_float :=
  match x with
  | NaN => S754_nan
  | Inf s => S754_infinity s
  | Fin u => binary_normalize 53 1024 u (-1074) false
  end.

End JsNum.

(* ================================================================= *)
(** ** Dynamically typed values *)

Module Js.

Import JsNum.

(** The payload of [crearDetalleVenta] is typed [any[]]: a field of a line
    can hold any JSON scalar, or be missing.  Nested objects and arrays as
    field values are outside the model. *)
Inductive value : Type :=
| JUndefined
| JNull
| JBool (b : bool)
| JNum (n : number)
| JStr (s : string).

(** [ToBoolean]: what [!v] and [v || w] test. *)
Definition truthy (v : value) : bool :=
  match v with
  | JUndefined | JNull => false
  | JBool b => b
  | JNum n => JsNum.truthy n
  | JStr s => negb (String.eqb s EmptyString)
  end.

(** [a || b]. *)
Definition or_else (a b : value) : value := if truthy a then a else b.

(** [v === undefined || v === null]. *)
Definition is_nullish (v : value) : bool :=
  match v with
  | JUndefined | JNull => true
  | _ => false
  end.

(** *** [StringToNumber]

    A string is the UTF-8 encoding of the string of the program.
    [StringToNumber] strips white space and line terminators from both ends:
    the ASCII ones, the no-break space U+00A0, U+1680, U+2000 to U+200A,
    U+2028, U+2029, U+202F, U+205F, U+3000 and U+FEFF. *)

Definition byte_val (c : ascii) : Z := Z.of_nat (nat_of_ascii c).

Definition is_ws (c : ascii) : bool :=
  let n := byte_val c in
  (n =? 32) || ((9 <=? n) && (n <=? 13)).

(** The two-byte and three-byte encodings among them. *)
Definition is_ws2 (a b : Z) : bool := (a =? 194) && (b =? 160).

Definition is_ws3 (a b c : Z) : bool :=
  ((a =? 225) && (b =? 154) && (c =? 128))
  || ((a =? 226) && (b =? 128)
      && (((128 <=? c) && (c <=? 138)) || (c =? 168) || (c =? 169)
          || (c =? 175)))
  || ((a =? 226) && (b =? 129) && (c =? 159))
  || ((a =? 227) && (b =? 128) && (c =? 128))
  || ((a =? 239) && (b =? 187) && (c =? 191)).

(** Strip the white space at the head of a string; with [al_reves], of a
    string given last byte first. *)
Fixpoint drop_ws (al_reves : bool) (s : list ascii) : list ascii :=
  match s with
  | c1 :: r1 =>
      if is_ws c1 then drop_ws al_reves r1
      else
        match r1 with
        | c2 :: r2 =>
            let '(a, b) :=
              if al_reves then (byte_val c2, byte_val c1)
              else (byte_val c1, byte_val c2) in
            if is_ws2 a b then drop_ws al_reves r2
            else
              match r2 with
              | c3 :: r3 =>
                  let '(a, b, c) :=
                    if al_reves then (byte_val c3, byte_val c2, byte_val c1)
                    else (byte_val c1, byte_val c2, byte_val c3) in
                  if is_ws3 a b c then drop_ws al_reves r3 else s
              | [] => s
              end
        | [] => s
        end
  | [] => []
  end.

Definition trim (s : list ascii) : list ascii :=
  rev (drop_ws true (rev (drop_ws false s))).

(** Value of a digit in the given radix, if it is one. *)
Definition digit_val (radix : Z) (c : ascii) : option Z :=
  let n := Z.of_nat (nat_of_ascii c) in
  let v :=
    if (48 <=? n) && (n <=? 57) then n - 48
    else if (97 <=? n) && (n <=? 122) then n - 87
    else if (65 <=? n) && (n <=? 90) then n - 55
    else radix in
  if v <? radix then Some v else None.

(** Longest prefix of digits: its value, its length and the rest. *)
Fixpoint digits (radix : Z) (acc : Z) (len : Z) (s : list ascii)
  : Z * Z * list ascii :=
  match s with
  | c :: r =>
      match digit_val radix c with
      | Some v => digits radix (acc * radix + v) (len + 1) r
      | None => (acc, len, s)
      end
  | [] => (acc, len, [])
  end.

(** A literal made of digits of the radix only, and at least one. *)
Definition radix_literal (radix : Z) (s : list ascii) : number :=
  match digits radix 0 0 s with
  | (v, len, []) => if 0 <? len then of_Z v else NaN
  | _ => NaN
  end.

(** [ExponentPart], when present; [None] when the text is not a literal. *)
Definition exponent_part (s : list ascii) : option Z :=
  match s with
  | [] => Some 0
  | c :: r =>
      if (Ascii.eqb c "e" || Ascii.eqb c "E")%bool then
        let '(sg, r') :=
          match r with
          | "+"%char :: t => (1, t)
          | "-"%char :: t => (-1, t)
          | _ => (1, r)
          end in
        match digits 10 0 0 r' with
        | (v, len, []) => if 0 <? len then Some (sg * v) else None
        | _ => None
        end
      else None
  end.

(** [StrUnsignedDecimalLiteral] other than [Infinity]. *)
Definition unsigned_decimal (s : list ascii) : option number :=
  let '(ip, il, r1) := digits 10 0 0 s in
  let '(fp, fl, r2) :=
    match r1 with
    | "."%char :: t => digits 10 0 0 t
    | _ => (0, 0, r1)
    end in
  if (il + fl =? 0) then None
  else
    match exponent_part r2 with
    | Some e => Some (of_decimal (ip * 10 ^ fl + fp) (e - fl))
    | None => None
    end.

Definition str_decimal (s : list ascii) : number :=
  let '(sg, r) :=
    match s with
    | "+"%char :: t => (false, t)
    | "-"%char :: t => (true, t)
    | _ => (false, s)
    end in
  if String.eqb (string_of_list_ascii r) "Infinity" then Inf sg
  else
    match unsigned_decimal r with
    | Some n => if sg then neg n else n
    | None => NaN
    end.

Definition string_to_number (s : string) : number :=
  match trim (list_ascii_of_string s) with
  | [] => zero
  | "0"%char :: x :: r =>
      if (Ascii.eqb x "x" || Ascii.eqb x "X")%bool then radix_literal 16 r
      else if (Ascii.eqb x "o" || Ascii.eqb x "O")%bool then radix_literal 8 r
      else if (Ascii.eqb x "b" || Ascii.eqb x "B")%bool then radix_literal 2 r
      else str_decimal ("0"%char :: x :: r)
  | t => str_decimal t
  end.

(** [Number(v)]. *)
Definition Number (v : value) : number :=
  match v with
  | JUndefined => NaN
  | JNull => zero
  | JBool b => if b then of_Z 1 else zero
  | JNum n => n
  | JStr s => string_to_number s
  end.

(** [SameValueZero], the equality of [Set] and [Map] keys: no coercion
    between types, and [NaN] equals itself. *)
Definition same_value_zero (a b : value) : bool :=
  match a, b with
  | JUndefined, JUndefined | JNull, JNull => true
  | JBool x, JBool y => Bool.eqb x y
  | JNum NaN, JNum NaN => true
  | JNum x, JNum y => JsNum.eqb x y
  | JStr x, JStr y => String.eqb x y
  | _, _ => false
  end.

(** [[...new Set(xs)]]: first occurrences, in order. *)
Fixpoint set_of (seen : list value) (xs : list value) : list value :=
  match xs with
  | [] => []
  | x :: r =>
      if existsb (same_value_zero x) seen then set_of seen r
      else x :: set_of (x :: seen) r
  end.

(** [new Map(pairs).get(k)]: a later pair with the same key replaces an
    earlier one. *)
Fixpoint map_get {A} (pairs : list (value * A)) (k : value) : option A :=
  match pairs with
  | [] => None
  | (k', a) :: r =>
      match map_get r k with
      | Some a' => Some a'
      | None => if same_value_zero k' k then Some a else None
      end
  end.

End Js.

(* ================================================================= *)
(** ** The store, the unit of work and the sale-posting service *)

Module Ventas.

Import JsNum Js.

(** *** Rows and payload *)

(** A template literal: literal chunks and interpolated values, in order. *)
Inductive fragment : Type :=
| Lit (s : string)
| Interp (v : value).

Definition texto : Type := list fragment.

(** [new Error(message)]; [StoreError] stands for whatever a store call
    rejects with. *)
Inductive JsError : Type :=
| Error (message : texto)
| StoreError (name : string).

(** One element of [detalleVentaData], with the fields the service reads or
    writes. *)
Record Item : Type := mkItem {
  producto_id : value;
  cantidad : value;
  almacen_id : value;
  venta_id : value;
  precio_unitario : value;
  sub_total : value;
  movimiento_id : value
}.

Record Producto : Type := mkProducto {
  prod_id : value;
  precio_minorista : value
}.

Record VentaRow : Type := mkVenta {
  venta_pk : value;
  total : value
}.

(** The argument of [crearMovimiento]. *)
Record MovimientoData : Type := mkMovimientoData {
  tipo : string;
  mov_producto_id : value;
  mov_almacen_id : value;
  mov_cantidad : value;
  mov_precio_unitario : value;
  descripcion : texto
}.

Record Movimiento : Type := mkMovimiento {
  mov_id : Z;
  mov_data : MovimientoData
}.

Record DetalleVenta : Type := mkDetalle {
  det_id : Z;
  det_item : Item
}.

Record Tables : Type := mkTables {
  productos : list Producto;
  ventas : list VentaRow;
  movimientos : list Movimiento;
  detalles : list DetalleVenta
}.

(** *** The world a call runs in *)

Definition Transaction : Type := nat.

(** Store calls, as issued. *)
Inductive Op : Type :=
| OpTransaction
| OpFindAllProductos (ids : list value) (t : option Transaction)
| OpCrearMovimiento (d : MovimientoData) (t : option Transaction)
| OpBulkCreate (items : list Item) (t : option Transaction)
| OpFindOneVenta (id : value) (lock_update : bool) (t : option Transaction)
| OpSaveVenta (v : VentaRow) (t : option Transaction)
| OpCommit (t : Transaction)
| OpRollback (t : Transaction).

Definition is_write (o : Op) : bool :=
  match o with
  | OpCrearMovimiento _ _ | OpBulkCreate _ _ | OpSaveVenta _ _ => true
  | _ => false
  end.

(** [db] holds what is committed; [tx] the open transaction and the tables as
    it sees them; the two sequences hand out primary keys and, as in a real
    store, are not rewound by a rollback; [calls] counts the store calls made
    so far and [trace] lists them, oldest first. *)
Record World : Type := mkWorld {
  db : Tables;
  tx : option (Transaction * Tables);
  next_mov : Z;
  next_det : Z;
  calls : nat;
  trace : list Op
}.

(** A computation either throws or returns, and leaves a world behind. *)
Definition M (A : Type) : Type := World -> (JsError + A) * World.

Definition ret {A} (a : A) : M A := fun w => (inr a, w).

Definition throw {A} (e : JsError) : M A := fun w => (inl e, w).

Definition bind {A B} (m : M A) (k : A -> M B) : M B :=
  fun w =>
    match m w with
    | (inl e, w') => (inl e, w')
    | (inr a, w') => k a w'
    end.

(** [try { m } catch (error) { h error }]. *)
Definition try_catch {A} (m : M A) (h : JsError -> M A) : M A :=
  fun w =>
    match m w with
    | (inl e, w') => h e w'
    | (inr a, w') => (inr a, w')
    end.

Declare Scope js_scope.
Delimit Scope js_scope with js.
Notation "x <- m ;; k" := (bind m (fun x => k))
  (at level 100, m at next level, right associativity) : js_scope.
Notation "m ;;; k" := (bind m (fun _ => k))
  (at level 100, right associativity) : js_scope.
Local Open Scope js_scope.

(** Field updates of the world. *)
Definition set_db (tb : Tables) (w : World) : World :=
  mkWorld tb (tx w) (next_mov w) (next_det w) (calls w) (trace w).

Definition set_tx (o : option (Transaction * Tables)) (w : World) : World :=
  mkWorld (db w) o (next_mov w) (next_det w) (calls w) (trace w).

Definition log (o : Op) (w : World) : World :=
  mkWorld (db w) (tx w) (next_mov w) (next_det w)
          (S (calls w)) (trace w ++ [o]).

Section Store.

(** Which store calls reject, and with what: [fault n] is the fate of the
    call made when [n] calls have been made before it. *)
Variable fault : nat -> option JsError.

(** Record a store call, then let it fail if it is fated to. *)
Definition issue (o : Op) : M unit :=
  fun w =>
    match fault (calls w) with
    | Some e => (inl e, log o w)
    | None => (inr tt, log o w)
    end.

(** The tables a call sees: those of the transaction it is given, the
    committed ones without a transaction. *)
Definition view (t : option Transaction) : M Tables :=
  fun w =>
    match t with
    | None => (inr (db w), w)
    | Some h =>
        match tx w with
        | Some (h', tb) =>
            if Nat.eqb h h' then (inr tb, w)
            else (inl (StoreError "transaction finished"), w)
        | None => (inl (StoreError "transaction finished"), w)
        end
    end.

(** Write the tables back where [view] read them. *)
Definition store (t : option Transaction) (tb : Tables) : M unit :=
  fun w =>
    match t with
    | None => (inr tt, set_db tb w)
    | Some h => (inr tt, set_tx (Some (h, tb)) w)
    end.

(** Modelled from the spec: [sequelize.transaction()] of the Unit-of-Work
    Manager, which belongs to the store, opens an atomic group of operations
    and returns its handle. *)
Definition sequelize_transaction : M Transaction :=
  issue OpTransaction ;;;
  fun w => (inr (calls w), set_tx (Some (calls w, db w)) w).

(** Modelled from the spec: [transaction.commit()] finalizes the atomic
    group; its writes become the committed tables. *)
Definition commit (t : Transaction) : M unit :=
  issue (OpCommit t) ;;;
  tb <- view (Some t) ;;
  fun w => (inr tt, set_tx None (set_db tb w)).

(** Modelled from the spec: [transaction.rollback()] undoes every write
    issued under the handle; it is safe to call after a partial failure, so
    it does not reject. *)
Definition rollback (t : Transaction) : M unit :=
  fun w => (inr tt, set_tx None (log (OpRollback t) w)).

(** Modelled from the spec: [Producto.findAll({ where: { id: ids } })], one
    read returning the products whose id is among [ids]. *)
Definition Producto_findAll (ids : list value) (t : option Transaction)
  : M (list Producto) :=
  issue (OpFindAllProductos ids t) ;;;
  tb <- view t ;;
  ret (filter (fun p => existsb (same_value_zero (prod_id p)) ids)
              (productos tb)).

(** The next key of the movement sequence. *)
Definition fresh_mov : M Z :=
  fun w =>
    (inr (next_mov w),
     mkWorld (db w) (tx w) (next_mov w + 1) (next_det w) (calls w) (trace w)).

(** Modelled from the spec: [crearMovimiento(data, transaction)] creates one
    InventoryMovement under the handle and returns it with its id. *)
Definition crearMovimiento (d : MovimientoData) (t : option Transaction)
  : M Movimiento :=
  issue (OpCrearMovimiento d t) ;;;
  tb <- view t ;;
  id <- fresh_mov ;;
  let m := mkMovimiento id d in
  store t (mkTables (productos tb) (ventas tb) (movimientos tb ++ [m])
                    (detalles tb)) ;;;
  ret m.

(** Keys for [n] new sale lines. *)
Definition fresh_dets (n : nat) : M Z :=
  fun w =>
    (inr (next_det w),
     mkWorld (db w) (tx w) (next_mov w) (next_det w + Z.of_nat n)
             (calls w) (trace w)).

Fixpoint number_from (id : Z) (items : list Item) : list DetalleVenta :=
  match items with
  | [] => []
  | i :: r => mkDetalle id i :: number_from (id + 1) r
  end.

(** Modelled from the spec: [DetalleVenta.bulkCreate(items, { transaction })]
    inserts all the lines in one call and returns the created records. *)
Definition DetalleVenta_bulkCreate (items : list Item)
    (t : option Transaction) : M (list DetalleVenta) :=
  issue (OpBulkCreate items t) ;;;
  tb <- view t ;;
  id <- fresh_dets (List.length items) ;;
  let created := number_from id items in
  store t (mkTables (productos tb) (ventas tb) (movimientos tb)
                    (detalles tb ++ created)) ;;;
  ret created.

(** Modelled from the spec: [Venta.findOne({ where: { id }, transaction,
    lock })] reads the order row (under an exclusive lock), [null] when there
    is none. *)
Definition Venta_findOne (id : value) (lock_update : bool)
    (t : option Transaction) : M (option VentaRow) :=
  issue (OpFindOneVenta id lock_update t) ;;;
  tb <- view t ;;
  ret (find (fun v => same_value_zero (venta_pk v) id) (ventas tb)).

(** The rows after the row [v] has been written back by its key. *)
Definition save_row (v : VentaRow) (vs : list VentaRow) : list VentaRow :=
  map (fun r => if same_value_zero (venta_pk r) (venta_pk v) then v else r) vs.

(** Modelled from the spec: [venta.save({ transaction })] writes the row back
    by its key. *)
Definition Venta_save (v : VentaRow) (t : option Transaction) : M unit :=
  issue (OpSaveVenta v t) ;;;
  tb <- view t ;;
  store t (mkTables (productos tb) (save_row v (ventas tb)) (movimientos tb)
                    (detalles tb)).

(** *** [crearDetalleVenta] *)

Definition err_array : JsError :=
  Error [Lit "detalleVentaData debe ser un array no vacío"].
Definition err_producto_id : JsError :=
  Error [Lit "producto_id es obligatorio"].
Definition err_cantidad : JsError :=
  Error [Lit "cantidad debe ser > 0"].
Definition err_producto (id : value) : JsError :=
  Error [Lit "Producto "; Interp id; Lit " no encontrado"].
Definition err_venta_id : JsError :=
  Error [Lit "venta_id es obligatorio"].
Definition err_venta (id : value) : JsError :=
  Error [Lit "Venta "; Interp id; Lit " no encontrada"].

(** The two auto-fill steps of the loop body, on one line and its product. *)
Definition fill_precio (producto : Producto) (item : Item) : Item :=
  mkItem (producto_id item) (cantidad item) (almacen_id item) (venta_id item)
    (if is_nullish (precio_unitario item)
     then JNum (Number (precio_minorista producto))
     else JNum (Number (precio_unitario item)))
    (sub_total item) (movimiento_id item).

Definition fill_sub_total (item : Item) : Item :=
  mkItem (producto_id item) (cantidad item) (almacen_id item) (venta_id item)
    (precio_unitario item)
    (if is_nullish (sub_total item)
     then JNum (toFixed2 (mul (Number (precio_unitario item))
                              (Number (cantidad item))))
     else JNum (toFixed2 (Number (sub_total item))))
    (movimiento_id item).

Definition set_movimiento_id (id : value) (item : Item) : Item :=
  mkItem (producto_id item) (cantidad item) (almacen_id item) (venta_id item)
    (precio_unitario item) (sub_total item) id.

(** The argument of the [crearMovimiento] call made for a line. *)
Definition salida (item : Item) : MovimientoData :=
  mkMovimientoData "salida" (producto_id item) (almacen_id item)
    (cantidad item) (precio_unitario item)
    [Lit "Salida por venta ID: "; Interp (venta_id item)].

(** The [for (const item of detalleVentaData)] loop: it updates the lines in
    place and carries [total_subtotales].  The array is the list of its
    lines, each line an object of its own; the list returned is the array
    after the loop. *)
Fixpoint procesar (productoMap : list (value * Producto)) (t : Transaction)
    (items : list Item) (total_subtotales : number)
  : M (list Item * number) :=
  match items with
  | [] => ret ([], total_subtotales)
  | item :: rest =>
      if negb (truthy (producto_id item)) then throw err_producto_id
      else if negb (truthy (cantidad item))
              || leb (Number (cantidad item)) zero
      then throw err_cantidad
      else
        match map_get productoMap (producto_id item) with
        | None => throw (err_producto (producto_id item))
        | Some producto =>
            let item := fill_precio producto item in
            let item := fill_sub_total item in
            let total_subtotales :=
              toFixed2 (add total_subtotales (Number (sub_total item))) in
            movimiento <- crearMovimiento (salida item) (Some t) ;;
            let item :=
              set_movimiento_id (JNum (of_Z (mov_id movimiento))) item in
            r <- procesar productoMap t rest total_subtotales ;;
            ret (item :: fst r, snd r)
        end
  end.

(** The [try] block up to the end of the loop: the batch read of the
    products, their index by id, and the loop.  It returns the updated lines
    and [total_subtotales]. *)
Definition preparar (t : Transaction) (detalleVentaData : list Item)
  : M (list Item * number) :=
  let productoIds := set_of [] (map producto_id detalleVentaData) in
  productos <- Producto_findAll productoIds (Some t) ;;
  let productoMap := map (fun p => (prod_id p, p)) productos in
  procesar productoMap t detalleVentaData zero.

(** [currentTotal === 0 || currentTotal < total_subtotales], with
    [currentTotal = Number(venta.total || 0)]. *)
Definition debe_actualizar (venta : VentaRow) (total_subtotales : number)
  : bool :=
  let currentTotal := Number (or_else (total venta) (JNum zero)) in
  eqb currentTotal zero || ltb currentTotal total_subtotales.

(** The reconciliation of the parent order, once its row is locked. *)
Definition actualizar_total (venta : VentaRow) (total_subtotales : number)
    (t : Transaction) : M unit :=
  if debe_actualizar venta total_subtotales
  then Venta_save (mkVenta (venta_pk venta) (JNum total_subtotales)) (Some t)
  else ret tt.

(** [detalleVentaData[0].venta_id]. *)
Definition primera_venta_id (detalleVentaData : list Item) : value :=
  match detalleVentaData with
  | i :: _ => venta_id i
  | [] => JUndefined
  end.

(** The body of the [try] block. *)
Definition intento (t : Transaction) (detalleVentaData : list Item)
  : M (list DetalleVenta) :=
  r <- preparar t detalleVentaData ;;
  let detalleVentaData := fst r in
  let total_subtotales := snd r in
  detalleVentaCreado <- DetalleVenta_bulkCreate detalleVentaData (Some t) ;;
  let ventaId := primera_venta_id detalleVentaData in
  if negb (truthy ventaId) then throw err_venta_id
  else
    venta <- Venta_findOne ventaId true (Some t) ;;
    match venta with
    | None => throw (err_venta ventaId)
    | Some venta =>
        actualizar_total venta total_subtotales t ;;;
        commit t ;;;
        ret detalleVentaCreado
    end.

(** [detalleVentaData] is [None] when the argument is not an array.  The
    line the handler prints with [console.error] is left out. *)
Definition crearDetalleVenta (detalleVentaData : option (list Item))
  : M (list DetalleVenta) :=
  match detalleVentaData with
  | None | Some [] => throw err_array
  | Some items =>
      transaction <- sequelize_transaction ;;
      try_catch (intento transaction items)
                (fun error => rollback transaction ;;; throw error)
  end.

End Store.

(** *** Invariants of the committed tables *)

(** A computation that never touches the committed tables. *)
Definition keeps_db {A} (m : M A) : Prop :=
  forall w r w', m w = (r, w') -> db w' = db w.

(** A computation that leaves the committed tables alone when it throws. *)
Definition keeps_db_on_throw {A} (m : M A) : Prop :=
  forall w e w', m w = (inl e, w') -> db w' = db w.

(** *** What a call computes, store aside

    The definitions below restate, as plain functions, what the loop of
    [crearDetalleVenta] computes; the theorems relate them to the runs. *)

(** The two validations that open the loop body. *)
Definition rechazada (item : Item) : option JsError :=
  if negb (truthy (producto_id item)) then Some err_producto_id
  else if negb (truthy (cantidad item)) || leb (Number (cantidad item)) zero
  then Some err_cantidad
  else None.

(** The error a line raises by itself, if any: one of the two validations,
    or a product that the index does not hold. *)
Definition falla (productoMap : list (value * Producto)) (item : Item)
  : option JsError :=
  match rechazada item with
  | Some e => Some e
  | None =>
      match map_get productoMap (producto_id item) with
      | None => Some (err_producto (producto_id item))
      | Some _ => None
      end
  end.

(** A line after both auto-fill steps. *)
Definition resolver (producto : Producto) (item : Item) : Item :=
  fill_sub_total (fill_precio producto item).

(** The lines as the loop leaves them when every line passes, the movements
    taking their keys from [id] on. *)
Fixpoint lineas (productoMap : list (value * Producto)) (id : Z)
    (items : list Item) : option (list Item) :=
  match items with
  | [] => Some []
  | item :: rest =>
      match rechazada item, map_get productoMap (producto_id item) with
      | None, Some producto =>
          match lineas productoMap (id + 1) rest with
          | Some r =>
              Some (set_movimiento_id (JNum (of_Z id)) (resolver producto item)
                    :: r)
          | None => None
          end
      | _, _ => None
      end
  end.

(** The movements created for the lines, keyed from [id] on. *)
Fixpoint salidas (id : Z) (items : list Item) : list Movimiento :=
  match items with
  | [] => []
  | i :: r => mkMovimiento id (salida i) :: salidas (id + 1) r
  end.

Definition sub_totales (items : list Item) : list number :=
  map (fun i => Number (sub_total i)) items.

(** [total_subtotales] after the given sub-totals, each step being
    [parseFloat((total_subtotales + sub_total).toFixed(2))]. *)
Definition acumular (subs : list number) (total_subtotales : number)
  : number :=
  fold_left (fun t s => toFixed2 (add t s)) subs total_subtotales.

(** The plain sum [0 + s1 + ... + sn] of the sub-totals. *)
Definition suma (subs : list number) : number := fold_left add subs zero.

(** The exact sum of whole numbers of cents. *)
Definition suma_Z (ns : list Z) : Z := fold_right Z.add 0 ns.

(** A sub-total of at most a million in magnitude:
    [Math.abs(s) <= 1000000]. *)
Definition moderado (s : number) : Prop :=
  leb (abs s) (of_Z 1000000) = true.

(** The index [new Map(productos.map(p => [p.id, p]))] over the products the
    batch read returns for these lines. *)
Definition indice (tb : Tables) (items : list Item)
  : list (value * Producto) :=
  map (fun p => (prod_id p, p))
      (filter (fun p =>
                 existsb (same_value_zero (prod_id p))
                         (set_of [] (map producto_id items)))
              (productos tb)).

(** The unit price and the sub-total of a line as the specification words
    them: the caller's value when one is supplied, the list price of the
    product, resp. the rounded product of price and quantity, otherwise. *)
Definition precio_resuelto (producto : Producto) (item : Item) : number :=
  if is_nullish (precio_unitario item)
  then Number (precio_minorista producto)
  else Number (precio_unitario item).

Definition sub_total_resuelto (producto : Producto) (item : Item) : number :=
  if is_nullish (sub_total item)
  then toFixed2 (mul (precio_resuelto producto item) (Number (cantidad item)))
  else toFixed2 (Number (sub_total item)).

(** The store holds a product with this id. *)
Definition presente (tb : Tables) (id : value) : bool :=
  existsb (fun p => same_value_zero (prod_id p) id) (productos tb).

(** The total of the order with this id, as the tables have it. *)
Definition total_de (id : value) (vs : list VentaRow) : option value :=
  option_map total (find (fun v => same_value_zero (venta_pk v) id) vs).

(** The tables with some more movements. *)
Definition con_movimientos (tb : Tables) (ms : list Movimiento) : Tables :=
  mkTables (productos tb) (ventas tb) (movimientos tb ++ ms) (detalles tb).

(** The writes among the store calls made from [w] to [w']. *)
Definition escrituras (w w' : World) : list Op :=
  filter is_write (skipn (List.length (trace w)) (trace w')).

(** A store in which no call rejects. *)
Definition sin_fallos : nat -> option JsError := fun _ => None.

(** *** Sample data

    A store with two products (list prices 10.00 and 5.00) and the order 7,
    and lines posted against that order from warehouse 1. *)

Definition num (z : Z) : value := JNum (of_Z z).

Definition linea (producto cantidad precio sub : value) : Item :=
  mkItem producto cantidad (num 1) (num 7) precio sub JUndefined.

Definition tienda (total_venta : value) : Tables :=
  mkTables [mkProducto (num 1) (JStr "10.00"); mkProducto (num 2) (JStr "5.00")]
           [mkVenta (num 7) total_venta] [] [].

Definition mundo (total_venta : value) : World :=
  mkWorld (tienda total_venta) None 1 1 0 [].

(** Two units of product 1 and one of product 2: sub-totals 20.00 and 5.00. *)
Definition lote : list Item :=
  [linea (num 1) (num 2) JUndefined JUndefined;
   linea (num 2) (num 1) JUndefined JUndefined].

(** Four lines that exercise the auto-fill: the caller prices three units
    of product 1 at 2.345; 0.333 units of product 2 go at its list price;
    the caller gives 99.999 as the sub-total of one unit of product 1; and
    the caller prices one unit of product 2 at 0.125. *)
Definition lote_del_llamador : list Item :=
  [linea (num 1) (num 3) (JStr "2.345") JUndefined;
   linea (num 2) (JStr "0.333") JUndefined JUndefined;
   linea (num 1) (num 1) JUndefined (JNum (of_decimal 99999 (-3)));
   linea (num 2) (num 1) (JNum (of_decimal 125 (-3))) JNull].

(** A batch whose second line names the unknown product 99. *)
Definition lote_ausente : list Item :=
  [linea (num 1) (num 2) JUndefined JUndefined;
   linea (num 99) (num 1) JUndefined JUndefined].

(** Three lines whose caller-supplied sub-totals run into the tens of
    trillions: 18156150705911.13, 13469151122493.04 and 19340324663790.98,
    which add up to 50965626492195.15. *)
Definition lote_enorme : list Item :=
  [linea (num 1) (num 1) JUndefined (JNum (of_decimal 1815615070591113 (-2)));
   linea (num 1) (num 1) JUndefined (JNum (of_decimal 1346915112249304 (-2)));
   linea (num 1) (num 1) JUndefined (JNum (of_decimal 1934032466379098 (-2)))].

End Ventas.

(* ================================================================= *)
(** ** Tokens, authentication and the role guard *)

Module Auth.

Local Open Scope string_scope.

(** *** Strings *)

(** The double quote character, as a one-character string. *)
Definition comilla : string := String (ascii_of_nat 34) EmptyString.

(** [s.includes(sub)]. *)
Fixpoint includes (sub s : string) : bool :=
  if String.prefix sub s then true
  else
    match s with
    | EmptyString => false
    | String _ r => includes sub r
    end.

(** [s.split(' ')]. *)
Fixpoint split_space (cur : string) (s : string) : list string :=
  match s with
  | EmptyString => [cur]
  | String c r =>
      if Ascii.eqb c " " then cur :: split_space EmptyString r
      else split_space (cur ++ String c EmptyString) r
  end.

(** [xs.join(sep)]. *)
Fixpoint join (sep : string) (xs : list string) : string :=
  match xs with
  | [] => EmptyString
  | [x] => x
  | x :: r => x ++ sep ++ join sep r
  end.

(** *** Data *)

(** [JWTPayload], also the shape of [req.usuario]; [roles] is optional. *)
Record JWTPayload : Type := mkPayload {
  id : Z;
  username : string;
  rol : string;
  roles : option (list string)
}.

(** What a [throw] can carry: an [Error] of some class, or anything else. *)
Inductive Clase : Type :=
| CError
| CJsonWebTokenError
| CTokenExpiredError
| CNotBeforeError
| COtra (nombre : string).

Inductive thrown : Type :=
| ErrorObj (c : Clase) (message : string)
| NonError (v : string).

(** [error instanceof jwt.TokenExpiredError], [... jwt.JsonWebTokenError]
    (of which the expiry and not-before errors are subclasses). *)
Definition instanceof_TokenExpiredError (e : thrown) : bool :=
  match e with
  | ErrorObj CTokenExpiredError _ => true
  | _ => false
  end.

Definition instanceof_JsonWebTokenError (e : thrown) : bool :=
  match e with
  | ErrorObj CJsonWebTokenError _
  | ErrorObj CTokenExpiredError _
  | ErrorObj CNotBeforeError _ => true
  | _ => false
  end.

Record Detalles : Type := mkDetalles {
  rolesRequeridos : list string;
  det_usuario : string;
  operacion : string
}.

Record LoginUsuario : Type := mkLoginUsuario {
  lu_id : Z;
  lu_username : string;
  lu_email : string;
  lu_roles : list string;
  lu_mustChangePassword : bool
}.

Record LoginData : Type := mkLoginData {
  token : string;
  expiresIn : string;
  data_usuario : LoginUsuario
}.

(** The JSON bodies the handlers send; a field that a body does not have is
    [None]. *)
Record Body : Type := mkBody {
  b_status : string;
  b_message : string;
  b_error : option string;
  b_code : option string;
  b_detalles : option Detalles;
  b_data : option LoginData
}.

Record Request : Type := mkRequest {
  authorization : option string;
  usuario : option JWTPayload;
  method : string;
  route_path : option string;
  path : string
}.

(** A middleware either calls [next()] or sends a response; either way the
    request object may have been updated. *)
Inductive Outcome : Type :=
| Next (req : Request)
| Respond (status : Z) (body : Body) (req : Request).

Record UsuarioRow : Type := mkUsuario {
  u_id : Z;
  u_username : string;
  u_email : string;
  u_password : string;
  u_activo : bool;
  u_ultimo_acceso : Z;
  u_mustChangePassword : bool
}.

(** A row of [usuarios_roles] with its [rol] association loaded; [None] when
    the joined role is missing. *)
Record UsuarioRolRow : Type := mkUsuarioRol {
  ur_usuario_id : Z;
  ur_rol_nombre : option string
}.

Inductive Query : Type :=
| QUsuarioFindOne
| QUsuarioRolFindAll (usuario_id : Z)
| QUsuarioSave (usuario_id : Z).

(** The identity store: its tables, whether it answers, and the queries it
    has received, oldest first. *)
Record Store : Type := mkStore {
  usuarios : list UsuarioRow;
  usuarios_roles : list UsuarioRolRow;
  disponible : bool;
  consultas : list Query
}.

Definition IO (A : Type) : Type := Store -> (thrown + A) * Store.

Definition asked (q : Query) (w : Store) : Store :=
  mkStore (usuarios w) (usuarios_roles w) (disponible w) (consultas w ++ [q]).

(** Modelled from the spec: [UsuarioRol.findAll({ where: { usuario_id },
    include: rol })] returns the assignments of the subject, and rejects when
    the store does not answer. *)
Definition UsuarioRol_findAll (usuario_id : Z) : IO (list UsuarioRolRow) :=
  fun w =>
    if disponible w then
      (inr (filter (fun ur => ur_usuario_id ur =? usuario_id)%Z
                   (usuarios_roles w)),
       asked (QUsuarioRolFindAll usuario_id) w)
    else
      (inl (ErrorObj (COtra "SequelizeConnectionError") "store unavailable"),
       asked (QUsuarioRolFindAll usuario_id) w).

(** [rolesAsignados.map((ur) => ur.rol.nombre)]: reading [nombre] of a
    missing [rol] throws a [TypeError]. *)
Fixpoint nombres (rs : list UsuarioRolRow) : thrown + list string :=
  match rs with
  | [] => inr []
  | ur :: r =>
      match ur_rol_nombre ur with
      | None => inl (ErrorObj (COtra "TypeError") "ur.rol is null")
      | Some n =>
          match nombres r with
          | inl e => inl e
          | inr ns => inr (n :: ns)
          end
      end
  end.

(** *** [config/jwt.ts] *)

Section Jwt.

(** The [jsonwebtoken] package is not part of the repository: [jwt_sign] and
    [jwt_verify] stand for [jwt.sign(payload, SECRET_KEY, options)] and
    [jwt.verify(token, SECRET_KEY)] at the time of the call. *)
Variable jwt_sign : JWTPayload -> string.
Variable jwt_verify : string -> thrown + JWTPayload.

Definition generarToken (payload : JWTPayload) : string := jwt_sign payload.

Definition verificarToken (token : string) : thrown + JWTPayload :=
  match jwt_verify token with
  | inr payload => inr payload
  | inl error =>
      if instanceof_TokenExpiredError error
      then inl (ErrorObj CError "TOKEN_EXPIRED")
      else if instanceof_JsonWebTokenError error
      then inl (ErrorObj CError "TOKEN_INVALID")
      else inl error
  end.

(** *** [middlewares/auth.middleware.ts] *)

Definition set_usuario (u : option JWTPayload) (req : Request) : Request :=
  mkRequest (authorization req) u (method req) (route_path req) (path req).

(** [authHeader && authHeader.split(' ')[1]], [None] when it is falsy. *)
Definition bearer_token (req : Request) : option string :=
  match authorization req with
  | None => None
  | Some authHeader =>
      if String.eqb authHeader EmptyString then None
      else
        match nth_error (split_space EmptyString authHeader) 1 with
        | Some t => if String.eqb t EmptyString then None else Some t
        | None => None
        end
  end.

Definition autenticarToken (req : Request) : IO Outcome :=
  fun w =>
    match bearer_token req with
    | None =>
        (inr (Respond 401
                (mkBody "error" "Acceso no autorizado"
                   (Some "No se proporcionó un token de autenticación. Debes iniciar sesión primero.")
                   (Some "TOKEN_NOT_PROVIDED") None None)
                req), w)
    | Some token =>
        match verificarToken token with
        | inr payload => (inr (Next (set_usuario (Some payload) req)), w)
        | inl error =>
            let errorCode :=
              match error with
              | ErrorObj _ message => message
              | NonError _ => "TOKEN_INVALID"
              end in
            (inr (Respond 403
                    (mkBody "error" "Token inválido"
                       (Some (if String.eqb errorCode "TOKEN_EXPIRED"
                              then "El token ha expirado. Por favor, inicia sesión nuevamente."
                              else "El token es inválido. Por favor, inicia sesión nuevamente."))
                       (Some errorCode) None None)
                    req), w)
        end
    end.

(** [obtenerAccionDeRuta]. *)
Definition obtenerAccionDeRuta (req : Request) : string :=
  let metodo := method req in
  let ruta :=
    match route_path req with
    | Some p => if String.eqb p EmptyString then path req else p
    | None => path req
    end in
  let generic :=
    if String.eqb metodo "GET" then "Ver este recurso"
    else if String.eqb metodo "POST" then "Crear este recurso"
    else if String.eqb metodo "PUT" then "Actualizar este recurso"
    else if String.eqb metodo "DELETE" then "Eliminar este recurso"
    else if String.eqb metodo "PATCH" then "Modificar este recurso"
    else "Esta operación" in
  if includes "/usuarios" ruta then
    if String.eqb metodo "GET" && negb (includes ":id" ruta)
    then "Listar usuarios"
    else if String.eqb metodo "GET" && includes ":id" ruta
    then "Ver detalles de usuario"
    else if String.eqb metodo "POST" then "Crear nuevos usuarios"
    else if String.eqb metodo "PUT" then "Actualizar usuarios"
    else if String.eqb metodo "DELETE" then "Eliminar usuarios"
    else if String.eqb metodo "PATCH" && includes "habilitar" ruta
    then "Habilitar/inhabilitar usuarios"
    else generic
  else generic.

(** [formatearRoles]; indexing past the end of an array gives [undefined],
    which a template literal prints as that word. *)
Definition entre_comillas (r : string) : string := comilla ++ r ++ comilla.

Definition formatearRoles (roles : list string) : string :=
  match roles with
  | [r] => entre_comillas r
  | [a; b] => entre_comillas a ++ " o " ++ entre_comillas b
  | _ =>
      let ultimoRol := last roles "undefined" in
      let rolesAnteriores := join ", " (map entre_comillas (removelast roles)) in
      rolesAnteriores ++ " o " ++ entre_comillas ultimoRol
  end.

(** [roles.some((rol) => rolesPermitidos.includes(rol))]. *)
Definition tienePermiso (rolesPermitidos roles : list string) : bool :=
  existsb (fun rol => existsb (String.eqb rol) rolesPermitidos) roles.

Definition set_roles (rs : list string) (u : JWTPayload) : JWTPayload :=
  mkPayload (id u) (username u) (rol u) (Some rs).

(** The roles the guard decides on: those already on the request, otherwise
    those fetched from the store, which are then cached on the request. *)
Definition resolver_roles (u : JWTPayload) : IO (list string) :=
  fun w =>
    match roles u with
    | Some rs => (inr rs, w)
    | None =>
        match UsuarioRol_findAll (id u) w with
        | (inl e, w') => (inl e, w')
        | (inr rolesAsignados, w') =>
            match nombres rolesAsignados with
            | inl e => (inl e, w')
            | inr rs => (inr rs, w')
            end
        end
    end.

Definition verificarRol (rolesPermitidos : list string) (req : Request)
  : IO Outcome :=
  fun w =>
    match usuario req with
    | None =>
        (inr (Respond 401
                (mkBody "error" "Autenticación requerida"
                   (Some "Debes estar autenticado para realizar esta acción.")
                   (Some "AUTHENTICATION_REQUIRED") None None)
                req), w)
    | Some u =>
        match resolver_roles u w with
        | (inr rs, w') =>
            let req := set_usuario (Some (set_roles rs u)) req in
            if negb (tienePermiso rolesPermitidos rs) then
              let accion := obtenerAccionDeRuta req in
              let rolesRequeridos := formatearRoles rolesPermitidos in
              (inr (Respond 403
                      (mkBody "error" "Permisos insuficientes"
                         (Some ("La operación " ++ entre_comillas accion
                                ++ " requiere el rol: " ++ rolesRequeridos
                                ++ "."))
                         (Some "INSUFFICIENT_PERMISSIONS")
                         (Some (mkDetalles rolesPermitidos (username u)
                                           accion))
                         None)
                      req), w')
            else (inr (Next req), w')
        | (inl _, w') =>
            (inr (Respond 500
                    (mkBody "error" "Error verificando permisos"
                       (Some "Ocurrió un error al verificar los permisos del usuario")
                       (Some "ROLE_VERIFICATION_ERROR") None None)
                    req), w')
        end
    end.

(** *** [controllers/usuarios/usuarios.controller.ts] *)

(** [argon2.verify(hash, password)], which answers whether the password is
    the one of the hash or rejects, as it does when it is given no password
    or cannot read the hash; and the instant [new Date()] gives. *)
Variable argon2_verify : string -> option string -> thrown + bool.
Variable ahora : Z.

(** The fields [login] reads from [req.body]; a field the body does not have
    is [None]. *)
Record LoginBody : Type := mkLoginBody {
  lb_email : option string;
  lb_username : option string;
  lb_password : option string
}.

(** Modelled from the spec: [Usuario.findOne({ where })] by email when one is
    given, by username otherwise; the store rejects a lookup on a missing
    key, and any lookup when it does not answer. *)
Definition Usuario_findOne (body : LoginBody) : IO (option UsuarioRow) :=
  fun w =>
    let w' := asked QUsuarioFindOne w in
    if negb (disponible w) then
      (inl (ErrorObj (COtra "SequelizeConnectionError") "store unavailable"),
       w')
    else
      let by_email :=
        match lb_email body with
        | Some e => if String.eqb e EmptyString then None else Some e
        | None => None
        end in
      match by_email, lb_username body with
      | Some e, _ =>
          (inr (find (fun u => String.eqb (u_email u) e) (usuarios w)), w')
      | None, Some n =>
          (inr (find (fun u => String.eqb (u_username u) n) (usuarios w)), w')
      | None, None =>
          (inl (ErrorObj CError "WHERE parameter has invalid undefined value"),
           w')
      end.

(** Modelled from the spec: [usuario.save()] writes the row back by its
    key. *)
Definition Usuario_save (u : UsuarioRow) : IO unit :=
  fun w =>
    let w' := asked (QUsuarioSave (u_id u)) w in
    if disponible w then
      (inr tt,
       mkStore (map (fun r => if (u_id r =? u_id u)%Z then u else r)
                    (usuarios w'))
               (usuarios_roles w') (disponible w') (consultas w'))
    else
      (inl (ErrorObj (COtra "SequelizeConnectionError") "store unavailable"),
       w').

(** The payload [login] signs for a subject with these assignments. *)
Definition login_payload (u : UsuarioRow) (roles : list string)
  : JWTPayload :=
  let rolPrincipal :=
    match roles with
    | r :: _ => if String.eqb r EmptyString then "usuario" else r
    | [] => "usuario"
    end in
  mkPayload (u_id u) (u_username u) rolPrincipal (Some roles).

Definition credenciales_invalidas : Body :=
  mkBody "error" "Credenciales inválidas"
    (Some "Usuario o contraseña incorrectos") (Some "INVALID_CREDENTIALS")
    None None.

Definition error_autenticacion (e : thrown) : Body :=
  mkBody "error" "Error en autenticación"
    (match e with ErrorObj _ m => Some m | NonError _ => None end)
    None None None.

(** [login]: status and body of the response it sends. *)
Definition login (body : LoginBody) : Store -> (Z * Body) * Store :=
  fun w =>
    match Usuario_findOne body w with
    | (inl e, w1) => ((500, error_autenticacion e), w1)
    | (inr None, w1) => ((401, credenciales_invalidas), w1)
    | (inr (Some usuario), w1) =>
        if negb (u_activo usuario) then
          ((403,
            mkBody "error" "Cuenta deshabilitada"
              (Some "Tu cuenta ha sido deshabilitada. Contacta al administrador.")
              (Some "ACCOUNT_DISABLED") None None), w1)
        else
          match argon2_verify (u_password usuario) (lb_password body) with
          | inl e => ((500, error_autenticacion e), w1)
          | inr false => ((401, credenciales_invalidas), w1)
          | inr true =>
              match UsuarioRol_findAll (u_id usuario) w1 with
              | (inl e, w2) => ((500, error_autenticacion e), w2)
              | (inr rolesAsignados, w2) =>
                  match nombres rolesAsignados with
                  | inl e => ((500, error_autenticacion e), w2)
                  | inr roles =>
                      let token :=
                        generarToken (login_payload usuario roles) in
                      let usuario' :=
                        mkUsuario (u_id usuario) (u_username usuario)
                          (u_email usuario) (u_password usuario)
                          (u_activo usuario) ahora
                          (u_mustChangePassword usuario) in
                      match Usuario_save usuario' w2 with
                      | (inl e, w3) => ((500, error_autenticacion e), w3)
                      | (inr _, w3) =>
                          ((200,
                            mkBody "ok" "Autenticación exitosa" None None
                              None
                              (Some (mkLoginData token "1h"
                                       (mkLoginUsuario (u_id usuario)
                                          (u_username usuario)
                                          (u_email usuario) roles
                                          (u_mustChangePassword usuario))))),
                           w3)
                      end
                  end
              end
          end
    end.

End Jwt.

(** *** What the guard decides, in the words of the specification *)

(** The subject holds at least one of the required roles. *)
Definition intersecta (requeridos del_sujeto : list string) : Prop :=
  exists r, In r del_sujeto /\ In r requeridos.

(** The role set of a subject: the roles the request already carries for
    it, otherwise the roles assigned to its id in the store, each read
    through the role the assignment is joined with ([None] for an assignment
    whose role is missing). *)
Definition roles_del_sujeto (u : JWTPayload) (w : Store)
  : list (option string) :=
  match roles u with
  | Some rs => map Some rs
  | None =>
      map ur_rol_nombre
          (filter (fun ur => (ur_usuario_id ur =? id u)%Z) (usuarios_roles w))
  end.

(** The store as the guard leaves it: asked once for the assignments of the
    subject when the request carried no roles, untouched otherwise. *)
Definition tras_la_guardia (u : JWTPayload) (w : Store) : Store :=
  match roles u with
  | Some _ => w
  | None => asked (QUsuarioRolFindAll (id u)) w
  end.

(** *** Sample data

    The subject ana, a seller; a stand-in for the token library that knows
    one valid and one expired token; the identity store at login time and
    after an administrator has made ana an administrator instead. *)

Definition ana : JWTPayload := mkPayload 1 "ana" "vendedor" (Some ["vendedor"]).

Fixpoint lista_eqb (a b : list string) : bool :=
  match a, b with
  | [], [] => true
  | x :: a', y :: b' => String.eqb x y && lista_eqb a' b'
  | _, _ => false
  end.

Definition payload_eqb (p q : JWTPayload) : bool :=
  (id p =? id q)%Z && String.eqb (username p) (username q)
  && String.eqb (rol p) (rol q)
  && match roles p, roles q with
     | Some a, Some b => lista_eqb a b
     | None, None => true
     | _, _ => false
     end.

Definition firma_de_prueba (payload : JWTPayload) : string :=
  if payload_eqb payload ana then "vigente" else "desconocido".

Definition jwt_de_prueba (token : string) : thrown + JWTPayload :=
  if String.eqb token "vigente" then inr ana
  else if String.eqb token "vencido"
  then inl (ErrorObj CTokenExpiredError "jwt expired")
  else inl (ErrorObj CJsonWebTokenError "jwt malformed").

Definition peticion (auth : option string) (u : option JWTPayload)
  : Request :=
  mkRequest auth u "DELETE" (Some "/usuarios/:id") "/usuarios/5".

Definition almacen : Store :=
  mkStore [mkUsuario 1 "ana" "ana@tienda.test" "hash" true 0 false]
          [mkUsuarioRol 1 (Some "vendedor")] true [].

Definition almacen_editado : Store :=
  mkStore [mkUsuario 1 "ana" "ana@tienda.test" "hash" true 0 false]
          [mkUsuarioRol 1 (Some "admin")] true [].

(** A subject whose request carries no roles yet. *)
Definition ana_sin_roles : JWTPayload := mkPayload 1 "ana" "vendedor" None.

End Auth.

(* ================================================================= *)
(** ** The token library *)

Module Jsonwebtoken.

Import Auth.
Local Open Scope string_scope.

(** What a string that has the structure of a token encodes: the claims and,
    when the token has one, the expiry instant. *)
Record Contenido : Type := mkContenido {
  c_payload : JWTPayload;
  c_exp : option Z
}.

Section Verify.

(** The decoding of the parts of a token, [None] when the string has not the
    structure of one; whether the signature of a token is the one its other
    parts get under a key; and the current time.  Instants are whole numbers
    of one unit. *)
Variable decodificar : string -> option Contenido.
Variable firma_valida : string -> string -> bool.
Variable reloj : Z.

(** Modelled from the spec: [jwt.verify(token, SECRET_KEY)] of the
    [jsonwebtoken] package, which is not part of the repository.  It fails
    with the package's [JsonWebTokenError] on a structural mismatch and on a
    signature mismatch, and with its [TokenExpiredError] when the current time
    exceeds the encoded expiry; otherwise it returns the decoded claims.  The
    signature is checked before the expiry is looked at: what a token with a
    wrong signature says about its expiry is not taken into account. *)
Definition verify (token SECRET_KEY : string) : thrown + JWTPayload :=
  match decodificar token with
  | None => inl (ErrorObj CJsonWebTokenError "jwt malformed")
  | Some c =>
      if negb (firma_valida SECRET_KEY token)
      then inl (ErrorObj CJsonWebTokenError "invalid signature")
      else
        match c_exp c with
        | Some exp =>
            if (exp <? reloj)%Z
            then inl (ErrorObj CTokenExpiredError "jwt expired")
            else inr (c_payload c)
        | None => inr (c_payload c)
        end
  end.

End Verify.

(** *** Sample data

    A stand-in for the encoding of tokens: a token is the name of its subject,
    a dot and its signature; the signature under a key is the key itself; and
    the tokens of ana expire at the instant 100. *)
Definition decodificar_de_prueba (token : string) : option Contenido :=
  if String.prefix "ana." token then Some (mkContenido ana (Some 100%Z))
  else None.

Definition firma_valida_de_prueba (key token : string) : bool :=
  String.eqb token ("ana." ++ key).

End Jsonwebtoken.

(** ** The other services of [references/transactions.md]

    [crearVenta], the stock services ([actualizarInventario] in its two
    forms, [transferStock]), [crearUsuario], and the role management service
    ([asignarRol], [removerRol], [sincronizarRoles],
    [obtenerRolesDeUsuario]), over the relational store that the schema of
    the document describes. *)

Module Servicios.

Import JsNum Js.
Local Open Scope string_scope.

(** *** Errors *)

(** An element of [error.errors], with the two fields the services read; a
    [path] of [null] is [None]. *)
Record ErrorItem : Type := mkErrorItem {
  path : option string;
  item_message : string
}.

(** A thrown error object: its [name], its [message] and, where it has one,
    its [errors] array. *)
Record Excepcion : Type := mkExcepcion {
  name : string;
  message : string;
  errors : option (list ErrorItem)
}.

(** [new Error(message)], and the [TypeError] of the engine. *)
Definition Error (message : string) : Excepcion :=
  mkExcepcion "Error" message None.

Definition TypeError (message : string) : Excepcion :=
  mkExcepcion "TypeError" message None.

(** *** Rows *)

(** [cantidad] is what the driver hands back for the column: a number, or a
    string for a decimal column. *)
Record Inventario : Type := mkInventario {
  inv_id : Z;
  inv_producto_id : Z;
  inv_cantidad : value;
  inv_version : number
}.

Record Rol : Type := mkRol {
  r_id : Z;
  r_nombre : string
}.

(** A row of [usuarios_roles]. *)
Record UsuarioRol : Type := mkAsignacion {
  a_id : Z;
  a_usuario_id : Z;
  a_rol_id : Z
}.

(** The argument of [Usuario.create], with every column but the key. *)
Record NuevoUsuario : Type := mkNuevoUsuario {
  nu_username : string;
  nu_email : string;
  nu_password : string;
  nu_activo : bool;
  nu_ultimo_acceso : Z;
  nu_mustChangePassword : bool
}.

(** The argument of [crearVenta]: the columns of the order, and its
    [detalles], [None] when the object has none. *)
Record VentaData : Type := mkVentaData {
  vd_total : value;
  vd_detalles : option (list Ventas.Item)
}.

Record Tables : Type := mkTables {
  inventarios : list Inventario;
  usuarios : list Auth.UsuarioRow;
  roles : list Rol;
  usuarios_roles : list UsuarioRol;
  ventas : list Ventas.VentaRow;
  detalles : list Ventas.DetalleVenta
}.

Definition con_inventarios (filas : list Inventario) (tb : Tables)
  : Tables :=
  mkTables filas (usuarios tb) (roles tb) (usuarios_roles tb) (ventas tb)
           (detalles tb).

Definition con_usuarios (us : list Auth.UsuarioRow) (tb : Tables) : Tables :=
  mkTables (inventarios tb) us (roles tb) (usuarios_roles tb) (ventas tb)
           (detalles tb).

Definition con_usuarios_roles (asg : list UsuarioRol) (tb : Tables)
  : Tables :=
  mkTables (inventarios tb) (usuarios tb) (roles tb) asg (ventas tb)
           (detalles tb).

Definition con_ventas (vs : list Ventas.VentaRow) (tb : Tables) : Tables :=
  mkTables (inventarios tb) (usuarios tb) (roles tb) (usuarios_roles tb) vs
           (detalles tb).

Definition con_detalles (ds : list Ventas.DetalleVenta) (tb : Tables)
  : Tables :=
  mkTables (inventarios tb) (usuarios tb) (roles tb) (usuarios_roles tb)
           (ventas tb) ds.

(** *** The world a call runs in *)

Definition Transaction : Type := nat.

(** What [obtenerRolesDeUsuario] asks the store to join to each row. *)
Inductive Include : Type :=
| IncUsuario (exclude : list string)
| IncRol.

(** Store calls, as issued. *)
Inductive Op : Type :=
| OpTransaction
| OpCommit (t : Transaction)
| OpRollback (t : Transaction)
| OpVentaCreate (data : VentaData) (t : option Transaction)
| OpDetalleVentaBulkCreate (items : list Ventas.Item)
    (t : option Transaction)
| OpInventarioFindOne (producto_id : Z) (lock_update : bool)
    (t : option Transaction)
| OpInventarioFindByPk (id : number) (lock : bool)
| OpInventarioSave (i : Inventario) (t : option Transaction)
| OpInventarioUpdate (id : Z) (version cantidad version' : number)
| OpUsuarioCreate (data : NuevoUsuario) (t : option Transaction)
| OpUsuarioFindByPk (id : Z) (t : option Transaction)
| OpRolFindAll (ids : list Z) (t : option Transaction)
| OpUsuarioRolFindOne (usuario_id rol_id : Z)
| OpUsuarioRolFindAll (usuario_id : Z) (include : list Include)
| OpUsuarioRolCreate (usuario_id rol_id : Z)
| OpUsuarioRolDestroy (usuario_id : Z) (rol_id : option Z)
    (t : option Transaction)
| OpUsuarioRolBulkCreate (pares : list (Z * Z)) (t : option Transaction).

(** The sequences that hand out the keys of [usuarios], [usuarios_roles],
    [ventas] and [detalles]. *)
Record Secuencias : Type := mkSecuencias {
  sec_usuario : Z;
  sec_asignacion : Z;
  sec_venta : Z;
  sec_detalle : Z
}.

(** [db] holds what is committed; [tx] the open transaction and the tables as
    it sees them; the sequences are not rewound by a rollback; [calls]
    counts the store calls made so far and [trace] lists them, oldest
    first. *)
Record World : Type := mkWorld {
  db : Tables;
  tx : option (Transaction * Tables);
  secuencias : Secuencias;
  calls : nat;
  trace : list Op
}.

Definition next_usuario (w : World) : Z := sec_usuario (secuencias w).
Definition next_asignacion (w : World) : Z := sec_asignacion (secuencias w).
Definition next_venta (w : World) : Z := sec_venta (secuencias w).
Definition next_detalle (w : World) : Z := sec_detalle (secuencias w).

Definition M (A : Type) : Type := World -> (Excepcion + A) * World.

Definition ret {A} (a : A) : M A := fun w => (inr a, w).

Definition throw {A} (e : Excepcion) : M A := fun w => (inl e, w).

Definition bind {A B} (m : M A) (k : A -> M B) : M B :=
  fun w =>
    match m w with
    | (inl e, w') => (inl e, w')
    | (inr a, w') => k a w'
    end.

(** [try { m } catch (error) { h error }]. *)
Definition try_catch {A} (m : M A) (h : Excepcion -> M A) : M A :=
  fun w =>
    match m w with
    | (inl e, w') => h e w'
    | (inr a, w') => (inr a, w')
    end.

Declare Scope orm_scope.
Delimit Scope orm_scope with orm.
Notation "x <- m ;; k" := (bind m (fun x => k))
  (at level 100, m at next level, right associativity) : orm_scope.
Notation "m ;;; k" := (bind m (fun _ => k))
  (at level 100, right associativity) : orm_scope.
Local Open Scope orm_scope.

Definition set_db (tb : Tables) (w : World) : World :=
  mkWorld tb (tx w) (secuencias w) (calls w) (trace w).

Definition set_tx (o : option (Transaction * Tables)) (w : World) : World :=
  mkWorld (db w) o (secuencias w) (calls w) (trace w).

Definition log (o : Op) (w : World) : World :=
  mkWorld (db w) (tx w) (secuencias w) (S (calls w)) (trace w ++ [o]).

Definition set_secuencias (s : Secuencias) (w : World) : World :=
  mkWorld (db w) (tx w) s (calls w) (trace w).

(** *** The schema

    The table [usuarios_roles] of the document has the unique key
    [(usuario_id, rol_id)] and a foreign key to each of [usuarios] and
    [roles]. *)

(** A row of the pair. *)
Definition asignado (usuario_id rol_id : Z) (a : UsuarioRol) : bool :=
  ((a_usuario_id a =? usuario_id) && (a_rol_id a =? rol_id))%Z.

(** Modelled from the spec: the error with which the store rejects the
    insert of a pair, if a constraint forbids it.  Of the error only the
    name is modelled. *)
Definition violacion (tb : Tables) (usuario_id rol_id : Z)
  : option Excepcion :=
  if existsb (asignado usuario_id rol_id) (usuarios_roles tb)
  then Some (mkExcepcion "SequelizeUniqueConstraintError" EmptyString
                        None)
  else if negb (existsb (fun u => (Auth.u_id u =? usuario_id)%Z)
                        (usuarios tb))
          || negb (existsb (fun r => (r_id r =? rol_id)%Z) (roles tb))
  then Some (mkExcepcion "SequelizeForeignKeyConstraintError" EmptyString
                        None)
  else None.

(** Modelled from the spec: one multi-row insert into [usuarios_roles], keys
    from [id] on: all the rows, or the first violation and no row. *)
Fixpoint insertar (id : Z) (pares : list (Z * Z)) (tb : Tables)
  : Excepcion + (list UsuarioRol * Tables) :=
  match pares with
  | [] => inr ([], tb)
  | (usuario_id, rol_id) :: r =>
      match violacion tb usuario_id rol_id with
      | Some e => inl e
      | None =>
          let a := mkAsignacion id usuario_id rol_id in
          match insertar (id + 1) r
                  (con_usuarios_roles (usuarios_roles tb ++ [a]) tb) with
          | inl e => inl e
          | inr (created, tb') => inr (a :: created, tb')
          end
      end
  end.

(** The rows for the pairs, keyed from [id] on. *)
Fixpoint numerar (id : Z) (pares : list (Z * Z)) : list UsuarioRol :=
  match pares with
  | [] => []
  | (usuario_id, rol_id) :: r =>
      mkAsignacion id usuario_id rol_id :: numerar (id + 1) r
  end.

(** The columns of a [usuarios] row, by name. *)
Definition atributos (u : Auth.UsuarioRow) : list (string * value) :=
  [("id", JNum (of_Z (Auth.u_id u)));
   ("username", JStr (Auth.u_username u));
   ("email", JStr (Auth.u_email u));
   ("password", JStr (Auth.u_password u));
   ("activo", JBool (Auth.u_activo u));
   ("mustChangePassword", JBool (Auth.u_mustChangePassword u));
   ("ultimo_acceso", JNum (of_Z (Auth.u_ultimo_acceso u)))].

(** A row of [usuarios_roles] as a query returns it: with the user (the
    columns that were not excluded) and the role when they were asked for,
    each [null] when the row it points to is missing. *)
Record Fila : Type := mkFila {
  fila : UsuarioRol;
  fila_usuario : option (option (list (string * value)));
  fila_rol : option (option Rol)
}.

(** Modelled from the spec: the joins of [include], each [{ model, as }]
    adding the row the assignment points to, without the attributes that
    [exclude] names. *)
Definition unir (tb : Tables) (include : list Include) (a : UsuarioRol)
  : Fila :=
  fold_left
    (fun f inc =>
       match inc with
       | IncUsuario exclude =>
           mkFila (fila f)
             (Some (option_map
                      (fun u =>
                         filter (fun kv =>
                                   negb (existsb (String.eqb (fst kv))
                                                 exclude))
                                (atributos u))
                      (find (fun u => (Auth.u_id u =? a_usuario_id a)%Z)
                            (usuarios tb))))
             (fila_rol f)
       | IncRol =>
           mkFila (fila f) (fila_usuario f)
             (Some (find (fun r => (r_id r =? a_rol_id a)%Z) (roles tb)))
       end)
    include (mkFila a None None).

Section Store.

(** Which store calls reject, and with what: [fault n] is the fate of the
    call made when [n] calls have been made before it. *)
Variable fault : nat -> option Excepcion.

(** Record a store call, then let it fail if it is fated to. *)
Definition issue (o : Op) : M unit :=
  fun w =>
    match fault (calls w) with
    | Some e => (inl e, log o w)
    | None => (inr tt, log o w)
    end.

(** The tables a call sees: those of the transaction it is given, the
    committed ones without a transaction. *)
Definition view (t : option Transaction) : M Tables :=
  fun w =>
    match t with
    | None => (inr (db w), w)
    | Some h =>
        match tx w with
        | Some (h', tb) =>
            if Nat.eqb h h' then (inr tb, w)
            else (inl (Error "transaction finished"), w)
        | None => (inl (Error "transaction finished"), w)
        end
    end.

(** Write the tables back where [view] read them. *)
Definition store (t : option Transaction) (tb : Tables) : M unit :=
  fun w =>
    match t with
    | None => (inr tt, set_db tb w)
    | Some h => (inr tt, set_tx (Some (h, tb)) w)
    end.

(** Modelled from the spec: [sequelize.transaction()],
    [transaction.commit()] and [transaction.rollback()] of the Unit-of-Work
    Manager; a rollback does not reject. *)
Definition sequelize_transaction : M Transaction :=
  issue OpTransaction ;;;
  fun w => (inr (calls w), set_tx (Some (calls w, db w)) w).

Definition commit (t : Transaction) : M unit :=
  issue (OpCommit t) ;;;
  tb <- view (Some t) ;;
  fun w => (inr tt, set_tx None (set_db tb w)).

Definition rollback (t : Transaction) : M unit :=
  fun w => (inr tt, set_tx None (log (OpRollback t) w)).

(** *** The store calls of the services

    The ORM is not part of the repository.  A read returns the rows that
    match; a write changes the tables its transaction sees, the committed
    ones when it has none. *)

(** Modelled from the spec: [Inventario.findOne({ where: { producto_id },
    transaction, lock })] reads the stock row of the product, [null] when
    there is none. *)
Definition Inventario_findOne (producto_id : Z) (lock_update : bool)
    (t : option Transaction) : M (option Inventario) :=
  issue (OpInventarioFindOne producto_id lock_update t) ;;;
  tb <- view t ;;
  ret (find (fun i => (inv_producto_id i =? producto_id)%Z)
            (inventarios tb)).

(** The rows after the row [i] has been written back by its key. *)
Definition guardar (i : Inventario) (filas : list Inventario)
  : list Inventario :=
  map (fun r => if (inv_id r =? inv_id i)%Z then i else r) filas.

(** Modelled from the spec: [inventario.save({ transaction })] writes the
    row back by its key. *)
Definition Inventario_save (i : Inventario) (t : option Transaction)
  : M unit :=
  issue (OpInventarioSave i t) ;;;
  tb <- view t ;;
  store t (con_inventarios (guardar i (inventarios tb)) tb).

(** The rows that [where: { id, version }] selects. *)
Definition coincide (id : Z) (version : number) (i : Inventario) : bool :=
  (inv_id i =? id)%Z && eqb (inv_version i) version.

(** Modelled from the spec: [Inventario.update({ cantidad, version:
    version' }, { where: { id, version } })] sets the two columns in the rows
    that match and returns their number. *)
Definition Inventario_update (id : Z) (version cantidad version' : number)
  : M Z :=
  issue (OpInventarioUpdate id version cantidad version') ;;;
  tb <- view None ;;
  store None
    (con_inventarios
       (map (fun i =>
               if coincide id version i
               then mkInventario (inv_id i) (inv_producto_id i)
                                 (JNum cantidad) version'
               else i)
            (inventarios tb))
       tb) ;;;
  ret (Z.of_nat (List.length (filter (coincide id version)
                                     (inventarios tb)))).

(** Modelled from the spec: [Inventario.findByPk(id, { lock: true })] reads
    the row with that key. *)
Definition Inventario_findByPk (id : number) (lock : bool)
  : M (option Inventario) :=
  issue (OpInventarioFindByPk id lock) ;;;
  tb <- view None ;;
  ret (find (fun i => eqb (of_Z (inv_id i)) id) (inventarios tb)).

(** The next key, or the next [n] keys, of each sequence. *)
Definition fresh_usuario : M Z :=
  fun w =>
    (inr (next_usuario w),
     set_secuencias
       (mkSecuencias (next_usuario w + 1) (next_asignacion w) (next_venta w)
                     (next_detalle w))
       w).

Definition fresh_asignaciones (n : nat) : M Z :=
  fun w =>
    (inr (next_asignacion w),
     set_secuencias
       (mkSecuencias (next_usuario w) (next_asignacion w + Z.of_nat n)
                     (next_venta w) (next_detalle w))
       w).

Definition fresh_venta : M Z :=
  fun w =>
    (inr (next_venta w),
     set_secuencias
       (mkSecuencias (next_usuario w) (next_asignacion w) (next_venta w + 1)
                     (next_detalle w))
       w).

Definition fresh_detalles (n : nat) : M Z :=
  fun w =>
    (inr (next_detalle w),
     set_secuencias
       (mkSecuencias (next_usuario w) (next_asignacion w) (next_venta w)
                     (next_detalle w + Z.of_nat n))
       w).

(** Modelled from the spec: [Venta.create(ventaData, { transaction })]
    inserts the order under the next key and returns it. *)
Definition Venta_create (data : VentaData) (t : option Transaction)
  : M Ventas.VentaRow :=
  issue (OpVentaCreate data t) ;;;
  tb <- view t ;;
  id <- fresh_venta ;;
  let venta := Ventas.mkVenta (JNum (of_Z id)) (vd_total data) in
  store t (con_ventas (ventas tb ++ [venta]) tb) ;;;
  ret venta.

(** Modelled from the spec: [DetalleVenta.bulkCreate(detalles,
    { transaction })] inserts the lines as they are given, each under a key
    of its own.  The call reads the length of its argument first, so without
    an array it throws a [TypeError] before it reaches the store. *)
Definition DetalleVenta_bulkCreate (detalles_dados : option (list Ventas.Item))
    (t : option Transaction) : M (list Ventas.DetalleVenta) :=
  match detalles_dados with
  | None =>
      throw (TypeError
               "Cannot read properties of undefined (reading 'length')")
  | Some items =>
      issue (OpDetalleVentaBulkCreate items t) ;;;
      tb <- view t ;;
      id <- fresh_detalles (List.length items) ;;
      let created := Ventas.number_from id items in
      store t (con_detalles (detalles tb ++ created) tb) ;;;
      ret created
  end.

(** Modelled from the spec: [Usuario.create(data, { transaction })] inserts
    the user under the next key and returns the row; when the store rejects
    the row (a taken username or email, say) is up to [fault]. *)
Definition Usuario_create (data : NuevoUsuario) (t : option Transaction)
  : M Auth.UsuarioRow :=
  issue (OpUsuarioCreate data t) ;;;
  tb <- view t ;;
  id <- fresh_usuario ;;
  let usuario :=
    Auth.mkUsuario id (nu_username data) (nu_email data) (nu_password data)
      (nu_activo data) (nu_ultimo_acceso data)
      (nu_mustChangePassword data) in
  store t (con_usuarios (usuarios tb ++ [usuario]) tb) ;;;
  ret usuario.

(** Modelled from the spec: [Usuario.findByPk(usuario_id, { transaction })]
    reads the user with that key. *)
Definition Usuario_findByPk (id : Z) (t : option Transaction)
  : M (option Auth.UsuarioRow) :=
  issue (OpUsuarioFindByPk id t) ;;;
  tb <- view t ;;
  ret (find (fun u => (Auth.u_id u =? id)%Z) (usuarios tb)).

(** Modelled from the spec: [Rol.findAll({ where: { id: ids }, transaction
    })] returns the roles whose key is among [ids], each once. *)
Definition Rol_findAll (ids : list Z) (t : option Transaction)
  : M (list Rol) :=
  issue (OpRolFindAll ids t) ;;;
  tb <- view t ;;
  ret (filter (fun r => existsb (Z.eqb (r_id r)) ids) (roles tb)).

(** Modelled from the spec: [UsuarioRol.findOne({ where: { usuario_id,
    rol_id } })] reads a row of the pair. *)
Definition UsuarioRol_findOne (usuario_id rol_id : Z)
  : M (option UsuarioRol) :=
  issue (OpUsuarioRolFindOne usuario_id rol_id) ;;;
  tb <- view None ;;
  ret (find (asignado usuario_id rol_id) (usuarios_roles tb)).

(** Modelled from the spec: [UsuarioRol.findAll({ where: { usuario_id },
    include })] returns the rows of the user, with what [include] joins. *)
Definition UsuarioRol_findAll (usuario_id : Z) (include : list Include)
  : M (list Fila) :=
  issue (OpUsuarioRolFindAll usuario_id include) ;;;
  tb <- view None ;;
  ret (map (unir tb include)
           (filter (fun a => (a_usuario_id a =? usuario_id)%Z)
                   (usuarios_roles tb))).

(** Modelled from the spec: [UsuarioRol.create({ usuario_id, rol_id })]
    inserts the pair under the next key, unless a constraint of the schema
    forbids it. *)
Definition UsuarioRol_create (usuario_id rol_id : Z) : M UsuarioRol :=
  issue (OpUsuarioRolCreate usuario_id rol_id) ;;;
  tb <- view None ;;
  match violacion tb usuario_id rol_id with
  | Some e => throw e
  | None =>
      id <- fresh_asignaciones 1 ;;
      let a := mkAsignacion id usuario_id rol_id in
      store None (con_usuarios_roles (usuarios_roles tb ++ [a]) tb) ;;;
      ret a
  end.

(** The rows that [where: { usuario_id }] selects, or [where: { usuario_id,
    rol_id }] when a role is given. *)
Definition seleccion (usuario_id : Z) (rol_id : option Z) (a : UsuarioRol)
  : bool :=
  match rol_id with
  | Some r => asignado usuario_id r a
  | None => (a_usuario_id a =? usuario_id)%Z
  end.

(** Modelled from the spec: [UsuarioRol.destroy({ where, transaction })]
    deletes the rows that match and returns their number. *)
Definition UsuarioRol_destroy (usuario_id : Z) (rol_id : option Z)
    (t : option Transaction) : M Z :=
  issue (OpUsuarioRolDestroy usuario_id rol_id t) ;;;
  tb <- view t ;;
  store t
    (con_usuarios_roles
       (filter (fun a => negb (seleccion usuario_id rol_id a))
               (usuarios_roles tb))
       tb) ;;;
  ret (Z.of_nat (List.length (filter (seleccion usuario_id rol_id)
                                     (usuarios_roles tb)))).

(** Modelled from the spec: [UsuarioRol.bulkCreate(pares, { transaction })]
    inserts the pairs in one statement. *)
Definition UsuarioRol_bulkCreate (pares : list (Z * Z))
    (t : option Transaction) : M (list UsuarioRol) :=
  issue (OpUsuarioRolBulkCreate pares t) ;;;
  tb <- view t ;;
  id <- fresh_asignaciones (List.length pares) ;;
  match insertar id pares tb with
  | inl e => throw e
  | inr (created, tb') => store t tb' ;;; ret created
  end.

(** *** The basic pattern: [crearVenta] *)

Definition crearVenta (ventaData : VentaData) : M Ventas.VentaRow :=
  transaction <- sequelize_transaction ;;
  try_catch
    (venta <- Venta_create ventaData (Some transaction) ;;
     DetalleVenta_bulkCreate (vd_detalles ventaData) (Some transaction) ;;;
     commit transaction ;;;
     ret venta)
    (fun error => rollback transaction ;;; throw error).

(** *** Pessimistic locking: [actualizarInventario(producto_id, cantidad)] *)

Definition con_cantidad (c : value) (i : Inventario) : Inventario :=
  mkInventario (inv_id i) (inv_producto_id i) c (inv_version i).

Definition actualizarInventario (producto_id : Z) (cantidad : number)
  : M Inventario :=
  transaction <- sequelize_transaction ;;
  try_catch
    (inventario <- Inventario_findOne producto_id true (Some transaction) ;;
     match inventario with
     | None => throw (Error "Inventario no encontrado")
     | Some inventario =>
         if ltb (Number (inv_cantidad inventario)) cantidad
         then throw (Error "Stock insuficiente")
         else
           let inventario :=
             con_cantidad
               (JNum (add (Number (inv_cantidad inventario)) (neg cantidad)))
               inventario in
           Inventario_save inventario (Some transaction) ;;;
           commit transaction ;;;
           ret inventario
     end)
    (fun error => rollback transaction ;;; throw error).

(** *** Optimistic locking: [actualizarInventario(id, cantidad, version)]

    The document gives this function the name of the previous one. *)

Definition conflicto : Excepcion :=
  Error "Conflicto: el registro fue modificado por otro usuario".

Definition actualizarInventario_version (id : Z) (cantidad version : number)
  : M unit :=
  updated <- Inventario_update id version cantidad (add version (of_Z 1)) ;;
  if (updated =? 0)%Z then throw conflicto else ret tt.

(** *** Lock order: [transferStock], in its good form *)

Definition transferStock (from_id to_id cantidad : number) : M unit :=
  let '(id1, id2) :=
    if ltb from_id to_id then (from_id, to_id) else (to_id, from_id) in
  inv1 <- Inventario_findByPk id1 true ;;
  inv2 <- Inventario_findByPk id2 true ;;
  ret tt.

(** *** [crearUsuario] *)

(** The [catch] block after the rollback: what it throws for [error]. *)
Definition categorizar (error : Excepcion) : Excepcion :=
  if String.eqb (name error) "SequelizeUniqueConstraintError" then
    match errors error with
    | Some (e :: _) =>
        Error ("El " ++ match path e with Some p => p | None => "null" end
                     ++ " ya existe")
    | Some [] =>
        TypeError "Cannot read properties of undefined (reading 'path')"
    | None => TypeError "Cannot read properties of undefined (reading '0')"
    end
  else if String.eqb (name error) "SequelizeForeignKeyConstraintError" then
    Error "Referencia inválida a registro relacionado"
  else if String.eqb (name error) "SequelizeValidationError" then
    match errors error with
    | Some es =>
        Error ("Validación fallida: "
               ++ Auth.join ", " (map item_message es))
    | None => TypeError "Cannot read properties of undefined (reading 'map')"
    end
  else error.

Definition crearUsuario (data : NuevoUsuario) : M Auth.UsuarioRow :=
  transaction <- sequelize_transaction ;;
  try_catch
    (usuario <- Usuario_create data (Some transaction) ;;
     commit transaction ;;;
     ret usuario)
    (fun error => rollback transaction ;;; throw (categorizar error)).

(** *** The role management service *)

Definition asignarRol (usuario_id rol_id : Z) : M UsuarioRol :=
  existe <- UsuarioRol_findOne usuario_id rol_id ;;
  match existe with
  | Some _ => throw (Error "El usuario ya tiene este rol asignado")
  | None => UsuarioRol_create usuario_id rol_id
  end.

Definition removerRol (usuario_id rol_id : Z) : M Z :=
  deleted <- UsuarioRol_destroy usuario_id (Some rol_id) None ;;
  if (deleted =? 0)%Z
  then throw (Error "El usuario no tiene este rol asignado")
  else ret deleted.

Definition sincronizarRoles (usuario_id : Z) (roles_ids : list Z)
  : M (list UsuarioRol) :=
  transaction <- sequelize_transaction ;;
  try_catch
    (usuario <- Usuario_findByPk usuario_id (Some transaction) ;;
     match usuario with
     | None => throw (Error "Usuario no encontrado")
     | Some _ =>
         roles <- Rol_findAll roles_ids (Some transaction) ;;
         if negb (Nat.eqb (List.length roles) (List.length roles_ids))
         then throw (Error "Uno o más roles no existen")
         else
           UsuarioRol_destroy usuario_id None (Some transaction) ;;;
           let nuevasAsignaciones :=
             map (fun rol_id => (usuario_id, rol_id)) roles_ids in
           created <- UsuarioRol_bulkCreate nuevasAsignaciones
                        (Some transaction) ;;
           commit transaction ;;;
           ret created
     end)
    (fun error => rollback transaction ;;; throw error).

(** [opts.include] is [None] when the caller gives no [include]. *)
Definition obtenerRolesDeUsuario (usuario_id : Z)
    (opts_include : option (list string)) : M (list Fila) :=
  let pedido (s : string) : bool :=
    match opts_include with
    | Some l => existsb (String.eqb s) l
    | None => false
    end in
  let include :=
    ((if pedido "usuario" then [IncUsuario ["password"]] else [])
     ++ (if pedido "rol" then [IncRol] else []))%list in
  UsuarioRol_findAll usuario_id include.

End Store.

(** *** What the services leave in the store *)

(** The role ids assigned to a user, in the order of the table. *)
Definition roles_de (usuario_id : Z) (tb : Tables) : list Z :=
  map a_rol_id
      (filter (fun a => (a_usuario_id a =? usuario_id)%Z)
              (usuarios_roles tb)).

(** The rows of the other users. *)
Definition de_otros (usuario_id : Z) (tb : Tables) : list UsuarioRol :=
  filter (fun a => negb (a_usuario_id a =? usuario_id)%Z)
         (usuarios_roles tb).

(** The pairs [(usuario_id, rol_id)] of the table. *)
Definition pares (tb : Tables) : list (Z * Z) :=
  map (fun a => (a_usuario_id a, a_rol_id a)) (usuarios_roles tb).

(** A computation that never touches the committed tables, resp. that
    leaves them alone when it throws. *)
Definition conserva {A} (m : M A) : Prop :=
  forall w r w', m w = (r, w') -> db w' = db w.

Definition conserva_si_falla {A} (m : M A) : Prop :=
  forall w e w', m w = (inl e, w') -> db w' = db w.

(** The names of the roles with these ids, in the order of the ids. *)
Definition nombres_de (ids : list Z) (tb : Tables) : list string :=
  flat_map (fun id =>
              match find (fun r => (r_id r =? id)%Z) (roles tb) with
              | Some r => [r_nombre r]
              | None => []
              end)
           ids.

(** The store answers: no call is fated to reject. *)
Definition responde (fault : nat -> option Excepcion) : Prop :=
  forall n, fault n = None.

(** A world between two calls: no transaction is open. *)
Definition en_reposo (w : World) : Prop := tx w = None.

(** What the identity queries of the middlewares see of the tables: each
    assignment with the name of its role. *)
Definition identidad (tb : Tables) : Auth.Store :=
  Auth.mkStore (usuarios tb)
    (map (fun a =>
            Auth.mkUsuarioRol (a_usuario_id a)
              (option_map r_nombre
                 (find (fun r => (r_id r =? a_rol_id a)%Z) (roles tb))))
         (usuarios_roles tb))
    true [].

(** The last [n] store calls of a world. *)
Definition ultimas (n : nat) (w : World) : list Op :=
  skipn (List.length (trace w) - n) (trace w).

(** *** Sample data *)

Definition deposito : Tables :=
  mkTables
    [mkInventario 1 10 (JStr "8") (of_Z 0);
     mkInventario 2 20 (JNum (of_Z 3)) (of_Z 4)]
    [Auth.mkUsuario 1 "ana" "ana@tienda.test" "hash" true 0 false;
     Auth.mkUsuario 2 "luis" "luis@tienda.test" "hash" true 0 false]
    [mkRol 1 "admin"; mkRol 2 "vendedor"; mkRol 3 "gerente"]
    [mkAsignacion 1 1 2; mkAsignacion 2 2 3]
    [Ventas.mkVenta (JNum (of_Z 7)) (JStr "0.00")]
    [].

Definition inicio : World :=
  mkWorld deposito None (mkSecuencias 3 3 8 1) 0 [].

(** An order without lines, and one with the two lines of [Ventas.lote],
    which the caller has marked with the order 7. *)
Definition venta_sin_detalles : VentaData := mkVentaData (JStr "25.00") None.

Definition venta_con_detalles : VentaData :=
  mkVentaData (JStr "25.00") (Some Ventas.lote).

(** The store that answers every call, and the one that rejects the call
    number [k] (from 0) with [e]. *)
Definition nadie (n : nat) : option Excepcion := None.

Definition falla_en (k : nat) (e : Excepcion) (n : nat)
  : option Excepcion :=
  if Nat.eqb n k then Some e else None.

Definition caida : Excepcion :=
  mkExcepcion "SequelizeConnectionError" "connection lost" None.

Definition email_repetido (detalle : list ErrorItem) : Excepcion :=
  mkExcepcion "SequelizeUniqueConstraintError" "Validation error"
              (Some detalle).

Definition eva : NuevoUsuario :=
  mkNuevoUsuario "eva" "ana@tienda.test" "hash" true 0 false.

End Servicios.

(** ** Route protection *)

Module Rutas.

Import Auth.
Local Open Scope string_scope.

Section Rutas.

Variable jwt_verify : string -> thrown + JWTPayload.

(** [router.use(autenticarToken)] followed by a route declared with
    [verificarRol(...rolesPermitidos)]: the guard runs when the first
    middleware calls [next()], on the request as that one left it;
    [Next] is then the call of the route handler. *)
Definition protegida (rolesPermitidos : list string) (req : Request)
  : IO Outcome :=
  fun w =>
    match autenticarToken jwt_verify req w with
    | (inr (Next req'), w') => verificarRol rolesPermitidos req' w'
    | r => r
    end.

End Rutas.

(** The test by which [login] looks the user up: on the email when the body
    has a non-empty one, on the username otherwise; [None] when the body has
    neither. *)
Definition criterio (body : LoginBody) : option (UsuarioRow -> bool) :=
  let by_email :=
    match lb_email body with
    | Some e => if String.eqb e EmptyString then None else Some e
    | None => None
    end in
  match by_email, lb_username body with
  | Some e, _ => Some (fun u => String.eqb (u_email u) e)
  | None, Some n => Some (fun u => String.eqb (u_username u) n)
  | None, None => None
  end.

(** Sample data: a stand-in for [argon2.verify] that accepts one password,
    a store in which the account of ana is disabled, and login bodies. *)
Definition clave_de_prueba (hash : string) (password : option string)
  : thrown + bool :=
  match password with
  | Some p => inr (String.eqb p "secreto")
  | None => inl (ErrorObj (COtra "TypeError") "pchstr must be a string")
  end.

Definition almacen_baja : Store :=
  mkStore [mkUsuario 1 "ana" "ana@tienda.test" "hash" false 0 false]
          [mkUsuarioRol 1 (Some "vendedor")] true [].

Definition cuerpo (email password : string) : LoginBody :=
  mkLoginBody (Some email) None (Some password).

(** The row of a user after a login at the instant [ahora]. *)
Definition con_acceso (ahora : Z) (u : UsuarioRow) : UsuarioRow :=
  mkUsuario (u_id u) (u_username u) (u_email u) (u_password u) (u_activo u)
    ahora (u_mustChangePassword u).

End Rutas.

(** ** The store calls of [crearDetalleVenta] *)

Module Trazas.

Import JsNum Js Ventas.

(** The store call [o] is made under the transaction [h]: it is given the
    handle, or it is the commit or the rollback of [h]. *)
Definition bajo (h : Transaction) (o : Op) : bool :=
  let con (t : option Transaction) : bool :=
    match t with
    | Some h' => Nat.eqb h' h
    | None => false
    end in
  match o with
  | OpTransaction => false
  | OpFindAllProductos _ t => con t
  | OpCrearMovimiento _ t => con t
  | OpBulkCreate _ t => con t
  | OpFindOneVenta _ _ t => con t
  | OpSaveVenta _ t => con t
  | OpCommit t => Nat.eqb t h
  | OpRollback t => Nat.eqb t h
  end.

(** A computation whose store calls all satisfy [P]. *)
Definition emite {A} (P : Op -> Prop) (m : M A) : Prop :=
  forall w r w', m w = (r, w') ->
    exists ops, trace w' = trace w ++ ops /\ Forall P ops.

(** The store calls of a posting that succeeds under [t]: the batch read
    for the ids, one movement per resolved line, the bulk insert, the
    locked read of the order, the write of its total when there is one, and
    the commit. *)
Definition llamadas (t : Transaction) (ids : list value)
    (items : list Item) (ventaId : value) (guardada : option VentaRow)
  : list Op :=
  [OpTransaction; OpFindAllProductos ids (Some t)]
  ++ map (fun i => OpCrearMovimiento (salida i) (Some t)) items
  ++ [OpBulkCreate items (Some t); OpFindOneVenta ventaId true (Some t)]
  ++ match guardada with
     | Some v => [OpSaveVenta v (Some t)]
     | None => []
     end
  ++ [OpCommit t].

End Trazas.

Module JsNumFacts.
Import JsNum.

(** *** The model against IEEE-754 on samples *)

Example add_as_binary64 :
  to_spec (add (of_decimal 1 (-1)) (of_decimal 2 (-1))) =
  SFadd 53 1024 (to_spec (of_decimal 1 (-1))) (to_spec (of_decimal 2 (-1))).
Proof. vm_compute. reflexivity. Qed.

Example mul_as_binary64 :
  to_spec (mul (of_Z 3) (of_decimal 1 (-1))) =
  SFmul 53 1024 (to_spec (of_Z 3)) (to_spec (of_decimal 1 (-1))).
Proof. vm_compute. reflexivity. Qed.

Example one_tenth_as_binary64 :
  to_spec (of_decimal 1 (-1)) =
  SFdiv 53 1024 (to_spec (of_Z 1)) (to_spec (of_Z 10)).
Proof. vm_compute. reflexivity. Qed.

(** [0.1 + 0.2] is [0.30000000000000004], not [0.3]. *)
Example one_tenth_plus_two_tenths :
  add (of_decimal 1 (-1)) (of_decimal 2 (-1)) =
    of_decimal 30000000000000004 (-17) /\
  eqb (add (of_decimal 1 (-1)) (of_decimal 2 (-1))) (of_decimal 3 (-1)) =
    false.
Proof. split; vm_compute; reflexivity. Qed.

(** [(1.005).toFixed(2)] is 1.00, [(1.015).toFixed(2)] is 1.01 and
    [(8.345).toFixed(2)] is 8.35: the doubles nearest to these decimals lie
    below, below and above them. *)
Example toFixed2_of_near_ties :
  toFixed2 (of_decimal 1005 (-3)) = of_Z 1 /\
  toFixed2 (of_decimal 1015 (-3)) = of_decimal 101 (-2) /\
  toFixed2 (of_decimal 8345 (-3)) = of_decimal 835 (-2).
Proof. repeat split; vm_compute; reflexivity. Qed.

(** *** Rounding errors below [2^30]

    Every bound is in units of [2^-1074].  A double below [2^30] has its last
    bit at [2^-23] or lower, so rounding to a neighbouring double moves a
    value by at most [SPACING = 2^1051] units. *)

Lemma U_eq : U = 2 ^ 1074.
Proof. reflexivity. Qed.

Lemma SPACING_eq : SPACING = 2 ^ 1051.
Proof. reflexivity. Qed.

Lemma LIMIT_eq : LIMIT = 2 ^ 1104.
Proof. reflexivity. Qed.

Lemma U_pos : 0 < U.
Proof. reflexivity. Qed.

Lemma SPACING_pos : 0 < SPACING.
Proof. reflexivity. Qed.

Lemma LIMIT_OVF : LIMIT + SPACING < OVF.
Proof. reflexivity. Qed.

(** The neighbours of [q] among the doubles are within [SPACING] of it. *)
Lemma round_sig_near q f :
  0 <= q < LIMIT ->
  exists r, round_sig q f = Fin r /\ q - SPACING <= r <= q + SPACING.
Proof.
  intros Hq. unfold round_sig.
  destruct (Z.log2 q - 52 <=? 0) eqn:K.
  - eexists. split; [reflexivity |].
    pose proof SPACING_pos.
    destruct f; try destruct (Z.even q); lia.
  - apply Z.leb_gt in K. set (k := Z.log2 q - 52) in *.
    assert (Hq0 : 0 < q).
    { destruct (Z.eq_dec q 0) as [E |]; [| lia].
      unfold k in K. rewrite E in K. simpl in K. lia. }
    assert (Hk : k <= 1051).
    { assert (Z.log2 q < 1104); [| lia].
      apply Z.log2_lt_pow2; [lia |]. rewrite <- LIMIT_eq. lia. }
    assert (P : 0 < 2 ^ k <= SPACING).
    { split; [apply Z.pow_pos_nonneg; lia |].
      rewrite SPACING_eq. apply Z.pow_le_mono_r; lia. }
    rewrite Z.shiftr_div_pow2 by lia.
    assert (D : q = 2 ^ k * (q / 2 ^ k) + q mod 2 ^ k)
      by (apply Z.div_mod; lia).
    assert (M : 0 <= q mod 2 ^ k < 2 ^ k) by (apply Z.mod_pos_bound; lia).
    set (hi := q / 2 ^ k) in *.
    match goal with
    | |- context [Z.shiftl ?m k] =>
        assert (Hm : m = hi \/ m = hi + 1);
        [ destruct (_ ?= _); try destruct f; try destruct (Z.odd hi); auto
        | set (m' := m) in *; clearbody m' ]
    end.
    rewrite Z.shiftl_mul_pow2 by lia.
    pose proof LIMIT_OVF.
    assert (R : q - SPACING <= m' * 2 ^ k <= q + SPACING) by nia.
    destruct (m' * 2 ^ k <? OVF) eqn:O.
    + eexists. split; [reflexivity | exact R].
    + apply Z.ltb_ge in O. lia.
Qed.

(** The numeric facts the bounds rest on. *)
Lemma billion_below_LIMIT : 1000000000 * U + U < LIMIT.
Proof. reflexivity. Qed.

Lemma LIMIT_below_E21 : LIMIT < E21.
Proof. reflexivity. Qed.

Lemma thousand_steps : 2 * (1000 * (200 * SPACING + 100)) < U.
Proof. reflexivity. Qed.

Lemma round_ratio_near a b :
  0 <= a -> 0 < b -> a < b * LIMIT ->
  exists r,
    round_ratio a b = Fin r /\
    a - b * SPACING - b <= b * r <= a + b * SPACING.
Proof.
  intros Ha Hb Hl. unfold round_ratio.
  pose proof (Z_div_mod a b ltac:(lia)) as D.
  destruct (Z.div_eucl a b) as [q m]. destruct D as (D & M).
  assert (Hq : 0 <= q < LIMIT) by nia.
  destruct (round_sig_near q (frac_of m b) Hq) as (r & E & R).
  exists r. split; [exact E |]. nia.
Qed.

Lemma signed_Fin z r : signed z (Fin r) = Fin (if z <? 0 then - r else r).
Proof. unfold signed. destruct (z <? 0); reflexivity. Qed.

(** The double nearest to [n] cents, for up to a billion currency units. *)
Lemma of_cents_near n :
  Z.abs n <= 100000000000 ->
  exists r,
    of_cents n = Fin r /\
    Z.abs (100 * r - n * U) <= 100 * SPACING + 100.
Proof.
  intros Hn. unfold of_cents.
  pose proof U_pos. pose proof billion_below_LIMIT.
  destruct (round_ratio_near (Z.abs n * U) 100) as (r & E & R);
    [nia | lia | nia |].
  rewrite E, signed_Fin. eexists. split; [reflexivity |].
  destruct (n <? 0) eqn:S; [apply Z.ltb_lt in S | apply Z.ltb_ge in S]; lia.
Qed.

(** Adding two doubles whose sum stays below [2^30]. *)
Lemma add_near a b :
  Z.abs (a + b) < LIMIT ->
  exists c, add (Fin a) (Fin b) = Fin c /\ Z.abs (c - (a + b)) <= SPACING.
Proof.
  intros H. unfold add.
  destruct (round_sig_near (Z.abs (a + b)) Exact) as (r & E & R); [lia |].
  rewrite E, signed_Fin. eexists. split; [reflexivity |].
  destruct (a + b <? 0) eqn:S; [apply Z.ltb_lt in S | apply Z.ltb_ge in S]; lia.
Qed.

(** A double within half a cent of [n / 100] is printed by [toFixed(2)] as
    [n / 100]. *)
Lemma cents_exact u n :
  2 * Z.abs (100 * u - n * U) < U -> Z.sgn u * cents u = n.
Proof.
  intros H. pose proof U_pos as HU. unfold cents.
  rewrite Z.shiftr_div_pow2 by lia.
  replace (2 ^ 1075) with (2 * U) by reflexivity.
  destruct (Z.lt_trichotomy u 0) as [N | [Z0 | P]].
  - rewrite Z.sgn_neg by lia.
    assert (E : (200 * Z.abs u + U) / (2 * U) = - n).
    { symmetry. apply (Z.div_unique _ _ _ (2 * (- (100 * u) + n * U) + U)); lia. }
    rewrite E. lia.
  - subst u. simpl Z.abs. simpl Z.sgn.
    assert (n = 0) by nia. lia.
  - rewrite Z.sgn_pos by lia.
    assert (E : (200 * Z.abs u + U) / (2 * U) = n).
    { symmetry. apply (Z.div_unique _ _ _ (2 * (100 * u - n * U) + U)); lia. }
    rewrite E. lia.
Qed.

(** The whole number of cents that [toFixed(2)] prints is the one nearest
    to the double, the larger in magnitude of two that are equally near. *)
Lemma cents_redondea u :
  2 * Z.abs (100 * u - Z.sgn u * cents u * U) <= U /\
  (2 * Z.abs (100 * u - Z.sgn u * cents u * U) = U ->
   Z.abs (100 * u) < Z.abs (Z.sgn u * cents u * U)).
Proof.
  pose proof U_pos as HU. unfold cents.
  rewrite Z.shiftr_div_pow2 by lia.
  replace (2 ^ 1075) with (2 * U) by reflexivity.
  set (a := Z.abs u).
  pose proof (Z.mul_div_le (200 * a + U) (2 * U) ltac:(lia)) as Lo.
  pose proof (Z.mul_succ_div_gt (200 * a + U) (2 * U) ltac:(lia)) as Hi.
  assert (Hc : 0 <= (200 * a + U) / (2 * U)) by (apply Z.div_pos; lia).
  set (c := (200 * a + U) / (2 * U)) in *.
  destruct (Z.lt_trichotomy u 0) as [N | [Z0 | P]].
  - rewrite Z.sgn_neg by lia.
    assert (Ha : a = - u) by lia.
    replace (100 * u - -1 * c * U) with (- (100 * a - c * U)) by lia.
    replace (-1 * c * U) with (- (c * U)) by lia.
    rewrite !Z.abs_opp. nia.
  - subst u. assert (Ha : a = 0) by reflexivity.
    assert (c = 0) by nia. subst c. cbn [Z.sgn]. nia.
  - rewrite Z.sgn_pos by lia.
    assert (Ha : a = u) by lia.
    replace (100 * u - 1 * c * U) with (100 * a - c * U) by lia.
    replace (1 * c * U) with (c * U) by lia.
    nia.
Qed.

(** [parseFloat(x.toFixed(2))] is [x] rounded to two decimals. *)
Lemma toFixed2_redondeado x : redondeado_2 x (toFixed2 x).
Proof.
  destruct x as [| s | u]; cbn [redondeado_2 toFixed2]; try reflexivity.
  destruct (Z.abs u <? E21) eqn:B.
  - apply Z.ltb_lt in B.
    destruct (E21 <=? Z.abs u) eqn:C; [apply Z.leb_le in C; lia |].
    exists (Z.sgn u * cents u).
    destruct (cents_redondea u) as (Near & Tie).
    split; [exact Near |]. split; [exact Tie | reflexivity].
  - apply Z.ltb_ge in B.
    destruct (E21 <=? Z.abs u) eqn:C; [reflexivity |].
    apply Z.leb_gt in C. lia.
Qed.

(** Two whole numbers of cents within half a cent of one double are equal
    or neighbours. *)
Lemma cents_vecinos u n m :
  2 * Z.abs (100 * u - n * U) <= U ->
  2 * Z.abs (100 * u - m * U) <= U ->
  n < m ->
  m = n + 1 /\ 2 * (100 * u - n * U) = U /\ 2 * (100 * u - m * U) = - U.
Proof.
  intros Hn Hm L. pose proof U_pos as HU.
  assert (Bn : - U <= 2 * (100 * u - n * U) <= U) by lia.
  assert (Bm : - U <= 2 * (100 * u - m * U) <= U) by lia.
  assert (K : (m - n - 1) * U <= 0) by lia.
  assert (E : m = n + 1).
  { destruct (Z.eq_dec m (n + 1)) as [E | D]; [exact E |].
    exfalso. assert (1 <= m - n - 1) by lia. nia. }
  subst m. split; [reflexivity |]. lia.
Qed.

(** There is one rounding to two decimals. *)
Lemma redondeado_2_unico x y z :
  redondeado_2 x y -> redondeado_2 x z -> y = z.
Proof.
  destruct x as [| s | u]; cbn [redondeado_2]; try congruence.
  destruct (Z.abs u <? E21); [| congruence].
  pose proof U_pos as HU.
  intros (n & Hn & Tn & ->) (m & Hm & Tm & ->).
  assert (n = m); [| subst; reflexivity].
  destruct (Z.lt_trichotomy n m) as [L | [E | G]]; [| exact E |].
  - exfalso. destruct (cents_vecinos u n m Hn Hm L) as (-> & En & Em).
    assert (An : 2 * Z.abs (100 * u - n * U) = U) by lia.
    assert (Am : 2 * Z.abs (100 * u - (n + 1) * U) = U) by lia.
    specialize (Tn An). specialize (Tm Am).
    destruct (Z_le_gt_dec 0 n).
    + assert (0 <= n * U) by nia. lia.
    + assert ((n + 1) * U <= 0) by nia. lia.
  - exfalso. destruct (cents_vecinos u m n Hm Hn ltac:(lia)) as (-> & Em & En).
    assert (Am : 2 * Z.abs (100 * u - m * U) = U) by lia.
    assert (An : 2 * Z.abs (100 * u - (m + 1) * U) = U) by lia.
    specialize (Tn An). specialize (Tm Am).
    destruct (Z_le_gt_dec 0 m).
    + assert (0 <= m * U) by nia. lia.
    + assert ((m + 1) * U <= 0) by nia. lia.
Qed.

Lemma toFixed2_cents u n :
  2 * Z.abs (100 * u - n * U) < U ->
  Z.abs u < E21 ->
  toFixed2 (Fin u) = of_cents n.
Proof.
  intros H B. unfold toFixed2.
  destruct (E21 <=? Z.abs u) eqn:C; [apply Z.leb_le in C; lia |].
  rewrite (cents_exact u n H). reflexivity.
Qed.

(** A rounded value is never less than half the exact one. *)
Lemma round_sig_half q f r :
  0 <= q -> round_sig q f = Fin r -> q <= 2 * r.
Proof.
  intros Hq. unfold round_sig.
  destruct (Z.log2 q - 52 <=? 0) eqn:K.
  - intros E. injection E as <-.
    destruct f; try destruct (Z.even q); lia.
  - apply Z.leb_gt in K. set (k := Z.log2 q - 52) in *.
    assert (Hq0 : 0 < q).
    { destruct (Z.eq_dec q 0) as [E |]; [| lia].
      unfold k in K. rewrite E in K. simpl in K. lia. }
    assert (P : 0 < 2 ^ k) by (apply Z.pow_pos_nonneg; lia).
    assert (L : 2 ^ k <= q).
    { apply Z.le_trans with (2 ^ Z.log2 q).
      - apply Z.pow_le_mono_r; lia.
      - apply Z.log2_spec. exact Hq0. }
    rewrite Z.shiftr_div_pow2 by lia.
    assert (D : q = 2 ^ k * (q / 2 ^ k) + q mod 2 ^ k)
      by (apply Z.div_mod; lia).
    assert (M : 0 <= q mod 2 ^ k < 2 ^ k) by (apply Z.mod_pos_bound; lia).
    set (hi := q / 2 ^ k) in *.
    assert (Hhi : 1 <= hi) by nia.
    match goal with
    | |- context [Z.shiftl ?m k] =>
        assert (Hm : m = hi \/ m = hi + 1);
        [ destruct (_ ?= _); try destruct f; try destruct (Z.odd hi); auto
        | set (m' := m) in *; clearbody m' ]
    end.
    rewrite Z.shiftl_mul_pow2 by lia.
    destruct (m' * 2 ^ k <? OVF); [| discriminate].
    intros E. injection E as <-. nia.
Qed.

Lemma million_below : 200 * (1000000 * U) + 200 < 100000000000 * U.
Proof. reflexivity. Qed.

Lemma million_cents : 100 * (1000000 * U) + 100 * SPACING + 100 < 100000001 * U.
Proof. reflexivity. Qed.

Lemma million_below_E21 : 1000000 * U < E21.
Proof. reflexivity. Qed.

(** What [toFixed(2)] returns is a whole number of cents; when it is at most
    a million in magnitude, it is the double nearest to [n / 100] for some
    [n] of at most [10^8]. *)
Lemma toFixed2_is_cents x s :
  toFixed2 x = Fin s ->
  Z.abs s <= 1000000 * U ->
  exists n, Z.abs n <= 100000000 /\ Fin s = of_cents n.
Proof.
  destruct x as [| sg | u]; try discriminate. unfold toFixed2.
  pose proof U_pos as HU.
  destruct (E21 <=? Z.abs u) eqn:C.
  - apply Z.leb_le in C. intros E B. injection E as <-.
    pose proof million_below_E21. lia.
  - set (n := Z.sgn u * cents u). intros E B. exists n.
    split; [| symmetry; exact E].
    assert (Hn : Z.abs n <= 100000000000).
    { destruct (Z_le_gt_dec (Z.abs n) 100000000000) as [L | G]; [exact L |].
      exfalso. revert E. unfold of_cents, round_ratio.
      pose proof (Z_div_mod (Z.abs n * U) 100 ltac:(lia)) as D.
      destruct (Z.div_eucl (Z.abs n * U) 100) as [q m]. destruct D as (D & M).
      destruct (round_sig q (frac_of m 100)) as [| sg | r] eqn:R;
        unfold signed; destruct (n <? 0); try discriminate.
      + simpl. intros E. injection E as <-.
        apply round_sig_half in R; [| nia].
        pose proof million_below. nia.
      + intros E. injection E as <-.
        apply round_sig_half in R; [| nia].
        pose proof million_below. nia. }
    destruct (of_cents_near n Hn) as (r & E' & R).
    rewrite E in E'. injection E' as <-.
    pose proof million_cents. nia.
Qed.

(** *** Sums of sub-totals *)

Import Ventas.

Lemma LIMIT_SPACING_below_E21 : LIMIT + SPACING < E21.
Proof. reflexivity. Qed.

(** One step of the loop's accumulation, on whole cents. *)
Lemma acumular_paso N n :
  Z.abs N <= 100000000000 ->
  Z.abs n <= 100000000000 ->
  Z.abs (N + n) <= 100000000000 ->
  toFixed2 (add (of_cents N) (of_cents n)) = of_cents (N + n).
Proof.
  intros HN Hn HNn.
  destruct (of_cents_near N HN) as (a & -> & A).
  destruct (of_cents_near n Hn) as (b & -> & B).
  pose proof U_pos. pose proof billion_below_LIMIT. pose proof thousand_steps.
  pose proof SPACING_pos. pose proof LIMIT_SPACING_below_E21.
  assert (P : Z.abs ((N + n) * U) <= 100000000000 * U) by nia.
  destruct (add_near a b) as (c & -> & C); [lia |].
  apply toFixed2_cents; lia.
Qed.

Lemma acumular_of_cents ns : forall N j,
  0 <= j ->
  Z.abs N <= 100000000 * j ->
  j + Z.of_nat (List.length ns) <= 1000 ->
  Forall (fun n => Z.abs n <= 100000000) ns ->
  acumular (map of_cents ns) (of_cents N) = of_cents (N + suma_Z ns).
Proof.
  induction ns as [| n ns IH]; intros N j Hj HN Hlen Hns.
  - simpl. rewrite Z.add_0_r. reflexivity.
  - inversion Hns as [| ? ? Hn Hns']; subst.
    cbn [map List.length] in *. unfold acumular. cbn [fold_left].
    rewrite acumular_paso by lia.
    fold (acumular (map of_cents ns) (of_cents (N + n))).
    rewrite (IH (N + n) (j + 1)) by (try assumption; lia).
    cbn [suma_Z fold_right]. f_equal. fold (suma_Z ns). lia.
Qed.

Lemma suma_of_cents ns : forall x N j,
  0 <= j ->
  Z.abs N <= 100000000 * j ->
  j + Z.of_nat (List.length ns) <= 1000 ->
  Z.abs (100 * x - N * U) <= j * (200 * SPACING + 100) ->
  Forall (fun n => Z.abs n <= 100000000) ns ->
  exists x',
    fold_left add (map of_cents ns) (Fin x) = Fin x' /\
    Z.abs (100 * x' - (N + suma_Z ns) * U) <=
      (j + Z.of_nat (List.length ns)) * (200 * SPACING + 100).
Proof.
  induction ns as [| n ns IH]; intros x N j Hj HN Hlen Hx Hns.
  - exists x. simpl. rewrite Z.add_0_r, Z.add_0_r. split; [reflexivity | exact Hx].
  - inversion Hns as [| ? ? Hn Hns']; subst.
    cbn [map List.length fold_left] in *.
    destruct (of_cents_near n ltac:(lia)) as (b & -> & B).
    pose proof U_pos. pose proof billion_below_LIMIT.
    pose proof thousand_steps. pose proof SPACING_pos.
    destruct (add_near x b) as (c & -> & C); [nia |].
    destruct (IH c (N + n) (j + 1)) as (x' & E & X);
      try assumption; try lia.
    exists x'. split; [exact E |].
    cbn [suma_Z fold_right]. fold (suma_Z ns).
    replace (N + (n + suma_Z ns)) with (N + n + suma_Z ns) by lia.
    replace (j + Z.of_nat (S (List.length ns)))
      with (j + 1 + Z.of_nat (List.length ns)) by lia.
    exact X.
Qed.

Lemma of_Z_million : of_Z 1000000 = Fin (1000000 * U).
Proof. reflexivity. Qed.

Lemma of_cents_0 : of_cents 0 = zero.
Proof. reflexivity. Qed.

Lemma moderado_Fin s :
  moderado s -> exists v, s = Fin v /\ Z.abs v <= 1000000 * U.
Proof.
  unfold moderado. rewrite of_Z_million.
  destruct s as [| sg | v]; cbv [leb abs ltb eqb orb]; try discriminate.
  intros H. exists v. split; [reflexivity |].
  apply orb_true_iff in H.
  destruct H as [H | H]; [apply Z.ltb_lt in H | apply Z.eqb_eq in H]; lia.
Qed.

(** Sub-totals that [toFixed(2)] produced and that are at most a million in
    magnitude are the doubles nearest to whole cents. *)
Lemma moderados_cents subs :
  Forall (fun s => (exists x, s = toFixed2 x) /\ moderado s) subs ->
  exists ns,
    subs = map of_cents ns /\ Forall (fun n => Z.abs n <= 100000000) ns.
Proof.
  induction 1 as [| s subs ((x & Hx) & Hm) _ (ns & -> & Hns)].
  - exists []. split; [reflexivity | constructor].
  - destruct (moderado_Fin s Hm) as (v & -> & Hv).
    destruct (toFixed2_is_cents x v (eq_sym Hx) Hv) as (n & Hn & E).
    exists (n :: ns). split; [simpl; rewrite E; reflexivity |].
    constructor; assumption.
Qed.

(** For at most a thousand sub-totals, each produced by [toFixed(2)] and at
    most a million in magnitude, the rounded running total of the loop is the
    plain sum rounded once, and both are the double nearest to the exact sum
    of the cents. *)
Theorem acumular_suma subs :
  (List.length subs <= 1000)%nat ->
  Forall (fun s => (exists x, s = toFixed2 x) /\ moderado s) subs ->
  acumular subs zero = toFixed2 (suma subs) /\
  exists ns, subs = map of_cents ns /\
             acumular subs zero = of_cents (suma_Z ns).
Proof.
  intros Hlen H. destruct (moderados_cents subs H) as (ns & -> & Hns).
  rewrite length_map in Hlen.
  assert (A : acumular (map of_cents ns) zero = of_cents (suma_Z ns)).
  { rewrite <- of_cents_0.
    rewrite (acumular_of_cents ns 0 0) by (try assumption; lia).
    reflexivity. }
  split; [| exists ns; split; [reflexivity | exact A]].
  rewrite A. unfold suma, zero.
  destruct (suma_of_cents ns 0 0 0) as (x' & -> & X);
    try assumption; try lia.
  pose proof thousand_steps. pose proof U_pos. pose proof SPACING_pos.
  pose proof billion_below_LIMIT. pose proof LIMIT_below_E21.
  assert (S : Z.abs (suma_Z ns) <= 100000000 * Z.of_nat (List.length ns)).
  { clear - Hns. induction Hns as [| n ns Hn _ IH]; cbn [suma_Z fold_right List.length].
    - simpl. lia.
    - fold (suma_Z ns). lia. }
  symmetry. apply toFixed2_cents; nia.
Qed.

End JsNumFacts.

Module JsFacts.
Import JsNum Js.

(** Numbers compared equal by [===] are the same number. *)
Lemma eqb_eq x y : JsNum.eqb x y = true -> x = y.
Proof.
  destruct x as [| s | a], y as [| t | b]; simpl; try discriminate.
  - intros H. apply Bool.eqb_prop in H. congruence.
  - intros H. apply Z.eqb_eq in H. congruence.
Qed.

Lemma ltb_irrefl x : JsNum.ltb x x = false.
Proof.
  destruct x as [| s | a]; simpl.
  - reflexivity.
  - destruct s; reflexivity.
  - apply Z.ltb_irrefl.
Qed.

(** [SameValueZero] is equality of values. *)
Lemma same_value_zero_eq a b : same_value_zero a b = true <-> a = b.
Proof.
  split.
  - destruct a as [| | x | x | x], b as [| | y | y | y]; simpl;
      try discriminate; try reflexivity;
      try (destruct x; discriminate).
    + intros H. apply Bool.eqb_prop in H. congruence.
    + destruct x as [| s | u], y as [| t | v]; simpl; try discriminate.
      * reflexivity.
      * intros H. apply Bool.eqb_prop in H. congruence.
      * intros H. apply Z.eqb_eq in H. congruence.
    + intros H. apply String.eqb_eq in H. congruence.
  - intros <-. destruct a as [| | x | x | x]; simpl; try reflexivity.
    + destruct x; reflexivity.
    + destruct x as [| s | u]; simpl.
      * reflexivity.
      * destruct s; reflexivity.
      * apply Z.eqb_refl.
    + apply String.eqb_refl.
Qed.

Lemma same_value_zero_refl a : same_value_zero a a = true.
Proof. apply same_value_zero_eq. reflexivity. Qed.

(** A key found in a [Map] belongs to one of its pairs. *)
Lemma map_get_some {A} (pairs : list (value * A)) k a :
  map_get pairs k = Some a -> In (k, a) pairs.
Proof.
  induction pairs as [| [k' a'] r IH]; simpl.
  - discriminate.
  - destruct (map_get r k) as [a'' |].
    + intros E. injection E as ->. right. apply IH. reflexivity.
    + destruct (same_value_zero k' k) eqn:S; [| discriminate].
      intros E. injection E as ->.
      apply same_value_zero_eq in S. subst. left. reflexivity.
Qed.

Lemma map_get_none {A} (pairs : list (value * A)) k :
  map_get pairs k = None <-> (forall a, ~ In (k, a) pairs).
Proof.
  induction pairs as [| [k' a'] r IH]; simpl.
  - split; [intros _ a [] | reflexivity].
  - destruct (map_get r k) as [a'' |] eqn:G.
    + split; [discriminate |]. intros H. exfalso.
      apply (H a''). right. apply map_get_some. exact G.
    + destruct (same_value_zero k' k) eqn:S.
      * split; [discriminate |]. intros H. exfalso.
        apply same_value_zero_eq in S. subst. apply (H a'). left. reflexivity.
      * split; [| reflexivity]. intros _ a [E | I].
        -- injection E as -> ->. rewrite same_value_zero_refl in S. discriminate.
        -- apply (proj1 IH eq_refl a). exact I.
Qed.

(** Every element of an array is in the [Set] built from it. *)
Lemma set_of_complete xs : forall seen x,
  In x xs -> In x seen \/ In x (set_of seen xs).
Proof.
  induction xs as [| y r IH]; intros seen x; simpl.
  - intros [].
  - intros [-> | I].
    + destruct (existsb (same_value_zero x) seen) eqn:E.
      * left. apply existsb_exists in E. destruct E as (s & Is & S).
        apply same_value_zero_eq in S. subst. exact Is.
      * right. left. reflexivity.
    + destruct (existsb (same_value_zero y) seen) eqn:E.
      * apply IH. exact I.
      * destruct (IH (y :: seen) x I) as [[-> | Is] | Ir].
        -- right. left. reflexivity.
        -- left. exact Is.
        -- right. right. exact Ir.
Qed.

End JsFacts.

Module VentasFacts.
Import JsNum Js Ventas JsFacts JsNumFacts.
Local Open Scope js_scope.

(** *** Inversion of the monadic combinators *)

Lemma bind_inr {A B} (m : M A) (k : A -> M B) w b w' :
  bind m k w = (inr b, w') ->
  exists a w1, m w = (inr a, w1) /\ k a w1 = (inr b, w').
Proof.
  unfold bind. destruct (m w) as [[e | a] w1]; intros H.
  - discriminate.
  - exists a, w1. split; [reflexivity | exact H].
Qed.

Lemma bind_inl {A B} (m : M A) (k : A -> M B) w e w' :
  bind m k w = (inl e, w') ->
  m w = (inl e, w') \/
  exists a w1, m w = (inr a, w1) /\ k a w1 = (inl e, w').
Proof.
  unfold bind. destruct (m w) as [[e1 | a] w1]; intros H.
  - left. injection H as <- <-. reflexivity.
  - right. exists a, w1. split; [reflexivity | exact H].
Qed.

(** *** The committed tables during a transaction *)

Lemma keeps_weaken {A} (m : M A) : keeps_db m -> keeps_db_on_throw m.
Proof. intros H w e w' E. exact (H _ _ _ E). Qed.

Lemma keeps_ret {A} (a : A) : keeps_db (ret a).
Proof. intros w r w' E. injection E as _ <-. reflexivity. Qed.

Lemma keeps_throw {A} e : keeps_db (@throw A e).
Proof. intros w r w' E. injection E as _ <-. reflexivity. Qed.

Lemma keeps_bind {A B} (m : M A) (k : A -> M B) :
  keeps_db m -> (forall a, keeps_db (k a)) -> keeps_db (bind m k).
Proof.
  intros Hm Hk w r w'. unfold bind.
  destruct (m w) as [[e | a] w1] eqn:E; intros H.
  - injection H as _ <-. exact (Hm _ _ _ E).
  - rewrite (Hk a _ _ _ H). exact (Hm _ _ _ E).
Qed.

Lemma keeps_bind_on_throw {A B} (m : M A) (k : A -> M B) :
  keeps_db m -> (forall a, keeps_db_on_throw (k a)) ->
  keeps_db_on_throw (bind m k).
Proof.
  intros Hm Hk w e w'. unfold bind.
  destruct (m w) as [[e1 | a] w1] eqn:E; intros H.
  - injection H as _ <-. exact (Hm _ _ _ E).
  - rewrite (Hk a _ _ _ H). exact (Hm _ _ _ E).
Qed.

Section WithFaults.

Variable fault : nat -> option JsError.

Lemma keeps_issue o : keeps_db (issue fault o).
Proof.
  intros w r w'. unfold issue.
  destruct (fault (calls w)); intros E; injection E as _ <-; reflexivity.
Qed.

Lemma keeps_view t : keeps_db (view t).
Proof.
  intros w r w'. unfold view. destruct t as [h |].
  - destruct (tx w) as [[h' tb] |]; [destruct (Nat.eqb h h') |];
      intros E; injection E as _ <-; reflexivity.
  - intros E; injection E as _ <-; reflexivity.
Qed.

Lemma keeps_store t tb : keeps_db (store (Some t) tb).
Proof. intros w r w' E. injection E as _ <-. reflexivity. Qed.

Lemma keeps_fresh_mov : keeps_db fresh_mov.
Proof. intros w r w' E. injection E as _ <-. reflexivity. Qed.

Lemma keeps_fresh_dets n : keeps_db (fresh_dets n).
Proof. intros w r w' E. injection E as _ <-. reflexivity. Qed.

Create HintDb keeps.

#[local] Hint Resolve keeps_ret keeps_throw keeps_issue keeps_view keeps_store
  keeps_fresh_mov keeps_fresh_dets : keeps.

Ltac keeps := repeat (apply keeps_bind; [| intro]); auto with keeps.

Lemma keeps_findAll ids t : keeps_db (Producto_findAll fault ids (Some t)).
Proof. unfold Producto_findAll. keeps. Qed.

Lemma keeps_crearMovimiento d t : keeps_db (crearMovimiento fault d (Some t)).
Proof. unfold crearMovimiento. keeps. Qed.

Lemma keeps_bulkCreate items t :
  keeps_db (DetalleVenta_bulkCreate fault items (Some t)).
Proof. unfold DetalleVenta_bulkCreate. keeps. Qed.

Lemma keeps_findOne id l t : keeps_db (Venta_findOne fault id l (Some t)).
Proof. unfold Venta_findOne. keeps. Qed.

Lemma keeps_save v t : keeps_db (Venta_save fault v (Some t)).
Proof. unfold Venta_save. keeps. Qed.

Lemma keeps_procesar pm t items :
  forall tot, keeps_db (procesar fault pm t items tot).
Proof.
  induction items as [| item rest IH]; intros tot; simpl.
  - apply keeps_ret.
  - destruct (negb (truthy (producto_id item))); [apply keeps_throw |].
    destruct (negb (truthy (cantidad item)) || leb (Number (cantidad item)) zero);
      [apply keeps_throw |].
    destruct (map_get pm (producto_id item)) as [producto |];
      [| apply keeps_throw].
    apply keeps_bind; [apply keeps_crearMovimiento | intro].
    apply keeps_bind; [apply IH | intro; apply keeps_ret].
Qed.

Lemma keeps_preparar t items : keeps_db (preparar fault t items).
Proof.
  unfold preparar. apply keeps_bind; [apply keeps_findAll | intro].
  apply keeps_procesar.
Qed.

Lemma keeps_actualizar_total v ts t : keeps_db (actualizar_total fault v ts t).
Proof.
  unfold actualizar_total. destruct (debe_actualizar v ts).
  - apply keeps_save.
  - apply keeps_ret.
Qed.

Lemma commit_on_throw t : keeps_db_on_throw (commit fault t).
Proof.
  unfold commit. apply keeps_bind_on_throw; [apply keeps_issue | intro].
  apply keeps_bind_on_throw; [apply keeps_view | intro].
  intros w e w' E. discriminate.
Qed.

Lemma intento_on_throw t items : keeps_db_on_throw (intento fault t items).
Proof.
  unfold intento.
  apply keeps_bind_on_throw; [apply keeps_preparar | intros r].
  apply keeps_bind_on_throw; [apply keeps_bulkCreate | intros creado].
  destruct (negb (truthy (primera_venta_id (fst r))));
    [apply keeps_weaken, keeps_throw |].
  apply keeps_bind_on_throw; [apply keeps_findOne | intros [venta |]];
    [| apply keeps_weaken, keeps_throw].
  apply keeps_bind_on_throw; [apply keeps_actualizar_total | intro].
  unfold bind. intros w e w' E.
  destruct (commit fault t w) as [[e1 | u] w1] eqn:C.
  - injection E as _ <-. exact (commit_on_throw _ _ _ _ C).
  - discriminate.
Qed.


(** *** Successful runs, step by step *)

Lemma issue_inr o w u w' :
  issue fault o w = (inr u, w') -> w' = log o w /\ fault (calls w) = None.
Proof.
  unfold issue. destruct (fault (calls w)); intros E.
  - discriminate.
  - injection E as _ <-. split; reflexivity.
Qed.

Lemma view_open t tb w : tx w = Some (t, tb) -> view (Some t) w = (inr tb, w).
Proof. intros H. unfold view. rewrite H, Nat.eqb_refl. reflexivity. Qed.

Lemma crearMovimiento_inr d t tb w m w' :
  tx w = Some (t, tb) ->
  crearMovimiento fault d (Some t) w = (inr m, w') ->
  fault (calls w) = None /\
  m = mkMovimiento (next_mov w) d /\
  w' = mkWorld (db w) (Some (t, con_movimientos tb [m])) (next_mov w + 1)
         (next_det w) (S (calls w))
         (trace w ++ [OpCrearMovimiento d (Some t)]).
Proof.
  intros Htx. unfold crearMovimiento, bind, issue.
  destruct (fault (calls w)); [discriminate |].
  rewrite (view_open t tb) by exact Htx.
  cbn. intros E. injection E as <- <-. repeat split.
Qed.

Lemma con_movimientos_app tb a b :
  con_movimientos (con_movimientos tb a) b = con_movimientos tb (a ++ b).
Proof. unfold con_movimientos. cbn. rewrite <- app_assoc. reflexivity. Qed.

Lemma procesar_inr pm t items :
  forall tot tb w r w',
    tx w = Some (t, tb) ->
    procesar fault pm t items tot w = (inr r, w') ->
    lineas pm (next_mov w) items = Some (fst r) /\
    snd r = acumular (sub_totales (fst r)) tot /\
    w' = mkWorld (db w)
           (Some (t, con_movimientos tb (salidas (next_mov w) (fst r))))
           (next_mov w + Z.of_nat (List.length (fst r))) (next_det w)
           (calls w + List.length (fst r))
           (trace w ++ map (fun i => OpCrearMovimiento (salida i) (Some t))
                           (fst r)).
Proof.
  induction items as [| item rest IH]; intros tot tb w r w' Htx; simpl.
  - intros E. injection E as <- <-. cbn.
    repeat split. destruct w; cbn in *. subst.
    unfold con_movimientos. destruct tb; cbn.
    rewrite !app_nil_r, Z.add_0_r, Nat.add_0_r. reflexivity.
  - unfold rechazada.
    destruct (negb (truthy (producto_id item))); [discriminate |].
    destruct (negb (truthy (cantidad item)) || leb (Number (cantidad item)) zero);
      [discriminate |].
    destruct (map_get pm (producto_id item)) as [producto |]; [| discriminate].
    intros E.
    apply bind_inr in E. destruct E as (m & w1 & Em & E).
    destruct (crearMovimiento_inr _ _ _ _ _ _ Htx Em) as (_ & -> & ->).
    apply bind_inr in E. destruct E as (r0 & w2 & E0 & E).
    injection E as <- <-.
    apply (IH _ (con_movimientos tb [mkMovimiento (next_mov w)
              (salida (fill_sub_total (fill_precio producto item)))]))
      in E0; [| reflexivity].
    cbn [next_mov db next_det calls trace] in E0.
    destruct E0 as (L & T & W).
    cbn [fst snd]. rewrite L. split; [reflexivity |]. split.
    + rewrite T. reflexivity.
    + rewrite W. cbn [salidas List.length map sub_totales].
      rewrite con_movimientos_app. f_equal.
      * lia.
      * lia.
      * rewrite <- app_assoc. reflexivity.
Qed.

Lemma findAll_inr ids t tb w ps w' :
  tx w = Some (t, tb) ->
  Producto_findAll fault ids (Some t) w = (inr ps, w') ->
  ps = filter (fun p => existsb (same_value_zero (prod_id p)) ids)
              (productos tb) /\
  w' = log (OpFindAllProductos ids (Some t)) w.
Proof.
  intros Htx. unfold Producto_findAll, bind, issue.
  destruct (fault (calls w)); [discriminate |].
  rewrite (view_open t tb) by exact Htx.
  cbn. intros E. injection E as <- <-. split; reflexivity.
Qed.

Lemma bulkCreate_inr items t tb w creado w' :
  tx w = Some (t, tb) ->
  DetalleVenta_bulkCreate fault items (Some t) w = (inr creado, w') ->
  creado = number_from (next_det w) items /\
  w' = mkWorld (db w)
         (Some (t, mkTables (productos tb) (ventas tb) (movimientos tb)
                            (detalles tb ++ creado)))
         (next_mov w) (next_det w + Z.of_nat (List.length items))
         (S (calls w)) (trace w ++ [OpBulkCreate items (Some t)]).
Proof.
  intros Htx. unfold DetalleVenta_bulkCreate, bind, issue.
  destruct (fault (calls w)); [discriminate |].
  rewrite (view_open t tb) by exact Htx.
  cbn. intros E. injection E as <- <-. split; reflexivity.
Qed.

Lemma findOne_inr id l t tb w v w' :
  tx w = Some (t, tb) ->
  Venta_findOne fault id l (Some t) w = (inr v, w') ->
  v = find (fun r => same_value_zero (venta_pk r) id) (ventas tb) /\
  w' = log (OpFindOneVenta id l (Some t)) w.
Proof.
  intros Htx. unfold Venta_findOne, bind, issue.
  destruct (fault (calls w)); [discriminate |].
  rewrite (view_open t tb) by exact Htx.
  cbn. intros E. injection E as <- <-. split; reflexivity.
Qed.

Lemma actualizar_total_inr venta ts t tb w u w' :
  tx w = Some (t, tb) ->
  actualizar_total fault venta ts t w = (inr u, w') ->
  exists n o,
    w' = mkWorld (db w)
           (Some (t, mkTables (productos tb)
                      (if debe_actualizar venta ts
                       then save_row (mkVenta (venta_pk venta) (JNum ts))
                                     (ventas tb)
                       else ventas tb)
                      (movimientos tb) (detalles tb)))
           (next_mov w) (next_det w) (calls w + n) (trace w ++ o).
Proof.
  intros Htx. unfold actualizar_total.
  destruct (debe_actualizar venta ts).
  - unfold Venta_save, bind, issue.
    destruct (fault (calls w)); [discriminate |].
    rewrite (view_open t tb) by exact Htx.
    cbn. intros E. injection E as _ <-.
    exists 1%nat, [OpSaveVenta (mkVenta (venta_pk venta) (JNum ts)) (Some t)].
    rewrite Nat.add_1_r. reflexivity.
  - intros E. injection E as _ <-. exists 0%nat, [].
    rewrite Nat.add_0_r, app_nil_r. destruct w, tb; cbn in *. subst.
    reflexivity.
Qed.

Lemma commit_inr t tb w u w' :
  tx w = Some (t, tb) ->
  commit fault t w = (inr u, w') ->
  w' = mkWorld tb None (next_mov w) (next_det w) (S (calls w))
         (trace w ++ [OpCommit t]).
Proof.
  intros Htx. unfold commit, bind, issue.
  destruct (fault (calls w)); [discriminate |].
  rewrite (view_open t tb) by exact Htx.
  cbn. intros E. injection E as _ <-. reflexivity.
Qed.

Lemma transaction_inr w t w' :
  sequelize_transaction fault w = (inr t, w') ->
  fault (calls w) = None /\
  w' = mkWorld (db w) (Some (t, db w)) (next_mov w) (next_det w)
         (S (calls w)) (trace w ++ [OpTransaction]).
Proof.
  unfold sequelize_transaction, bind, issue.
  destruct (fault (calls w)); [discriminate |].
  cbn. intros E. injection E as <- <-. split; reflexivity.
Qed.

(** A line keeps its [venta_id] through the loop. *)
Lemma lineas_primera pm id items items' :
  lineas pm id items = Some items' ->
  primera_venta_id items' = primera_venta_id items /\
  List.length items' = List.length items.
Proof.
  revert id items'. induction items as [| item rest IH]; intros id items'; simpl.
  - intros E. injection E as <-. split; reflexivity.
  - destruct (rechazada item); [discriminate |].
    destruct (map_get pm (producto_id item)); [| discriminate].
    destruct (lineas pm (id + 1) rest) as [r |] eqn:L; [| discriminate].
    intros E. injection E as <-. split; [reflexivity |].
    simpl. f_equal. exact (proj2 (IH _ _ L)).
Qed.

(** Everything a successful call has done. *)
Lemma crear_inr items w creado w' :
  crearDetalleVenta fault (Some items) w = (inr creado, w') ->
  exists items' venta,
    lineas (indice (db w) items) (next_mov w) items = Some items' /\
    creado = number_from (next_det w) items' /\
    truthy (primera_venta_id items) = true /\
    find (fun v => same_value_zero (venta_pk v) (primera_venta_id items))
         (ventas (db w)) = Some venta /\
    db w' =
      mkTables (productos (db w))
        (if debe_actualizar venta (acumular (sub_totales items') zero)
         then save_row (mkVenta (venta_pk venta)
                          (JNum (acumular (sub_totales items') zero)))
                       (ventas (db w))
         else ventas (db w))
        (movimientos (db w) ++ salidas (next_mov w) items')
        (detalles (db w) ++ creado) /\
    tx w' = None /\
    next_mov w' = next_mov w + Z.of_nat (List.length items) /\
    next_det w' = next_det w + Z.of_nat (List.length items).
Proof.
  unfold crearDetalleVenta. destruct items as [| i0 rest]; [discriminate |].
  set (items := i0 :: rest). intros E.
  apply bind_inr in E. destruct E as (t & w1 & Et & E).
  apply transaction_inr in Et. destruct Et as (_ & ->).
  unfold try_catch in E.
  destruct (intento fault t items _) as [[e | c] w2] eqn:I.
  { unfold rollback, bind, throw in E. discriminate. }
  injection E as <- <-.
  unfold intento in I.
  apply bind_inr in I. destruct I as (r & w3 & P & I).
  unfold preparar in P.
  apply bind_inr in P. destruct P as (ps & w4 & F & P).
  apply (findAll_inr _ _ (db w)) in F; [| reflexivity].
  destruct F as (-> & ->).
  apply (procesar_inr _ _ _ _ (db w)) in P; [| reflexivity].
  cbn [next_mov db next_det calls trace log] in P.
  destruct P as (L & T & ->).
  apply bind_inr in I. destruct I as (c' & w5 & B & I).
  eapply bulkCreate_inr in B; [| reflexivity].
  cbn [next_mov db next_det calls trace] in B.
  destruct B as (-> & ->).
  destruct (lineas_primera _ _ _ _ L) as (Hp & Hl).
  destruct (negb (truthy (primera_venta_id (fst r)))) eqn:Tv; [discriminate |].
  apply bind_inr in I. destruct I as (v & w6 & O & I).
  eapply findOne_inr in O; [| reflexivity].
  cbn [ventas con_movimientos log] in O. destruct O as (-> & ->).
  destruct (find _ (ventas (db w))) as [venta |] eqn:Fv; [| discriminate].
  apply bind_inr in I. destruct I as (u & w7 & A & I).
  eapply actualizar_total_inr in A; [| reflexivity].
  destruct A as (n & o & ->).
  apply bind_inr in I. destruct I as (u' & w8 & C & I).
  eapply commit_inr in C; [| reflexivity].
  injection I as <- <-. subst w8.
  exists (fst r), venta.
  rewrite Hp in Tv, Fv. rewrite Hl.
  split; [exact L |]. split; [reflexivity |].
  split; [apply negb_false_iff; exact Tv |].
  split; [exact Fv |].
  rewrite <- T. cbn. repeat split.
  all: rewrite ?Hl; try reflexivity.
Qed.

Lemma number_from_items id items :
  map det_item (number_from id items) = items.
Proof.
  revert id. induction items as [| i r IH]; intros id; simpl.
  - reflexivity.
  - rewrite IH. reflexivity.
Qed.

(** After [save], reading the order by its id gives the saved row. *)
Lemma find_save_row id v v' vs :
  find (fun r => same_value_zero (venta_pk r) id) vs = Some v ->
  venta_pk v' = venta_pk v ->
  find (fun r => same_value_zero (venta_pk r) id) (save_row v' vs) = Some v'.
Proof.
  intros F K. assert (Hid : venta_pk v = id).
  { apply find_some in F. apply same_value_zero_eq. exact (proj2 F). }
  revert F. induction vs as [| r vs IH]; simpl.
  - discriminate.
  - destruct (same_value_zero (venta_pk r) id) eqn:S.
    + intros E. injection E as ->.
      rewrite K, same_value_zero_refl. simpl.
      rewrite K, Hid, same_value_zero_refl. reflexivity.
    + intros F. rewrite K, Hid, S. simpl. rewrite S. apply IH. exact F.
Qed.

(** C1. Once the call has locked the parent order, it overwrites the order's
    total with [total_subtotales] when the current total is exactly zero or
    strictly below [total_subtotales], and leaves every order row as it was
    otherwise. *)
Theorem reconciliation_rule items w creado w' :
  crearDetalleVenta fault (Some items) w = (inr creado, w') ->
  exists venta,
    find (fun v => same_value_zero (venta_pk v) (primera_venta_id items))
         (ventas (db w)) = Some venta /\
    let total_subtotales := acumular (sub_totales (map det_item creado)) zero in
    let currentTotal := Number (or_else (total venta) (JNum zero)) in
    (eqb currentTotal zero = true \/ ltb currentTotal total_subtotales = true ->
     ventas (db w') =
       save_row (mkVenta (venta_pk venta) (JNum total_subtotales))
                (ventas (db w)) /\
     total_de (primera_venta_id items) (ventas (db w')) =
       Some (JNum total_subtotales)) /\
    (eqb currentTotal zero = false ->
     ltb currentTotal total_subtotales = false ->
     ventas (db w') = ventas (db w)).
Proof.
  intros E. apply crear_inr in E.
  destruct E as (items' & venta & L & -> & Tv & F & D & _).
  exists venta. split; [exact F |].
  rewrite number_from_items. cbv zeta. rewrite D. cbn [ventas].
  unfold debe_actualizar. split.
  - intros H. assert (C : eqb (Number (or_else (total venta) (JNum zero))) zero
                      || ltb (Number (or_else (total venta) (JNum zero)))
                             (acumular (sub_totales items') zero) = true).
    { apply orb_true_iff. exact H. }
    rewrite C. split; [reflexivity |].
    unfold total_de. rewrite (find_save_row _ venta); [reflexivity | exact F |].
    reflexivity.
  - intros H1 H2. rewrite H1, H2. reflexivity.
Qed.

(** The products in the index come from the store and carry the key they are
    filed under. *)
Lemma indice_some tb items k p :
  map_get (indice tb items) k = Some p ->
  In p (productos tb) /\ prod_id p = k.
Proof.
  intros G. apply map_get_some in G. unfold indice in G.
  apply in_map_iff in G. destruct G as (q & E & I).
  injection E as <- ->. apply filter_In in I. split; [exact (proj1 I) |].
  reflexivity.
Qed.

Lemma lineas_resueltas pm id items items' :
  lineas pm id items = Some items' ->
  Forall2 (fun item item' =>
             exists producto,
               map_get pm (producto_id item) = Some producto /\
               precio_unitario item' = JNum (precio_resuelto producto item) /\
               sub_total item' = JNum (sub_total_resuelto producto item))
          items items'.
Proof.
  revert id items'. induction items as [| item rest IH]; intros id items'; simpl.
  - intros E. injection E as <-. constructor.
  - destruct (rechazada item); [discriminate |].
    destruct (map_get pm (producto_id item)) as [producto |] eqn:G;
      [| discriminate].
    destruct (lineas pm (id + 1) rest) as [r |] eqn:L; [| discriminate].
    intros E. injection E as <-. constructor; [| exact (IH _ _ L)].
    exists producto. split; [exact G |].
    unfold sub_total_resuelto, precio_resuelto, resolver, fill_sub_total,
      fill_precio, set_movimiento_id.
    cbn [precio_unitario sub_total cantidad].
    destruct (is_nullish (precio_unitario item)),
             (is_nullish (sub_total item)); split; reflexivity.
Qed.

Lemma Forall2_number_from {A} (P : A -> Item -> Prop) xs items :
  Forall2 P xs items ->
  forall id, Forall2 (fun x d => P x (det_item d)) xs (number_from id items).
Proof.
  induction 1 as [| x i xs items Hx _ IH]; intros id; simpl.
  - constructor.
  - constructor; [exact Hx | apply IH].
Qed.

(** C6. In every line a successful call returns, the unit price is the
    caller's [precio_unitario] when one was supplied and the list price of the
    line's product otherwise; the sub-total is the price times the quantity
    rounded to two decimals when the caller supplied none, and the caller's
    own [sub_total] rounded to two decimals, whatever price times quantity
    would give, otherwise.  Rounded to two decimals: the double nearest to
    the nearest multiple of one hundredth. *)
Theorem precio_y_sub_total_resueltos items w creado w' :
  crearDetalleVenta fault (Some items) w = (inr creado, w') ->
  Forall2 (fun item d =>
             exists producto,
               In producto (productos (db w)) /\
               prod_id producto = producto_id item /\
               precio_unitario (det_item d) =
                 JNum (if is_nullish (precio_unitario item)
                       then Number (precio_minorista producto)
                       else Number (precio_unitario item)) /\
               exists s,
                 sub_total (det_item d) = JNum s /\
                 redondeado_2
                   (if is_nullish (sub_total item)
                    then mul (Number (precio_unitario (det_item d)))
                             (Number (cantidad item))
                    else Number (sub_total item))
                   s)
          items creado.
Proof.
  intros E. apply crear_inr in E.
  destruct E as (items' & venta & L & -> & _).
  apply lineas_resueltas in L.
  apply Forall2_number_from with (id := next_det w) in L.
  revert L. apply Forall2_impl.
  intros item d (producto & G & P & S).
  apply indice_some in G. destruct G as (I & K).
  exists producto. split; [exact I |]. split; [exact K |].
  split; [exact P |].
  eexists. split; [exact S |].
  rewrite P. unfold sub_total_resuelto, precio_resuelto. cbn [Number].
  destruct (is_nullish (sub_total item));
    apply JsNumFacts.toFixed2_redondeado.
Qed.

(** A failing call leaves the committed tables alone. *)
Lemma crear_inl_db input w e w' :
  crearDetalleVenta fault input w = (inl e, w') -> db w' = db w.
Proof.
  intros E. unfold crearDetalleVenta in E.
  destruct input as [[| i0 rest] |].
  - injection E as _ <-. reflexivity.
  - apply bind_inl in E. destruct E as [E | (t & w1 & Et & E)].
    + unfold sequelize_transaction in E.
      apply bind_inl in E. destruct E as [E | (u & w1 & Ei & E)].
      * exact (keeps_issue _ _ _ _ E).
      * discriminate.
    + unfold try_catch in E.
      destruct (intento fault t (i0 :: rest) w1) as [[e1 | c] w2] eqn:I;
        [| discriminate].
      unfold rollback, bind, throw in E. injection E as _ <-.
      cbn. rewrite (intento_on_throw _ _ _ _ _ I).
      apply transaction_inr in Et. destruct Et as (_ & ->). reflexivity.
  - injection E as _ <-. reflexivity.
Qed.

(** C2. A call that fails leaves the committed tables exactly as they were:
    no sale line, no movement and no change of an order total persists.  The
    error it raises is the array check's (nothing was started), the one
    opening the transaction raised, or the very error the [try] block raised,
    after a rollback that closed the transaction; and an error of the [try]
    block is never swallowed: the call fails with it. *)
Theorem rollback_total input w :
  (forall e w',
     crearDetalleVenta fault input w = (inl e, w') ->
     db w' = db w /\
     ((forall items, input = Some items -> items = []) /\
      e = err_array /\ w' = w
      \/
      exists items,
        input = Some items /\ items <> [] /\
        (sequelize_transaction fault w = (inl e, w')
         \/
         exists t w1 w2,
           sequelize_transaction fault w = (inr t, w1) /\
           intento fault t items w1 = (inl e, w2) /\
           w' = set_tx None (log (OpRollback t) w2)))) /\
  (forall items t w1 e w2,
     input = Some items -> items <> [] ->
     sequelize_transaction fault w = (inr t, w1) ->
     intento fault t items w1 = (inl e, w2) ->
     crearDetalleVenta fault input w =
       (inl e, set_tx None (log (OpRollback t) w2))).
Proof.
  split.
  - intros e w' E. split; [exact (crear_inl_db _ _ _ _ E) |].
    unfold crearDetalleVenta in E.
    destruct input as [[| i0 rest] |].
    + injection E as <- <-. left.
      repeat split. intros items H. injection H as <-. reflexivity.
    + set (items := i0 :: rest) in *.
      right. exists items. split; [reflexivity |]. split; [discriminate |].
      apply bind_inl in E. destruct E as [E | (t & w1 & Et & E)].
      * left. exact E.
      * unfold try_catch in E.
        destruct (intento fault t items w1) as [[e1 | c] w2] eqn:I;
          [| discriminate].
        unfold rollback, bind, throw in E. injection E as <- <-.
        right. exists t, w1, w2. repeat split; assumption.
    + injection E as <- <-. left.
      repeat split. intros items H. discriminate.
  - intros items t w1 e w2 -> Hne Et I. unfold crearDetalleVenta.
    destruct items as [| i0 rest]; [congruence |].
    unfold bind. rewrite Et. unfold try_catch. rewrite I. reflexivity.
Qed.

(** *** Runs in which no store call rejects *)

Lemma crearMovimiento_run d t tb w :
  fault (calls w) = None ->
  tx w = Some (t, tb) ->
  crearMovimiento fault d (Some t) w =
    (inr (mkMovimiento (next_mov w) d),
     mkWorld (db w)
       (Some (t, con_movimientos tb [mkMovimiento (next_mov w) d]))
       (next_mov w + 1) (next_det w) (S (calls w))
       (trace w ++ [OpCrearMovimiento d (Some t)])).
Proof.
  intros Hf Htx. unfold crearMovimiento, bind, issue. rewrite Hf.
  rewrite (view_open t tb) by exact Htx. reflexivity.
Qed.

Lemma bind_run_inr {A B} (m : M A) (k : A -> M B) w a w1 :
  m w = (inr a, w1) -> bind m k w = k a w1.
Proof. intros E. unfold bind. rewrite E. reflexivity. Qed.

Lemma bind_run_inl {A B} (m : M A) (k : A -> M B) w e w1 :
  m w = (inl e, w1) -> bind m k w = (inl e, w1).
Proof. intros E. unfold bind. rewrite E. reflexivity. Qed.

Lemma transaction_run w :
  fault (calls w) = None ->
  sequelize_transaction fault w =
    (inr (S (calls w)),
     mkWorld (db w) (Some (S (calls w), db w)) (next_mov w) (next_det w)
             (S (calls w)) (trace w ++ [OpTransaction])).
Proof.
  intros Hf. unfold sequelize_transaction, bind, issue. rewrite Hf.
  reflexivity.
Qed.

Lemma findAll_run ids t tb w :
  fault (calls w) = None ->
  tx w = Some (t, tb) ->
  Producto_findAll fault ids (Some t) w =
    (inr (filter (fun p => existsb (same_value_zero (prod_id p)) ids)
                 (productos tb)),
     log (OpFindAllProductos ids (Some t)) w).
Proof.
  intros Hf Htx. unfold Producto_findAll, bind, issue. rewrite Hf.
  rewrite (view_open t tb) by exact Htx. reflexivity.
Qed.

Lemma crear_no_vacio items :
  items <> [] ->
  crearDetalleVenta fault (Some items) =
    bind (sequelize_transaction fault)
         (fun transaction =>
            try_catch (intento fault transaction items)
                      (fun error => bind (rollback transaction)
                                         (fun _ => throw error))).
Proof. destruct items; [congruence | reflexivity]. Qed.

(** The loop on a batch whose lines pass up to one that fails by itself: one
    movement per earlier line, then the error of that line. *)
Lemma procesar_falla pm t pre bad post e :
  (forall n, fault n = None) ->
  Forall (fun i => falla pm i = None) pre ->
  falla pm bad = Some e ->
  forall tot tb w,
    tx w = Some (t, tb) ->
    exists w' ds,
      procesar fault pm t (pre ++ bad :: post) tot w = (inl e, w') /\
      trace w' = trace w ++ map (fun d => OpCrearMovimiento d (Some t)) ds /\
      List.length ds = List.length pre.
Proof.
  intros Hf Hpre Hbad.
  induction Hpre as [| item pre Hi _ IH]; intros tot tb w Htx.
  - exists w, []. simpl. unfold falla, rechazada in Hbad.
    destruct (negb (truthy (producto_id bad))).
    { injection Hbad as <-. rewrite app_nil_r. repeat split. }
    destruct (negb (truthy (cantidad bad)) || leb (Number (cantidad bad)) zero).
    { injection Hbad as <-. rewrite app_nil_r. repeat split. }
    destruct (map_get pm (producto_id bad)); [discriminate |].
    injection Hbad as <-. rewrite app_nil_r. repeat split.
  - simpl. unfold falla, rechazada in Hi.
    destruct (negb (truthy (producto_id item))); [discriminate |].
    destruct (negb (truthy (cantidad item)) || leb (Number (cantidad item)) zero);
      [discriminate |].
    destruct (map_get pm (producto_id item)) as [p |]; [| discriminate].
    unfold bind.
    rewrite (crearMovimiento_run _ t tb) by auto.
    match goal with
    | |- context [procesar fault pm t _ ?tot' ?w1] =>
        destruct (IH tot' (con_movimientos tb
                    [mkMovimiento (next_mov w)
                       (salida (fill_sub_total (fill_precio p item)))]) w1
                    eq_refl) as (w' & ds & E & T & Len)
    end.
    exists w', (salida (fill_sub_total (fill_precio p item)) :: ds).
    rewrite E. split; [reflexivity |].
    split.
    + rewrite T. cbn [trace map]. rewrite <- app_assoc. reflexivity.
    + simpl. rewrite Len. reflexivity.
Qed.

Lemma indice_presente tb items id :
  In id (map producto_id items) ->
  presente tb id = true ->
  exists p, map_get (indice tb items) id = Some p.
Proof.
  intros Hin Hp. unfold presente in Hp.
  apply existsb_exists in Hp. destruct Hp as (p & Ip & S).
  apply same_value_zero_eq in S.
  destruct (map_get (indice tb items) id) as [q |] eqn:G.
  - exists q. reflexivity.
  - exfalso. apply (proj1 (map_get_none _ _) G p).
    unfold indice. apply in_map_iff. exists p. split; [congruence |].
    apply filter_In. split; [exact Ip |].
    apply existsb_exists. exists id. split.
    + destruct (set_of_complete _ [] id Hin) as [[] | H]. exact H.
    + rewrite S. apply same_value_zero_refl.
Qed.

Lemma indice_ausente tb items id :
  presente tb id = false -> map_get (indice tb items) id = None.
Proof.
  intros Hp. destruct (map_get (indice tb items) id) as [q |] eqn:G;
    [| reflexivity].
  apply indice_some in G. destruct G as (I & K).
  assert (presente tb id = true).
  { unfold presente. apply existsb_exists. exists q. split; [exact I |].
    rewrite K. apply same_value_zero_refl. }
  congruence.
Qed.

Lemma skipn_exact {A} (l r : list A) : skipn (List.length l) (l ++ r) = r.
Proof. induction l as [| x l IH]; simpl; [reflexivity | exact IH]. Qed.

Lemma filter_writes_movs t ds :
  filter is_write (map (fun d => OpCrearMovimiento d (Some t)) ds) =
  map (fun d => OpCrearMovimiento d (Some t)) ds.
Proof. induction ds as [| d ds IH]; simpl; [| rewrite IH]; reflexivity. Qed.

(** When no store call rejects, a call fails with the error of the first line
    that fails by itself; nothing persists, and by then the loop has written
    one movement for each earlier line, and nothing else. *)
Lemma primera_falla w pre bad post e :
  (forall n, fault n = None) ->
  Forall (fun i => falla (indice (db w) (pre ++ bad :: post)) i = None) pre ->
  falla (indice (db w) (pre ++ bad :: post)) bad = Some e ->
  exists w' ds,
    crearDetalleVenta fault (Some (pre ++ bad :: post)) w = (inl e, w') /\
    db w' = db w /\
    escrituras w w' =
      map (fun d => OpCrearMovimiento d (Some (S (calls w)))) ds /\
    List.length ds = List.length pre.
Proof.
  intros Hf Hpre Hbad.
  set (items := pre ++ bad :: post) in *.
  set (w1 := mkWorld (db w) (Some (S (calls w), db w)) (next_mov w)
               (next_det w) (S (calls w)) (trace w ++ [OpTransaction])).
  set (ids := set_of [] (map producto_id items)).
  set (w2 := log (OpFindAllProductos ids (Some (S (calls w)))) w1).
  destruct (procesar_falla (indice (db w) items) (S (calls w)) pre bad post e
              Hf Hpre Hbad zero (db w) w2 eq_refl)
    as (w3 & ds & E & T & Len).
  exists (set_tx None (log (OpRollback (S (calls w))) w3)), ds.
  assert (R : crearDetalleVenta fault (Some items) w =
              (inl e, set_tx None (log (OpRollback (S (calls w))) w3))).
  { rewrite crear_no_vacio by (unfold items; destruct pre; discriminate).
    rewrite (bind_run_inr _ _ _ _ _ (transaction_run w (Hf _))).
    fold w1. unfold try_catch.
    assert (I : intento fault (S (calls w)) items w1 = (inl e, w3)).
    { unfold intento. apply bind_run_inl. unfold preparar.
      rewrite (bind_run_inr _ _ _ _ _
                 (findAll_run _ (S (calls w)) (db w) w1 (Hf _) eq_refl)).
      exact E. }
    rewrite I. reflexivity. }
  split; [exact R |]. split.
  - exact (crear_inl_db _ _ _ _ R).
  - split; [| exact Len].
    unfold escrituras. cbn [trace set_tx log]. rewrite T.
    unfold w2, w1. cbn [trace log].
    rewrite <- !app_assoc. rewrite skipn_exact. cbn [app filter is_write].
    rewrite filter_app, filter_writes_movs. cbn [filter is_write].
    apply app_nil_r.
Qed.

Lemma falla_presente tb items i :
  In i items ->
  rechazada i = None ->
  presente tb (producto_id i) = true ->
  falla (indice tb items) i = None.
Proof.
  intros Hin Hr Hp. unfold falla. rewrite Hr.
  destruct (indice_presente tb items (producto_id i)) as (p & ->);
    [apply in_map; exact Hin | exact Hp | reflexivity].
Qed.

(** C3, as the code has it.  When no store call rejects and the first line to
    fail is one whose product the store does not hold, the call fails with the
    unknown-product error for that line and nothing persists; the check runs
    inside the loop, so by then one movement has been written under the
    transaction for each earlier line, and no other write: none at all when
    the line comes first. *)
Theorem producto_ausente_detectado w pre bad post :
  (forall n, fault n = None) ->
  Forall (fun i => rechazada i = None /\
                   presente (db w) (producto_id i) = true) pre ->
  rechazada bad = None ->
  presente (db w) (producto_id bad) = false ->
  exists w' ds,
    crearDetalleVenta fault (Some (pre ++ bad :: post)) w =
      (inl (err_producto (producto_id bad)), w') /\
    db w' = db w /\
    escrituras w w' =
      map (fun d => OpCrearMovimiento d (Some (S (calls w)))) ds /\
    List.length ds = List.length pre.
Proof.
  intros Hf Hpre Hbad Habs. apply primera_falla.
  - exact Hf.
  - apply Forall_forall. intros i Hi.
    pose proof (proj1 (Forall_forall _ _) Hpre i Hi) as (Hr & Hp).
    apply falla_presente; [| exact Hr | exact Hp].
    apply in_or_app. left. exact Hi.
  - unfold falla. rewrite Hbad, (indice_ausente _ _ _ Habs). reflexivity.
Qed.

(** The validations as the code has them: when no store call rejects and the
    first line to fail has a falsy [producto_id], a falsy [cantidad] or a
    [cantidad] that [Number] turns into zero or less, the call fails with the
    error of that check and nothing persists. *)
Lemma linea_rechazada_aborta w pre bad post e :
  (forall n, fault n = None) ->
  Forall (fun i => rechazada i = None /\
                   presente (db w) (producto_id i) = true) pre ->
  rechazada bad = Some e ->
  exists w',
    crearDetalleVenta fault (Some (pre ++ bad :: post)) w = (inl e, w') /\
    db w' = db w.
Proof.
  intros Hf Hpre Hbad.
  destruct (primera_falla w pre bad post e Hf) as (w' & ds & R & D & _).
  - apply Forall_forall. intros i Hi.
    pose proof (proj1 (Forall_forall _ _) Hpre i Hi) as (Hr & Hp).
    apply falla_presente; [| exact Hr | exact Hp].
    apply in_or_app. left. exact Hi.
  - unfold falla. rewrite Hbad. reflexivity.
  - exists w'. split; assumption.
Qed.

(** *** Posting the same batch twice *)

Lemma save_row_idem v vs : save_row v (save_row v vs) = save_row v vs.
Proof.
  unfold save_row. rewrite map_map. apply map_ext. intros r.
  destruct (same_value_zero (venta_pk r) (venta_pk v)) eqn:S.
  - rewrite same_value_zero_refl. reflexivity.
  - rewrite S. reflexivity.
Qed.

(** Apart from the movement keys, the lines the loop produces depend on the
    index and the input only. *)
Lemma lineas_mismas pm items : forall id1 id2 a b,
  lineas pm id1 items = Some a ->
  lineas pm id2 items = Some b ->
  map salida a = map salida b /\ sub_totales a = sub_totales b.
Proof.
  induction items as [| item rest IH]; intros id1 id2 a b; simpl.
  - intros E1 E2. injection E1 as <-. injection E2 as <-. split; reflexivity.
  - destruct (rechazada item); [discriminate |].
    destruct (map_get pm (producto_id item)) as [p |]; [| discriminate].
    destruct (lineas pm (id1 + 1) rest) as [r1 |] eqn:L1; [| discriminate].
    destruct (lineas pm (id2 + 1) rest) as [r2 |] eqn:L2; [| discriminate].
    intros E1 E2. injection E1 as <-. injection E2 as <-.
    destruct (IH _ _ _ _ L1 L2) as (Hs & Ht).
    split.
    + simpl. rewrite Hs. reflexivity.
    + unfold sub_totales in *. simpl. rewrite Ht. reflexivity.
Qed.

Lemma salidas_data id items : map mov_data (salidas id items) = map salida items.
Proof.
  revert id. induction items as [| i r IH]; intros id; simpl.
  - reflexivity.
  - rewrite IH. reflexivity.
Qed.

Lemma salidas_ids items : forall id m,
  In m (salidas id items) ->
  id <= mov_id m < id + Z.of_nat (List.length items).
Proof.
  induction items as [| i r IH]; intros id m; simpl.
  - intros [].
  - intros [<- | I].
    + simpl. lia.
    + apply IH in I. lia.
Qed.

Lemma salidas_length id items :
  List.length (salidas id items) = List.length items.
Proof.
  revert id. induction items as [| i r IH]; intros id; simpl;
    [| rewrite IH]; reflexivity.
Qed.

Lemma indice_mismo tb1 tb2 items :
  productos tb1 = productos tb2 -> indice tb1 items = indice tb2 items.
Proof. intros H. unfold indice. rewrite H. reflexivity. Qed.

(** C5, as the code has it.  Posting the same batch twice creates two
    separate sets of movements, the second a copy of the first under fresh
    keys, but the order total after the second call is the total after the
    first, not a larger one: the rule compares the order's total with the
    sub-totals of the current batch only. *)
Theorem segunda_llamada items w0 c1 w1 c2 w2 :
  crearDetalleVenta fault (Some items) w0 = (inr c1, w1) ->
  crearDetalleVenta fault (Some items) w1 = (inr c2, w2) ->
  (exists ms1 ms2,
     movimientos (db w1) = movimientos (db w0) ++ ms1 /\
     movimientos (db w2) = movimientos (db w1) ++ ms2 /\
     List.length ms1 = List.length items /\
     map mov_data ms2 = map mov_data ms1 /\
     (forall m1 m2, In m1 ms1 -> In m2 ms2 -> mov_id m1 < mov_id m2)) /\
  ventas (db w2) = ventas (db w1).
Proof.
  intros E1 E2. apply crear_inr in E1. apply crear_inr in E2.
  destruct E1 as (a & v1 & L1 & _ & _ & F1 & D1 & _ & N1 & _).
  destruct E2 as (b & v2 & L2 & _ & _ & F2 & D2 & _ & _ & _).
  assert (P : productos (db w1) = productos (db w0)) by (rewrite D1; reflexivity).
  rewrite (indice_mismo _ _ items P) in L2.
  destruct (lineas_mismas _ _ _ _ _ _ L1 L2) as (Hs & Ht).
  destruct (lineas_primera _ _ _ _ L1) as (_ & Len1).
  split.
  - exists (salidas (next_mov w0) a), (salidas (next_mov w1) b).
    split; [rewrite D1; reflexivity |].
    split; [rewrite D2; reflexivity |].
    split; [rewrite salidas_length; exact Len1 |].
    split; [rewrite !salidas_data; symmetry; exact Hs |].
    intros m1 m2 I1 I2. apply salidas_ids in I1. apply salidas_ids in I2.
    rewrite N1 in I2. rewrite Len1 in I1. lia.
  - rewrite D2. cbn [ventas]. rewrite <- Ht.
    destruct (debe_actualizar v2 (acumular (sub_totales a) zero)) eqn:B2;
      [| reflexivity].
    revert F2 B2. rewrite D1. cbn [ventas].
    destruct (debe_actualizar v1 (acumular (sub_totales a) zero)) eqn:B1.
    + intros F2 _.
      rewrite (find_save_row _ v1
                 (mkVenta (venta_pk v1) (JNum (acumular (sub_totales a) zero))))
        in F2 by (exact F1 || reflexivity).
      injection F2 as <-. cbn [venta_pk]. apply save_row_idem.
    + intros F2 B2. rewrite F1 in F2. injection F2 as <-. congruence.
Qed.

(** *** The running total and the sum of the sub-totals *)

(** The first half of a successful call. *)
Lemma crear_preparar items w creado w' :
  crearDetalleVenta fault (Some items) w = (inr creado, w') ->
  exists t w1 r w2,
    sequelize_transaction fault w = (inr t, w1) /\
    preparar fault t items w1 = (inr r, w2) /\
    lineas (indice (db w) items) (next_mov w) items = Some (fst r) /\
    snd r = acumular (sub_totales (fst r)) zero /\
    creado = number_from (next_det w) (fst r).
Proof.
  unfold crearDetalleVenta. destruct items as [| i0 rest]; [discriminate |].
  set (items := i0 :: rest). intros E.
  apply bind_inr in E. destruct E as (t & w1 & Et & E).
  pose proof Et as Et'. apply transaction_inr in Et'. destruct Et' as (_ & W1).
  unfold try_catch in E.
  destruct (intento fault t items w1) as [[e | c] w2] eqn:I.
  { unfold rollback, bind, throw in E. discriminate. }
  injection E as <- <-.
  unfold intento in I.
  apply bind_inr in I. destruct I as (r & w3 & P & I).
  exists t, w1, r, w3. split; [exact Et |]. split; [exact P |].
  subst w1. unfold preparar in P.
  apply bind_inr in P. destruct P as (ps & w4 & F & P).
  apply (findAll_inr _ _ (db w)) in F; [| reflexivity].
  destruct F as (-> & ->).
  apply (procesar_inr _ _ _ _ (db w)) in P; [| reflexivity].
  cbn [next_mov db next_det calls trace log] in P.
  destruct P as (L & T & ->).
  apply bind_inr in I. destruct I as (c' & w5 & B & I).
  eapply bulkCreate_inr in B; [| reflexivity].
  cbn [next_mov db next_det calls trace] in B.
  destruct B as (-> & ->).
  split; [exact L |]. split; [exact T |].
  destruct (negb (truthy (primera_venta_id (fst r)))); [discriminate |].
  apply bind_inr in I. destruct I as (v & w6 & O & I).
  destruct v as [venta |]; [| discriminate].
  apply bind_inr in I. destruct I as (u & w7 & A & I).
  apply bind_inr in I. destruct I as (u' & w8 & C & I).
  injection I as <- _. reflexivity.
Qed.

(** Every sub-total the loop writes comes out of [toFixed(2)]. *)
Lemma lineas_toFixed2 pm id items items' :
  lineas pm id items = Some items' ->
  Forall (fun s => exists x, s = toFixed2 x) (sub_totales items').
Proof.
  intros L. apply lineas_resueltas in L.
  induction L as [| item item' items items' (p & _ & _ & S) _ IH]; simpl.
  - constructor.
  - constructor; [| exact IH]. rewrite S. unfold sub_total_resuelto.
    cbn [Number]. destruct (is_nullish (sub_total item)); eexists; reflexivity.
Qed.

(** C7, as the code has it.  In a successful call that returns at most a
    thousand lines, each with a sub-total of at most a million in magnitude,
    the [total_subtotales] the loop hands to the reconciliation (accumulated
    with a rounding to two decimals at every line) equals the plain sum of
    the returned sub-totals rounded to two decimals, and it is the double
    nearest to the exact sum of their cents. *)
Theorem total_es_suma_redondeada items w creado w' :
  crearDetalleVenta fault (Some items) w = (inr creado, w') ->
  (List.length creado <= 1000)%nat ->
  Forall (fun d => moderado (Number (sub_total (det_item d)))) creado ->
  exists t w1 r w2,
    sequelize_transaction fault w = (inr t, w1) /\
    preparar fault t items w1 = (inr r, w2) /\
    fst r = map det_item creado /\
    snd r = toFixed2 (suma (sub_totales (map det_item creado))) /\
    exists ns,
      sub_totales (map det_item creado) = map of_cents ns /\
      snd r = of_cents (suma_Z ns).
Proof.
  intros E Hlen Hmod.
  destruct (crear_preparar _ _ _ _ E) as (t & w1 & r & w2 & Et & P & L & T & C).
  exists t, w1, r, w2. split; [exact Et |]. split; [exact P |].
  assert (M : map det_item creado = fst r)
    by (rewrite C; apply number_from_items).
  split; [symmetry; exact M |]. rewrite M, T.
  apply acumular_suma.
  - unfold sub_totales. rewrite length_map, <- M, length_map. exact Hlen.
  - apply lineas_toFixed2 in L.
    assert (Hm : Forall moderado (sub_totales (fst r))).
    { rewrite <- M. unfold sub_totales. rewrite map_map.
      apply Forall_map. exact Hmod. }
    clear - L Hm. induction L as [| s subs Hs _ IH].
    + constructor.
    + inversion Hm; subst. constructor; [split; assumption | apply IH; assumption].
Qed.

End WithFaults.

(** *** The theorems at the sample data *)

(** The order stands at 100.00 and the lines sum to 25.00: the total stays
    at 100.00. *)
Lemma reconciliation_rule_witness :
  exists creado w',
    crearDetalleVenta sin_fallos (Some lote) (mundo (JStr "100.00")) =
      (inr creado, w') /\
    acumular (sub_totales (map det_item creado)) zero = of_Z 25 /\
    ventas (db w') = [mkVenta (num 7) (JStr "100.00")].
Proof.
  eassert (H : crearDetalleVenta sin_fallos (Some lote)
                 (mundo (JStr "100.00")) = (inr _, _))
    by (vm_compute; reflexivity).
  match type of H with _ = (inr ?c, ?w) => exists c, w end.
  split; [exact H |].
  destruct (reconciliation_rule sin_fallos lote _ _ _ H)
    as (venta & F & _ & Keep).
  match type of F with
  | ?l = _ =>
      assert (F' : l = Some (mkVenta (num 7) (JStr "100.00")))
        by (vm_compute; reflexivity)
  end.
  rewrite F' in F. injection F as <-.
  split; [vm_compute; reflexivity |].
  rewrite Keep.
  - reflexivity.
  - vm_compute. reflexivity.
  - vm_compute. reflexivity.
Defined.

(** The order stands at zero: the total becomes the 25.00 of the lines. *)
Example total_desde_cero :
  exists creado w',
    crearDetalleVenta sin_fallos (Some lote) (mundo (JStr "0.00")) =
      (inr creado, w') /\
    ventas (db w') = [mkVenta (num 7) (num 25)].
Proof.
  eexists. eexists. split; vm_compute; reflexivity.
Qed.

Lemma rollback_total_witness :
  exists e w',
    crearDetalleVenta sin_fallos (Some lote_ausente) (mundo (JStr "0.00")) =
      (inl e, w') /\
    db w' = db (mundo (JStr "0.00")).
Proof.
  eassert (H : crearDetalleVenta sin_fallos (Some lote_ausente)
                 (mundo (JStr "0.00")) = (inl _, _))
    by (vm_compute; reflexivity).
  match type of H with _ = (inl ?e, ?w) => exists e, w end.
  split; [exact H |].
  exact (proj1 (proj1 (rollback_total sin_fallos _ _) _ _ H)).
Defined.

(** C3, as stated, fails: the unknown product of the second line is detected
    only after the movement of the first line has been written. *)
Lemma escritura_antes_de_detectar :
  exists w' d t,
    crearDetalleVenta sin_fallos (Some lote_ausente) (mundo (JStr "0.00")) =
      (inl (err_producto (num 99)), w') /\
    escrituras (mundo (JStr "0.00")) w' = [OpCrearMovimiento d t].
Proof.
  do 3 eexists. split; vm_compute; reflexivity.
Qed.

Lemma producto_ausente_detectado_witness :
  exists w' ds,
    crearDetalleVenta sin_fallos (Some lote_ausente) (mundo (JStr "0.00")) =
      (inl (err_producto (num 99)), w') /\
    db w' = db (mundo (JStr "0.00")) /\
    escrituras (mundo (JStr "0.00")) w' =
      map (fun d => OpCrearMovimiento d (Some 1%nat)) ds /\
    List.length ds = 1%nat.
Proof.
  apply (producto_ausente_detectado sin_fallos (mundo (JStr "0.00"))
           [linea (num 1) (num 2) JUndefined JUndefined]
           (linea (num 99) (num 1) JUndefined JUndefined) []).
  - reflexivity.
  - constructor; [split; vm_compute; reflexivity | constructor].
  - vm_compute. reflexivity.
  - vm_compute. reflexivity.
Defined.

(** The quantity check lets every truthy quantity through that [Number]
    turns into [NaN], since [NaN <= 0] is false. *)
Lemma rechazada_no_numerica item :
  truthy (producto_id item) = true ->
  truthy (cantidad item) = true ->
  Number (cantidad item) = NaN ->
  rechazada item = None.
Proof.
  intros P C N. unfold rechazada. rewrite P, C, N. reflexivity.
Qed.

(** C4 at a line whose quantity is the string abc: [!cantidad] is false and
    [Number(cantidad) <= 0] is false too, since [NaN <= 0] is, so the line is
    posted, with a [NaN] sub-total. *)
Theorem cantidad_no_numerica_aceptada :
  rechazada (linea (num 1) (JStr "abc") JUndefined JUndefined) = None /\
  exists creado w',
    crearDetalleVenta sin_fallos
      (Some [linea (num 1) (JStr "abc") JUndefined JUndefined])
      (mundo (JStr "0.00")) = (inr creado, w') /\
    map (fun d => sub_total (det_item d)) creado = [JNum NaN] /\
    List.length (movimientos (db w')) = 1%nat /\
    ventas (db w') = [mkVenta (num 7) (JNum NaN)].
Proof.
  split; [vm_compute; reflexivity |].
  do 2 eexists. split; [vm_compute; reflexivity |].
  repeat split; vm_compute; reflexivity.
Qed.

(** C5, as stated, fails: after the second identical call the order total is
    the 25.00 it was after the first. *)
Lemma segundo_total_no_mayor :
  exists c1 w1 c2 w2,
    crearDetalleVenta sin_fallos (Some lote) (mundo (JStr "0.00")) =
      (inr c1, w1) /\
    crearDetalleVenta sin_fallos (Some lote) w1 = (inr c2, w2) /\
    total_de (num 7) (ventas (db w1)) = Some (num 25) /\
    total_de (num 7) (ventas (db w2)) = Some (num 25) /\
    ltb (of_Z 25) (of_Z 25) = false.
Proof.
  eassert (H1 : crearDetalleVenta sin_fallos (Some lote)
                  (mundo (JStr "0.00")) = (inr _, _))
    by (vm_compute; reflexivity).
  match type of H1 with
  | _ = (inr ?c1, ?w1) =>
      eassert (H2 : crearDetalleVenta sin_fallos (Some lote) w1 = (inr _, _))
        by (vm_compute; reflexivity);
      match type of H2 with _ = (inr ?c2, ?w2) => exists c1, w1, c2, w2 end
  end.
  split; [exact H1 |]. split; [exact H2 |].
  split; [vm_compute; reflexivity |].
  split; vm_compute; reflexivity.
Qed.

(** The same holds when the second call is handed the very array of the
    first, whose lines the first call has filled in. *)
Example segunda_llamada_mismo_arreglo :
  exists c1 w1 c2 w2,
    crearDetalleVenta sin_fallos (Some lote) (mundo (JStr "0.00")) =
      (inr c1, w1) /\
    crearDetalleVenta sin_fallos (Some (map det_item c1)) w1 = (inr c2, w2) /\
    List.length (movimientos (db w2)) = 4%nat /\
    total_de (num 7) (ventas (db w2)) = Some (num 25).
Proof.
  eassert (H1 : crearDetalleVenta sin_fallos (Some lote)
                  (mundo (JStr "0.00")) = (inr _, _))
    by (vm_compute; reflexivity).
  match type of H1 with
  | _ = (inr ?c1, ?w1) =>
      eassert (H2 : crearDetalleVenta sin_fallos (Some (map det_item c1)) w1 =
                    (inr _, _))
        by (vm_compute; reflexivity);
      match type of H2 with _ = (inr ?c2, ?w2) => exists c1, w1, c2, w2 end
  end.
  split; [exact H1 |]. split; [exact H2 |].
  split; vm_compute; reflexivity.
Qed.

Lemma segunda_llamada_witness :
  exists c1 w1 c2 w2,
    crearDetalleVenta sin_fallos (Some lote) (mundo (JStr "0.00")) =
      (inr c1, w1) /\
    crearDetalleVenta sin_fallos (Some lote) w1 = (inr c2, w2) /\
    List.length (movimientos (db w2)) = 4%nat /\
    ventas (db w2) = ventas (db w1).
Proof.
  eassert (H1 : crearDetalleVenta sin_fallos (Some lote)
                  (mundo (JStr "0.00")) = (inr _, _))
    by (vm_compute; reflexivity).
  match type of H1 with
  | _ = (inr ?c1, ?w1) =>
      eassert (H2 : crearDetalleVenta sin_fallos (Some lote) w1 = (inr _, _))
        by (vm_compute; reflexivity);
      match type of H2 with _ = (inr ?c2, ?w2) => exists c1, w1, c2, w2 end
  end.
  split; [exact H1 |]. split; [exact H2 |].
  split; [vm_compute; reflexivity |].
  exact (proj2 (segunda_llamada sin_fallos lote _ _ _ _ _ H1 H2)).
Defined.

(** The caller's price of 2.345 wins over the list price of 10.00, and three
    units come to 7.04, not 7.035; 0.333 units at the list price of 5.00 come
    to 1.67; the caller's sub-total of 99.999 is kept, as 100.00, for a line
    that price times quantity would put at 10.00; and one unit at the
    caller's 0.125 comes to 0.13. *)
Lemma precio_y_sub_total_resueltos_witness :
  exists creado w',
    crearDetalleVenta sin_fallos (Some lote_del_llamador)
      (mundo (JStr "0.00")) = (inr creado, w') /\
    map (fun d => (precio_unitario (det_item d), sub_total (det_item d)))
        creado =
      [(JNum (of_decimal 2345 (-3)), JNum (of_decimal 704 (-2)));
       (num 5, JNum (of_decimal 167 (-2)));
       (num 10, num 100);
       (JNum (of_decimal 125 (-3)), JNum (of_decimal 13 (-2)))] /\
    Forall2 (fun item d =>
               exists producto,
                 In producto (productos (tienda (JStr "0.00"))) /\
                 prod_id producto = producto_id item /\
                 precio_unitario (det_item d) =
                   JNum (if is_nullish (precio_unitario item)
                         then Number (precio_minorista producto)
                         else Number (precio_unitario item)) /\
                 exists s,
                   sub_total (det_item d) = JNum s /\
                   redondeado_2
                     (if is_nullish (sub_total item)
                      then mul (Number (precio_unitario (det_item d)))
                               (Number (cantidad item))
                      else Number (sub_total item))
                     s)
            lote_del_llamador creado.
Proof.
  eassert (H : crearDetalleVenta sin_fallos (Some lote_del_llamador)
                 (mundo (JStr "0.00")) = (inr _, _))
    by (vm_compute; reflexivity).
  match type of H with _ = (inr ?c, ?w) => exists c, w end.
  split; [exact H |]. split; [vm_compute; reflexivity |].
  exact (precio_y_sub_total_resueltos sin_fallos lote_del_llamador _ _ _ H).
Defined.

(** C7, as stated, fails on sub-totals in the tens of trillions, where
    doubles are too coarse for cents: the sub-totals 18156150705911.13,
    13469151122493.04 and 19340324663790.98 add up to 50965626492195.15, the
    loop arrives at 50965626492195.16 and writes that to the order. *)
Lemma total_difiere_de_la_suma :
  exists creado w',
    crearDetalleVenta sin_fallos (Some lote_enorme) (mundo (JStr "0.00")) =
      (inr creado, w') /\
    sub_totales (map det_item creado) =
      map of_cents [1815615070591113; 1346915112249304; 1934032466379098] /\
    total_de (num 7) (ventas (db w')) =
      Some (JNum (of_cents 5096562649219516)) /\
    acumular (sub_totales (map det_item creado)) zero =
      of_cents 5096562649219516 /\
    toFixed2 (suma (sub_totales (map det_item creado))) =
      of_cents 5096562649219515 /\
    eqb (of_cents 5096562649219516) (of_cents 5096562649219515) = false.
Proof.
  eassert (H : crearDetalleVenta sin_fallos (Some lote_enorme)
                 (mundo (JStr "0.00")) = (inr _, _))
    by (vm_compute; reflexivity).
  match type of H with _ = (inr ?c, ?w) => exists c, w end.
  split; [exact H |].
  repeat split; vm_compute; reflexivity.
Qed.

Lemma total_es_suma_redondeada_witness :
  exists creado w' t w1 r w2,
    crearDetalleVenta sin_fallos (Some lote) (mundo (JStr "0.00")) =
      (inr creado, w') /\
    sequelize_transaction sin_fallos (mundo (JStr "0.00")) = (inr t, w1) /\
    preparar sin_fallos t lote w1 = (inr r, w2) /\
    snd r = toFixed2 (suma (sub_totales (map det_item creado))) /\
    snd r = of_Z 25.
Proof.
  eassert (H : crearDetalleVenta sin_fallos (Some lote)
                 (mundo (JStr "0.00")) = (inr _, _))
    by (vm_compute; reflexivity).
  match type of H with _ = (inr ?c, ?w) => exists c, w end.
  destruct (total_es_suma_redondeada sin_fallos lote _ _ _ H)
    as (t & w1 & r & w2 & Et & P & M & S & _).
  - simpl. lia.
  - repeat constructor; vm_compute; reflexivity.
  - exists t, w1, r, w2. split; [exact H |]. split; [exact Et |].
    split; [exact P |]. split; [exact S |].
    rewrite S. vm_compute. reflexivity.
Defined.

End VentasFacts.

Module AuthFacts.
Import Auth.
Local Open Scope string_scope.

(** *** Token verification *)

Section Verificar.

Variable jwt_verify : string -> thrown + JWTPayload.

Lemma verificarToken_ok token payload :
  jwt_verify token = inr payload ->
  verificarToken jwt_verify token = inr payload.
Proof. intros H. unfold verificarToken. rewrite H. reflexivity. Qed.

Lemma verificarToken_expired token error :
  jwt_verify token = inl error ->
  instanceof_TokenExpiredError error = true ->
  verificarToken jwt_verify token = inl (ErrorObj CError "TOKEN_EXPIRED").
Proof. intros H E. unfold verificarToken. rewrite H, E. reflexivity. Qed.

Lemma verificarToken_invalid token error :
  jwt_verify token = inl error ->
  instanceof_TokenExpiredError error = false ->
  instanceof_JsonWebTokenError error = true ->
  verificarToken jwt_verify token = inl (ErrorObj CError "TOKEN_INVALID").
Proof. intros H E J. unfold verificarToken. rewrite H, E, J. reflexivity. Qed.

(** Where a [TOKEN_EXPIRED] error can come from. *)
Lemma verificarToken_expired_inv token :
  verificarToken jwt_verify token = inl (ErrorObj CError "TOKEN_EXPIRED") ->
  exists error,
    jwt_verify token = inl error /\
    (instanceof_TokenExpiredError error = true \/
     error = ErrorObj CError "TOKEN_EXPIRED").
Proof.
  unfold verificarToken. destruct (jwt_verify token) as [error | p];
    [| discriminate].
  destruct (instanceof_TokenExpiredError error) eqn:E.
  - intros _. exists error. split; [reflexivity | left; exact E].
  - destruct (instanceof_JsonWebTokenError error).
    + discriminate.
    + intros H. injection H as ->. exists (ErrorObj CError "TOKEN_EXPIRED").
      split; [reflexivity | right; reflexivity].
Qed.

(** What [autenticarToken] makes of the verdict of [verificarToken]. *)
Lemma autenticarToken_veredicto req w token :
  bearer_token req = Some token ->
  match verificarToken jwt_verify token with
  | inr payload =>
      autenticarToken jwt_verify req w =
        (inr (Next (set_usuario (Some payload) req)), w)
  | inl (ErrorObj _ message) =>
      exists body,
        autenticarToken jwt_verify req w = (inr (Respond 403 body req), w) /\
        b_code body = Some message
  | inl (NonError _) =>
      exists body,
        autenticarToken jwt_verify req w = (inr (Respond 403 body req), w) /\
        b_code body = Some "TOKEN_INVALID"
  end.
Proof.
  intros H. unfold autenticarToken. rewrite H.
  destruct (verificarToken jwt_verify token) as [[c m | v] | payload];
    try reflexivity; eexists; split; reflexivity.
Qed.

Lemma autenticarToken_sin_token req w :
  bearer_token req = None ->
  exists body,
    autenticarToken jwt_verify req w = (inr (Respond 401 body req), w) /\
    b_code body = Some "TOKEN_NOT_PROVIDED".
Proof.
  intros H. unfold autenticarToken. rewrite H. eexists. split; reflexivity.
Qed.

Lemma autenticarToken_almacen req w r w' :
  autenticarToken jwt_verify req w = (r, w') -> w' = w.
Proof.
  unfold autenticarToken. destruct (bearer_token req) as [token |].
  - destruct (verificarToken jwt_verify token); intros E;
      injection E as _ <-; reflexivity.
  - intros E. injection E as _ <-. reflexivity.
Qed.

End Verificar.

(** *** Token verification over the token library *)

Section Biblioteca.

Import Jsonwebtoken.

Variable decodificar : string -> option Contenido.
Variable firma_valida : string -> string -> bool.
Variable reloj : Z.
Variable SECRET_KEY : string.

Local Notation "'jwt_verify_'" :=
  (fun token => verify decodificar firma_valida reloj token SECRET_KEY)
  (only parsing).

(** The three verdicts of [verificarToken], by what the token is. *)
Lemma verificarToken_casos token :
  match decodificar token with
  | None =>
      verificarToken jwt_verify_ token = inl (ErrorObj CError "TOKEN_INVALID")
  | Some c =>
      if firma_valida SECRET_KEY token then
        match c_exp c with
        | Some exp =>
            if (exp <? reloj)%Z
            then verificarToken jwt_verify_ token =
                   inl (ErrorObj CError "TOKEN_EXPIRED")
            else verificarToken jwt_verify_ token = inr (c_payload c)
        | None => verificarToken jwt_verify_ token = inr (c_payload c)
        end
      else
        verificarToken jwt_verify_ token = inl (ErrorObj CError "TOKEN_INVALID")
  end.
Proof.
  unfold verificarToken, verify.
  destruct (decodificar token) as [c |]; [| reflexivity].
  destruct (firma_valida SECRET_KEY token); [| reflexivity].
  cbn [negb]. destruct (c_exp c) as [exp |]; [| reflexivity].
  destruct (exp <? reloj)%Z; reflexivity.
Qed.

(** C8, as the code has it.  A request without a token is answered 401
    [TOKEN_NOT_PROVIDED].
    For a request with one, [verificarToken] fails with [TOKEN_EXPIRED]
    exactly when the token has the structure of a token, its signature
    matches and the current time exceeds the expiry it encodes; it fails with
    [TOKEN_INVALID] exactly when the structure or the signature does not
    match, whatever the token says of its expiry; it returns claims exactly
    when structure and signature match and the expiry, if any, is not
    exceeded, and these are the decoded claims unchanged.  [autenticarToken]
    answers 403 with the code of the failure, or attaches the claims to the
    request and calls [next()].  The identity store is never consulted. *)
Theorem verificacion_de_token req w :
  (bearer_token req = None ->
   exists body,
     autenticarToken jwt_verify_ req w = (inr (Respond 401 body req), w) /\
     b_code body = Some "TOKEN_NOT_PROVIDED") /\
  (forall token,
     bearer_token req = Some token ->
     (verificarToken jwt_verify_ token = inl (ErrorObj CError "TOKEN_EXPIRED")
      <-> (exists c exp,
             decodificar token = Some c /\
             firma_valida SECRET_KEY token = true /\
             c_exp c = Some exp /\ (exp < reloj)%Z)) /\
     (verificarToken jwt_verify_ token = inl (ErrorObj CError "TOKEN_INVALID")
      <-> (decodificar token = None \/
           firma_valida SECRET_KEY token = false)) /\
     (forall payload,
        verificarToken jwt_verify_ token = inr payload
        <-> (exists c,
               decodificar token = Some c /\
               firma_valida SECRET_KEY token = true /\
               (forall exp, c_exp c = Some exp -> (reloj <= exp)%Z) /\
               payload = c_payload c)) /\
     match verificarToken jwt_verify_ token with
     | inr payload =>
         autenticarToken jwt_verify_ req w =
           (inr (Next (set_usuario (Some payload) req)), w)
     | inl error =>
         exists code body,
           error = ErrorObj CError code /\
           (code = "TOKEN_EXPIRED" \/ code = "TOKEN_INVALID") /\
           autenticarToken jwt_verify_ req w =
             (inr (Respond 403 body req), w) /\
           b_code body = Some code
     end) /\
  (forall r w', autenticarToken jwt_verify_ req w = (r, w') -> w' = w).
Proof.
  split; [apply autenticarToken_sin_token |].
  split; [| apply autenticarToken_almacen].
  intros token H.
  pose proof (verificarToken_casos token) as C.
  pose proof (autenticarToken_veredicto jwt_verify_ req w token H) as A.
  destruct (decodificar token) as [c |] eqn:D.
  - destruct (firma_valida SECRET_KEY token) eqn:F.
    + destruct (c_exp c) as [exp |] eqn:X.
      * destruct (exp <? reloj)%Z eqn:L.
        -- apply Z.ltb_lt in L. rewrite C in A |- *.
           split; [| split; [| split]].
           ++ split; [intros _ | reflexivity].
              exists c, exp. repeat split; assumption.
           ++ split; [discriminate | intros [E | E]; discriminate].
           ++ intros payload. split; [discriminate |].
              intros (c' & E & _ & V & _). injection E as <-.
              specialize (V exp X). lia.
           ++ destruct A as (body & A & B). exists "TOKEN_EXPIRED", body.
              split; [reflexivity |]. split; [left; reflexivity |].
              split; assumption.
        -- apply Z.ltb_ge in L. rewrite C in A |- *.
           split; [| split; [| split]].
           ++ split; [discriminate |].
              intros (c' & exp' & E & _ & X' & L'). injection E as <-.
              rewrite X in X'. injection X' as <-. lia.
           ++ split; [discriminate | intros [E | E]; discriminate].
           ++ intros payload. split.
              ** intros E. injection E as <-. exists c.
                 split; [reflexivity |]. split; [reflexivity |].
                 split; [| reflexivity].
                 intros exp' X'. rewrite X in X'. injection X' as <-.
                 exact L.
              ** intros (c' & E & _ & _ & ->). injection E as <-.
                 reflexivity.
           ++ exact A.
      * rewrite C in A |- *. split; [| split; [| split]].
        -- split; [discriminate |].
           intros (c' & exp' & E & _ & X' & _). injection E as <-.
           rewrite X in X'. discriminate.
        -- split; [discriminate | intros [E | E]; discriminate].
        -- intros payload. split.
           ++ intros E. injection E as <-. exists c.
              split; [reflexivity |]. split; [reflexivity |].
              split; [| reflexivity].
              intros exp' X'. rewrite X in X'. discriminate.
           ++ intros (c' & E & _ & _ & ->). injection E as <-. reflexivity.
        -- exact A.
    + rewrite C in A |- *. split; [| split; [| split]].
      * split; [discriminate |].
        intros (c' & exp' & _ & F' & _). discriminate.
      * split; [intros _; right | ]; reflexivity.
      * intros payload. split; [discriminate |].
        intros (c' & _ & F' & _). discriminate.
      * destruct A as (body & A & B). exists "TOKEN_INVALID", body.
        split; [reflexivity |]. split; [right; reflexivity |].
        split; assumption.
  - rewrite C in A |- *. split; [| split; [| split]].
    + split; [discriminate |].
      intros (c' & exp' & E & _). discriminate.
    + split; [intros _; left | ]; reflexivity.
    + intros payload. split; [discriminate |].
      intros (c' & E & _). discriminate.
    + destruct A as (body & A & B). exists "TOKEN_INVALID", body.
      split; [reflexivity |]. split; [right; reflexivity |].
      split; assumption.
Qed.

End Biblioteca.

(** *** The role guard *)

Lemma tienePermiso_intersecta rolesPermitidos rs :
  tienePermiso rolesPermitidos rs = true <-> intersecta rolesPermitidos rs.
Proof.
  unfold tienePermiso, intersecta. rewrite existsb_exists. split.
  - intros (r & Ir & E). apply existsb_exists in E.
    destruct E as (p & Ip & E). apply String.eqb_eq in E. subst p.
    exists r. split; assumption.
  - intros (r & Ir & Ip). exists r. split; [exact Ir |].
    apply existsb_exists. exists r. split; [exact Ip | apply String.eqb_refl].
Qed.

(** Reading the names of assignments that all have their role. *)
Lemma nombres_completos rows : forall rs,
  map ur_rol_nombre rows = map Some rs -> nombres rows = inr rs.
Proof.
  induction rows as [| ur rows IH]; intros [| r rs]; cbn [map nombres];
    try discriminate.
  - reflexivity.
  - intros E. injection E as E1 E2. rewrite E1, (IH _ E2). reflexivity.
Qed.

Lemma map_Some_inj {A} (xs : list A) : forall ys,
  map Some xs = map Some ys -> xs = ys.
Proof.
  induction xs as [| x xs IH]; intros [| y ys]; cbn [map];
    try discriminate.
  - reflexivity.
  - intros E. injection E as -> E. rewrite (IH _ E). reflexivity.
Qed.

(** The roles the guard decides on are the role set of the subject: the
    roles on the request, or those the store assigns to it. *)
Lemma resolver_roles_sujeto u rs w :
  roles_del_sujeto u w = map Some rs ->
  (roles u = None -> disponible w = true) ->
  resolver_roles u w = (inr rs, tras_la_guardia u w).
Proof.
  unfold roles_del_sujeto, resolver_roles, tras_la_guardia, UsuarioRol_findAll.
  destruct (roles u) as [rs' |].
  - intros E _. apply map_Some_inj in E. subst rs'. reflexivity.
  - intros E D. rewrite (D eq_refl), (nombres_completos _ _ E). reflexivity.
Qed.

(** C9. Without an authenticated subject the guard answers 401
    [AUTHENTICATION_REQUIRED].  With one, the role set of the subject is the
    list of roles on the request or, when the request carries none, the names
    of the roles the store assigns to the subject's id, which the guard then
    reads from the store; the guard lets the request through exactly when one
    role of that set is among the required roles, and when none is it answers
    403 [INSUFFICIENT_PERMISSIONS] with the required roles, the subject's
    username and the description of the operation.  Either way the resolved
    roles are left on the request. *)
Theorem guardia_de_roles rolesPermitidos req w :
  (usuario req = None ->
   exists body,
     verificarRol rolesPermitidos req w = (inr (Respond 401 body req), w) /\
     b_code body = Some "AUTHENTICATION_REQUIRED") /\
  (forall u rs,
     usuario req = Some u ->
     roles_del_sujeto u w = map Some rs ->
     (roles u = None -> disponible w = true) ->
     let req' := set_usuario (Some (set_roles rs u)) req in
     let w' := tras_la_guardia u w in
     (verificarRol rolesPermitidos req w = (inr (Next req'), w') <->
      intersecta rolesPermitidos rs) /\
     (~ intersecta rolesPermitidos rs ->
      exists body,
        verificarRol rolesPermitidos req w =
          (inr (Respond 403 body req'), w') /\
        b_code body = Some "INSUFFICIENT_PERMISSIONS" /\
        b_detalles body =
          Some (mkDetalles rolesPermitidos (username u)
                           (obtenerAccionDeRuta req)))).
Proof.
  split.
  - intros H. unfold verificarRol. rewrite H. eexists. split; reflexivity.
  - intros u rs Hu Hs Hd req' w'. unfold verificarRol.
    rewrite Hu, (resolver_roles_sujeto _ _ _ Hs Hd).
    fold req' w'. destruct (tienePermiso rolesPermitidos rs) eqn:T; simpl.
    + apply tienePermiso_intersecta in T. split.
      * split; [intros _; exact T | reflexivity].
      * intros N. contradiction.
    + assert (N : ~ intersecta rolesPermitidos rs).
      { intros I. apply tienePermiso_intersecta in I. congruence. }
      split.
      * split; [discriminate | intros I; contradiction].
      * intros _. eexists. split; [reflexivity |]. split; reflexivity.
Qed.

(** Requiring admin.  With the roles on the request: a seller is turned away,
    an administrator who also sells is let through.  With no roles on the
    request: the subject is let through when the store makes it an
    administrator and turned away when the store makes it a seller, and in
    both cases the store has been asked and the roles are on the request
    afterwards. *)
Lemma guardia_de_roles_witness :
  (exists body,
     verificarRol ["admin"] (peticion None (Some ana)) almacen =
       (inr (Respond 403 body (peticion None (Some ana))), almacen) /\
     b_code body = Some "INSUFFICIENT_PERMISSIONS" /\
     b_detalles body =
       Some (mkDetalles ["admin"] "ana" "Eliminar usuarios")) /\
  verificarRol ["admin"]
    (peticion None (Some (mkPayload 1 "ana" "admin"
                            (Some ["admin"; "vendedor"])))) almacen =
    (inr (Next (peticion None (Some (mkPayload 1 "ana" "admin"
                                       (Some ["admin"; "vendedor"]))))),
     almacen) /\
  verificarRol ["admin"] (peticion None (Some ana_sin_roles))
    almacen_editado =
    (inr (Next (peticion None
                  (Some (mkPayload 1 "ana" "vendedor" (Some ["admin"]))))),
     asked (QUsuarioRolFindAll 1) almacen_editado) /\
  (exists body,
     verificarRol ["admin"] (peticion None (Some ana_sin_roles)) almacen =
       (inr (Respond 403 body
               (peticion None
                  (Some (mkPayload 1 "ana" "vendedor" (Some ["vendedor"]))))),
        asked (QUsuarioRolFindAll 1) almacen) /\
     b_code body = Some "INSUFFICIENT_PERMISSIONS").
Proof.
  split; [| split; [| split]].
  - destruct (proj2 (guardia_de_roles ["admin"] (peticion None (Some ana))
                       almacen) ana ["vendedor"] eq_refl eq_refl
                    ltac:(discriminate))
      as (_ & Deny).
    apply Deny. intros (r & [<- | []] & [E | []]). discriminate.
  - apply (proj1 (proj2 (guardia_de_roles ["admin"]
             (peticion None (Some (mkPayload 1 "ana" "admin"
                                     (Some ["admin"; "vendedor"]))))
             almacen) _ ["admin"; "vendedor"] eq_refl eq_refl
             ltac:(discriminate))).
    exists "admin". split; left; reflexivity.
  - apply (proj1 (proj2 (guardia_de_roles ["admin"]
             (peticion None (Some ana_sin_roles)) almacen_editado)
             ana_sin_roles ["admin"] eq_refl eq_refl
             ltac:(reflexivity))).
    exists "admin". split; left; reflexivity.
  - destruct (proj2 (guardia_de_roles ["admin"]
                       (peticion None (Some ana_sin_roles)) almacen)
                    ana_sin_roles ["vendedor"] eq_refl eq_refl
                    ltac:(reflexivity))
      as (_ & Deny).
    destruct Deny as (body & Hv & Hc & _).
    { intros (r & [<- | []] & [E | []]). discriminate. }
    exists body. split; assumption.
Defined.

(** At the instant 200 the token of ana, which expired at 100, is turned
    away as expired when its signature matches; at the instant 50 it lets
    her in. *)
Lemma verificacion_de_token_witness :
  (exists body,
     autenticarToken
       (fun token =>
          Jsonwebtoken.verify Jsonwebtoken.decodificar_de_prueba
            Jsonwebtoken.firma_valida_de_prueba 200 token "clave")
       (peticion (Some "Bearer ana.clave") None) almacen =
       (inr (Respond 403 body (peticion (Some "Bearer ana.clave") None)),
        almacen) /\
     b_code body = Some "TOKEN_EXPIRED") /\
  verificarToken
    (fun token =>
       Jsonwebtoken.verify Jsonwebtoken.decodificar_de_prueba
         Jsonwebtoken.firma_valida_de_prueba 50 token "clave")
    "ana.clave" = inr ana.
Proof.
  split.
  - destruct (verificacion_de_token Jsonwebtoken.decodificar_de_prueba
                Jsonwebtoken.firma_valida_de_prueba 200 "clave"
                (peticion (Some "Bearer ana.clave") None) almacen)
      as (_ & H & _).
    destruct (H "ana.clave" eq_refl) as (Hexp & _ & _ & Hres).
    assert (E : verificarToken
                  (fun token =>
                     Jsonwebtoken.verify Jsonwebtoken.decodificar_de_prueba
                       Jsonwebtoken.firma_valida_de_prueba 200 token "clave")
                  "ana.clave" = inl (ErrorObj CError "TOKEN_EXPIRED")).
    { apply Hexp. exists (Jsonwebtoken.mkContenido ana (Some 100)), 100.
      repeat split; reflexivity || lia. }
    rewrite E in Hres. destruct Hres as (code & body & Ec & _ & Ha & Hb).
    injection Ec as <-. exists body. split; assumption.
  - destruct (verificacion_de_token Jsonwebtoken.decodificar_de_prueba
                Jsonwebtoken.firma_valida_de_prueba 50 "clave"
                (peticion (Some "Bearer ana.clave") None) almacen)
      as (_ & H & _).
    destruct (H "ana.clave" eq_refl) as (_ & _ & Hok & _).
    apply Hok. exists (Jsonwebtoken.mkContenido ana (Some 100)).
    split; [reflexivity |]. split; [reflexivity |].
    split; [| reflexivity].
    intros exp E. injection E as <-. lia.
Defined.

(** C8, as stated, fails: a token of ana that encodes the expiry 100 and
    whose signature does not match is turned away, at the instant 200, as
    invalid, not as expired. *)
Lemma vencido_y_mal_firmado :
  Jsonwebtoken.decodificar_de_prueba "ana.otra" =
    Some (Jsonwebtoken.mkContenido ana (Some 100)) /\
  (100 < 200)%Z /\
  verificarToken
    (fun token =>
       Jsonwebtoken.verify Jsonwebtoken.decodificar_de_prueba
         Jsonwebtoken.firma_valida_de_prueba 200 token "clave")
    "ana.otra" = inl (ErrorObj CError "TOKEN_INVALID") /\
  exists body,
    autenticarToken
      (fun token =>
         Jsonwebtoken.verify Jsonwebtoken.decodificar_de_prueba
           Jsonwebtoken.firma_valida_de_prueba 200 token "clave")
      (peticion (Some "Bearer ana.otra") None) almacen =
      (inr (Respond 403 body (peticion (Some "Bearer ana.otra") None)),
       almacen) /\
    b_code body = Some "TOKEN_INVALID".
Proof.
  split; [reflexivity |]. split; [lia |]. split; [reflexivity |].
  eexists. split; reflexivity.
Qed.

(** *** Roles carried by the request *)

(** With a roles list on the request the guard reads nothing else. *)
Lemma resolver_roles_cached u rs w :
  roles u = Some rs -> resolver_roles u w = (inr rs, w).
Proof. intros H. unfold resolver_roles. rewrite H. reflexivity. Qed.

Lemma set_roles_cached u rs : roles u = Some rs -> set_roles rs u = u.
Proof. intros H. destruct u. simpl in *. subst. reflexivity. Qed.

Lemma set_usuario_same req u :
  usuario req = Some u -> set_usuario (Some u) req = req.
Proof. intros H. destruct req. simpl in *. subst. reflexivity. Qed.

Section Sesion.

Variable jwt_sign : JWTPayload -> string.
Variable jwt_verify : string -> thrown + JWTPayload.
Variable argon2_verify : string -> option string -> thrown + bool.
Variable ahora : Z.

(** A login that answers 200 has signed the subject's role list, as the
    store had it then, into the token. *)
Lemma login_ok body w0 b w0' :
  login jwt_sign argon2_verify ahora body w0 = ((200, b), w0') ->
  exists u rs,
    nombres (filter (fun ur => (ur_usuario_id ur =? u_id u)%Z)
                    (usuarios_roles w0)) = inr rs /\
    b_data b =
      Some (mkLoginData (jwt_sign (login_payload u rs)) "1h"
              (mkLoginUsuario (u_id u) (u_username u) (u_email u) rs
                 (u_mustChangePassword u))).
Proof.
  unfold login.
  destruct (Usuario_findOne body w0) as [[e | [u |]] w1] eqn:F;
    try (intros H; discriminate).
  destruct (negb (u_activo u)); [intros H; discriminate |].
  destruct (argon2_verify (u_password u) (lb_password body)) as [e | [|]];
    try (intros H; discriminate).
  assert (Hw1 : usuarios_roles w1 = usuarios_roles w0 /\
                disponible w1 = disponible w0).
  { unfold Usuario_findOne in F.
    destruct (negb (disponible w0)); [discriminate |].
    destruct (match lb_email body with
              | Some e => if String.eqb e EmptyString then None else Some e
              | None => None
              end), (lb_username body);
      try discriminate; injection F as _ <-; split; reflexivity. }
  destruct Hw1 as (Hr & Hd).
  unfold UsuarioRol_findAll. rewrite Hr.
  destruct (disponible w1); [| intros H; discriminate].
  destruct (nombres _) as [e | rs] eqn:N; [intros H; discriminate |].
  destruct (Usuario_save _ _) as [[e | x] w3]; [intros H; discriminate |].
  intros H. injection H as <- _. exists u, rs. split; [exact N | reflexivity].
Qed.

(** C10. When the request already carries a roles list, the guard sends no
    query to the store and its answer depends on that list alone.  The list
    may come from the bearer token: [login] signs the subject's roles into the
    token, [autenticarToken] attaches the decoded claims to the request, and
    so, for as long as the library accepts the token, the guard decides by the
    roles of login time whatever the store says by then. *)
Theorem roles_del_token rolesPermitidos :
  (forall req u rs,
     usuario req = Some u ->
     roles u = Some rs ->
     exists o,
       (forall w, verificarRol rolesPermitidos req w = (inr o, w)) /\
       (o = Next req <-> intersecta rolesPermitidos rs)) /\
  (forall body w0 b w0' data req,
     login jwt_sign argon2_verify ahora body w0 = ((200, b), w0') ->
     b_data b = Some data ->
     (forall payload,
        jwt_sign payload = token data ->
        jwt_verify (token data) = inr payload) ->
     bearer_token req = Some (token data) ->
     exists req1 o,
       (forall w,
          autenticarToken jwt_verify req w = (inr (Next req1), w) /\
          verificarRol rolesPermitidos req1 w = (inr o, w)) /\
       (o = Next req1 <->
        intersecta rolesPermitidos (lu_roles (data_usuario data))) /\
       nombres (filter (fun ur =>
                          (ur_usuario_id ur =? lu_id (data_usuario data))%Z)
                       (usuarios_roles w0)) =
         inr (lu_roles (data_usuario data))).
Proof.
  assert (Cached : forall req u rs,
     usuario req = Some u ->
     roles u = Some rs ->
     exists o,
       (forall w, verificarRol rolesPermitidos req w = (inr o, w)) /\
       (o = Next req <-> intersecta rolesPermitidos rs)).
  { intros req u rs Hu Hr.
    destruct (tienePermiso rolesPermitidos rs) eqn:T.
    - exists (Next req). split.
      + intros w. unfold verificarRol.
        rewrite Hu, (resolver_roles_cached _ _ _ Hr), T.
        rewrite (set_roles_cached _ _ Hr), (set_usuario_same _ _ Hu).
        reflexivity.
      + split; [intros _ | reflexivity].
        apply tienePermiso_intersecta. exact T.
    - eexists. split.
      + intros w. unfold verificarRol.
        rewrite Hu, (resolver_roles_cached _ _ _ Hr), T.
        rewrite (set_roles_cached _ _ Hr), (set_usuario_same _ _ Hu).
        reflexivity.
      + split; [discriminate |].
        intros I. apply tienePermiso_intersecta in I. congruence. }
  split; [exact Cached |].
  intros body w0 b w0' data req L D V B.
  destruct (login_ok _ _ _ _ L) as (u & rs & Nr & D').
  rewrite D in D'. injection D' as ->.
  cbn [token data_usuario lu_roles lu_id] in *.
  set (req1 := set_usuario (Some (login_payload u rs)) req).
  destruct (Cached req1 (login_payload u rs) rs) as (o & Ho & Hi).
  { destruct req; reflexivity. }
  { reflexivity. }
  exists req1, o. split; [| split; [exact Hi | exact Nr]].
  intros w. split; [| apply Ho].
  unfold autenticarToken. rewrite B. unfold verificarToken.
  rewrite (V _ eq_refl). reflexivity.
Qed.

End Sesion.

(** Ana logs in as a seller; an administrator then makes her an
    administrator in the store; with her old token the guard still treats
    her as a seller, and asks the store nothing. *)
Lemma lista_eqb_eq a : forall b, lista_eqb a b = true -> a = b.
Proof.
  induction a as [| x a IH]; intros [| y b]; simpl; try discriminate.
  - reflexivity.
  - intros H. apply andb_true_iff in H. destruct H as (E & H).
    apply String.eqb_eq in E. rewrite (IH _ H), E. reflexivity.
Qed.

Lemma payload_eqb_eq p q : payload_eqb p q = true -> p = q.
Proof.
  unfold payload_eqb. destruct p as [i u r rs], q as [i' u' r' rs']. simpl.
  intros H. repeat (apply andb_true_iff in H; destruct H as (H & ?)).
  apply Z.eqb_eq in H. apply String.eqb_eq in H2. apply String.eqb_eq in H1.
  subst. destruct rs as [a |], rs' as [b |]; try discriminate.
  - rewrite (lista_eqb_eq _ _ H0). reflexivity.
  - reflexivity.
Qed.

Lemma roles_del_token_witness :
  exists b w0' data,
    login firma_de_prueba (fun _ _ => inr true) 100
      (mkLoginBody (Some "ana@tienda.test") None (Some "secreto")) almacen =
      ((200, b), w0') /\
    b_data b = Some data /\
    exists body,
      autenticarToken jwt_de_prueba (peticion (Some "Bearer vigente") None)
        almacen_editado =
        (inr (Next (peticion (Some "Bearer vigente") (Some ana))),
         almacen_editado) /\
      verificarRol ["admin"]
        (peticion (Some "Bearer vigente") (Some ana)) almacen_editado =
        (inr (Respond 403 body (peticion (Some "Bearer vigente") (Some ana))),
         almacen_editado).
Proof.
  do 3 eexists. split; [reflexivity |]. split; [reflexivity |].
  destruct (proj2 (roles_del_token firma_de_prueba jwt_de_prueba
                     (fun _ _ => inr true) 100 ["admin"])
              (mkLoginBody (Some "ana@tienda.test") None (Some "secreto"))
              almacen _ _ _ (peticion (Some "Bearer vigente") None)
              eq_refl eq_refl)
    as (req1 & o & H & _).
  - intros payload. cbn [token]. unfold firma_de_prueba.
    destruct (payload_eqb payload ana) eqn:E; [| discriminate].
    intros _. apply payload_eqb_eq in E. subst. reflexivity.
  - reflexivity.
  - destruct (H almacen_editado) as (Ha & Hv).
    assert (R : req1 = peticion (Some "Bearer vigente") (Some ana)).
    { cbv in Ha. injection Ha as <-. reflexivity. }
    subst req1. eexists. split; [exact Ha |].
    rewrite Hv. cbv in Hv. injection Hv as <-. reflexivity.
Defined.

End AuthFacts.

Module TrazasFacts.
Import JsNum Js Ventas Trazas JsFacts VentasFacts.
Local Open Scope js_scope.

(** *** Store calls, one computation at a time *)

Lemma emite_nada {A} (P : Op -> Prop) (m : M A) :
  (forall w r w', m w = (r, w') -> trace w' = trace w) -> emite P m.
Proof.
  intros H w r w' E. exists []. rewrite app_nil_r.
  split; [exact (H _ _ _ E) | constructor].
Qed.

Lemma emite_ret {A} P (a : A) : emite P (ret a).
Proof. apply emite_nada. intros w r w' E. injection E as _ <-. reflexivity. Qed.

Lemma emite_throw {A} P e : emite P (@throw A e).
Proof. apply emite_nada. intros w r w' E. injection E as _ <-. reflexivity. Qed.

Lemma emite_bind {A B} P (m : M A) (k : A -> M B) :
  emite P m -> (forall a, emite P (k a)) -> emite P (bind m k).
Proof.
  intros Hm Hk w r w'. unfold bind.
  destruct (m w) as [[e | a] w1] eqn:E; intros H.
  - injection H as <- <-. exact (Hm _ _ _ E).
  - destruct (Hm _ _ _ E) as (o1 & T1 & F1).
    destruct (Hk a _ _ _ H) as (o2 & T2 & F2).
    exists (o1 ++ o2). rewrite T2, T1, app_assoc.
    split; [reflexivity | apply Forall_app; split; assumption].
Qed.

Lemma emite_try_catch {A} P (m : M A) (h : JsError -> M A) :
  emite P m -> (forall e, emite P (h e)) -> emite P (try_catch m h).
Proof.
  intros Hm Hh w r w'. unfold try_catch.
  destruct (m w) as [[e | a] w1] eqn:E; intros H.
  - destruct (Hm _ _ _ E) as (o1 & T1 & F1).
    destruct (Hh e _ _ _ H) as (o2 & T2 & F2).
    exists (o1 ++ o2). rewrite T2, T1, app_assoc.
    split; [reflexivity | apply Forall_app; split; assumption].
  - injection H as <- <-. exact (Hm _ _ _ E).
Qed.

Section ConFallos.

Variable fault : nat -> option JsError.

Lemma emite_issue (P : Op -> Prop) o : P o -> emite P (issue fault o).
Proof.
  intros Ho w r w'. unfold issue.
  destruct (fault (calls w)); intros E; injection E as _ <-;
    exists [o]; (split; [reflexivity | constructor; [exact Ho | constructor]]).
Qed.

Lemma emite_view P t : emite P (view t).
Proof.
  apply emite_nada. intros w r w'. unfold view. destruct t as [h |].
  - destruct (tx w) as [[h' tb] |]; [destruct (Nat.eqb h h') |];
      intros E; injection E as _ <-; reflexivity.
  - intros E; injection E as _ <-; reflexivity.
Qed.

Lemma emite_store P t tb : emite P (store t tb).
Proof.
  apply emite_nada. intros w r w'. unfold store.
  destruct t; intros E; injection E as _ <-; reflexivity.
Qed.

Lemma emite_fresh_mov P : emite P fresh_mov.
Proof. apply emite_nada. intros w r w' E. injection E as _ <-. reflexivity. Qed.

Lemma emite_fresh_dets P n : emite P (fresh_dets n).
Proof. apply emite_nada. intros w r w' E. injection E as _ <-. reflexivity. Qed.

Lemma emite_rollback (P : Op -> Prop) t :
  P (OpRollback t) -> emite P (rollback t).
Proof.
  intros Ho w r w' E. injection E as _ <-. exists [OpRollback t].
  split; [reflexivity | constructor; [exact Ho | constructor]].
Qed.

Lemma bajo_mismo t :
  (forall ids, bajo t (OpFindAllProductos ids (Some t)) = true) /\
  (forall d, bajo t (OpCrearMovimiento d (Some t)) = true) /\
  (forall items, bajo t (OpBulkCreate items (Some t)) = true) /\
  (forall id l, bajo t (OpFindOneVenta id l (Some t)) = true) /\
  (forall v, bajo t (OpSaveVenta v (Some t)) = true) /\
  bajo t (OpCommit t) = true /\ bajo t (OpRollback t) = true.
Proof. repeat split; intros; cbn; apply Nat.eqb_refl. Qed.

Lemma emite_procesar t pm items : forall tot,
  emite (fun o => bajo t o = true) (procesar fault pm t items tot).
Proof.
  induction items as [| item rest IH]; intros tot; cbn [procesar].
  - apply emite_ret.
  - destruct (negb (truthy (producto_id item))); [apply emite_throw |].
    destruct (negb (truthy (cantidad item)) || leb (Number (cantidad item)) zero);
      [apply emite_throw |].
    destruct (map_get pm (producto_id item)) as [producto |];
      [| apply emite_throw].
    apply emite_bind.
    + unfold crearMovimiento.
      apply emite_bind; [apply emite_issue, bajo_mismo | intro].
      apply emite_bind; [apply emite_view | intro].
      apply emite_bind; [apply emite_fresh_mov | intro].
      apply emite_bind; [apply emite_store | intro]. apply emite_ret.
    + intro. apply emite_bind; [apply IH | intro; apply emite_ret].
Qed.

Lemma emite_intento t items :
  emite (fun o => bajo t o = true) (intento fault t items).
Proof.
  unfold intento, preparar.
  apply emite_bind.
  { apply emite_bind.
    - unfold Producto_findAll.
      apply emite_bind; [apply emite_issue, bajo_mismo | intro].
      apply emite_bind; [apply emite_view | intro]. apply emite_ret.
    - intro. apply emite_procesar. }
  intros r. apply emite_bind.
  { unfold DetalleVenta_bulkCreate.
    apply emite_bind; [apply emite_issue, bajo_mismo | intro].
    apply emite_bind; [apply emite_view | intro].
    apply emite_bind; [apply emite_fresh_dets | intro].
    apply emite_bind; [apply emite_store | intro]. apply emite_ret. }
  intros creado.
  destruct (negb (truthy (primera_venta_id (fst r)))); [apply emite_throw |].
  apply emite_bind.
  { unfold Venta_findOne.
    apply emite_bind; [apply emite_issue, bajo_mismo | intro].
    apply emite_bind; [apply emite_view | intro]. apply emite_ret. }
  intros [venta |]; [| apply emite_throw].
  apply emite_bind.
  { unfold actualizar_total.
    destruct (debe_actualizar venta (snd r)); [| apply emite_ret].
    unfold Venta_save.
    apply emite_bind; [apply emite_issue, bajo_mismo | intro].
    apply emite_bind; [apply emite_view | intro]. apply emite_store. }
  intro. apply emite_bind.
  { unfold commit.
    apply emite_bind; [apply emite_issue, bajo_mismo | intro].
    apply emite_bind; [apply emite_view | intro].
    apply emite_nada. intros w r0 w' E. injection E as _ <-. reflexivity. }
  intro. apply emite_ret.
Qed.

(** X1. [crearDetalleVenta] makes every store call under its transaction:
    whatever the input, the outcome and the store calls that reject, the
    calls it adds to the log are the begin call and then only calls that
    are given the handle, and the commit or the rollback of that handle.
    For an input that is no array, or an empty one, it makes no store call
    at all. *)
Theorem todo_en_la_transaccion input w r w' :
  crearDetalleVenta fault input w = (r, w') ->
  (input = None \/ input = Some [] -> trace w' = trace w) /\
  (trace w' = trace w \/
   exists t ops,
     trace w' = trace w ++ OpTransaction :: ops /\
     forallb (bajo t) ops = true).
Proof.
  unfold crearDetalleVenta.
  destruct input as [[| item rest] |];
    try (intros E; injection E as _ <-; split; [reflexivity |];
         left; reflexivity).
  intros E. split; [intros [N | N]; discriminate |]. right.
  unfold bind in E.
  destruct (sequelize_transaction fault w) as [[e | t] w1] eqn:Et.
  - injection E as _ <-.
    unfold sequelize_transaction, bind, issue in Et.
    destruct (fault (calls w)); [| discriminate].
    injection Et as _ <-. exists 0%nat, []. split; reflexivity.
  - assert (T1 : trace w1 = trace w ++ [OpTransaction]).
    { unfold sequelize_transaction, bind, issue in Et.
      destruct (fault (calls w)); [discriminate |].
      injection Et as _ <-. reflexivity. }
    assert (H : emite (fun o => bajo t o = true)
                  (try_catch (intento fault t (item :: rest))
                     (fun error => rollback t ;;; throw error))).
    { apply emite_try_catch; [apply emite_intento | intro].
      apply emite_bind; [apply emite_rollback, bajo_mismo | intro].
      apply emite_throw. }
    destruct (H _ _ _ E) as (ops & T & F).
    exists t, ops. split.
    + rewrite T, T1, <- app_assoc. reflexivity.
    + apply forallb_forall. intros o Ho.
      rewrite Forall_forall in F. exact (F o Ho).
Qed.

(** *** The store calls of a posting that succeeds *)

Lemma actualizar_total_traza venta ts t tb w u w' :
  tx w = Some (t, tb) ->
  actualizar_total fault venta ts t w = (inr u, w') ->
  tx w' <> None /\
  (exists tb', tx w' = Some (t, tb')) /\
  calls w' = (calls w
              + if debe_actualizar venta ts then 1 else 0)%nat /\
  trace w' =
    trace w ++ (if debe_actualizar venta ts
                then [OpSaveVenta (mkVenta (venta_pk venta) (JNum ts))
                                  (Some t)]
                else []).
Proof.
  intros Htx. unfold actualizar_total.
  destruct (debe_actualizar venta ts).
  - unfold Venta_save, bind, issue.
    destruct (fault (calls w)); [discriminate |].
    rewrite (view_open t tb) by exact Htx.
    cbn. intros E. injection E as _ <-. cbn.
    split; [discriminate |]. split; [eexists; reflexivity |].
    split; [lia | reflexivity].
  - intros E. injection E as _ <-. rewrite Htx, app_nil_r.
    split; [discriminate |]. split; [eexists; reflexivity |].
    split; [lia | reflexivity].
Qed.

Lemma transaction_handle w t w' :
  sequelize_transaction fault w = (inr t, w') -> t = S (calls w).
Proof.
  unfold sequelize_transaction, bind, issue.
  destruct (fault (calls w)); [discriminate |].
  cbn. intros E. injection E as <- _. reflexivity.
Qed.

Lemma crear_traza items w creado w' :
  crearDetalleVenta fault (Some items) w = (inr creado, w') ->
  exists items' venta,
    lineas (indice (db w) items) (next_mov w) items = Some items' /\
    creado = number_from (next_det w) items' /\
    find (fun v => same_value_zero (venta_pk v) (primera_venta_id items))
         (ventas (db w)) = Some venta /\
    trace w' =
      trace w ++
      llamadas (S (calls w)) (set_of [] (map producto_id items)) items'
        (primera_venta_id items)
        (if debe_actualizar venta (acumular (sub_totales items') zero)
         then Some (mkVenta (venta_pk venta)
                      (JNum (acumular (sub_totales items') zero)))
         else None).
Proof.
  intros E. unfold crearDetalleVenta in E.
  destruct items as [| i0 r0]; [discriminate |].
  set (items := i0 :: r0) in *.
  apply bind_inr in E. destruct E as (t & w1 & Et & E).
  pose proof (transaction_handle _ _ _ Et) as Ht.
  apply transaction_inr in Et. destruct Et as (_ & ->).
  unfold try_catch in E.
  destruct (intento fault t items _) as [[e | c] w2] eqn:I.
  { unfold rollback, bind, throw in E. discriminate. }
  injection E as <- <-.
  unfold intento in I.
  apply bind_inr in I. destruct I as (r & w3 & P & I).
  unfold preparar in P.
  apply bind_inr in P. destruct P as (ps & w4 & F & P).
  apply (findAll_inr _ _ _ (db w)) in F; [| reflexivity].
  destruct F as (-> & ->).
  apply (procesar_inr _ _ _ _ _ (db w)) in P; [| reflexivity].
  cbn [next_mov db next_det calls trace log] in P.
  destruct P as (L & T & ->).
  apply bind_inr in I. destruct I as (c' & w5 & B & I).
  eapply bulkCreate_inr in B; [| reflexivity].
  cbn [next_mov db next_det calls trace] in B.
  destruct B as (-> & ->).
  destruct (lineas_primera _ _ _ _ L) as (Hp & Hl).
  destruct (negb (truthy (primera_venta_id (fst r)))) eqn:Tv; [discriminate |].
  apply bind_inr in I. destruct I as (v & w6 & O & I).
  eapply findOne_inr in O; [| reflexivity].
  cbn [ventas con_movimientos log] in O. destruct O as (-> & ->).
  destruct (find _ (ventas (db w))) as [venta |] eqn:Fv; [| discriminate].
  apply bind_inr in I. destruct I as (u & w7 & A & I).
  eapply actualizar_total_traza in A; [| reflexivity].
  destruct A as (_ & (tb' & Htx) & _ & Ta).
  apply bind_inr in I. destruct I as (u' & w8 & C & I).
  eapply commit_inr in C; [| exact Htx].
  injection I as <- <-. subst w8.
  exists (fst r), venta.
  rewrite Hp in Fv.
  split; [exact L |]. split; [reflexivity |]. split; [exact Fv |].
  cbn [trace]. rewrite Ta. cbn [trace log]. rewrite <- T, Hp, <- Ht.
  unfold llamadas. rewrite <- !app_assoc. cbn [app].
  destruct (debe_actualizar venta (snd r)); reflexivity.
Qed.

(** X2. A posting that succeeds makes one product read for the whole batch,
    for its distinct product ids, then one movement write per line, in the
    order of the lines, one bulk insert of the lines, one locked read of
    the order, one write of the order when its total changes, and the
    commit: five or six store calls more than there are lines. *)
Theorem llamadas_de_un_exito items w creado w' :
  crearDetalleVenta fault (Some items) w = (inr creado, w') ->
  exists guardada,
    trace w' =
      trace w ++
      llamadas (S (calls w)) (set_of [] (map producto_id items))
        (map det_item creado) (primera_venta_id items) guardada /\
    List.length (map det_item creado) = List.length items /\
    (List.length (llamadas (S (calls w))
                    (set_of [] (map producto_id items))
                    (map det_item creado) (primera_venta_id items) guardada)
     = List.length items + 5
       + match guardada with Some _ => 1 | None => 0 end)%nat.
Proof.
  intros E. apply crear_traza in E.
  destruct E as (items' & venta & L & -> & _ & T).
  rewrite number_from_items.
  destruct (lineas_primera _ _ _ _ L) as (_ & Hl).
  eexists. split; [exact T |]. split; [exact Hl |].
  unfold llamadas. rewrite !length_app, length_map, Hl.
  destruct (debe_actualizar _ _); cbn [List.length]; lia.
Qed.

Lemma lineas_movimientos pm items : forall id items' nd,
  lineas pm id items = Some items' ->
  Forall2 (fun d m =>
             movimiento_id (det_item d) = JNum (of_Z (mov_id m)) /\
             mov_data m = salida (det_item d))
          (number_from nd items') (salidas id items').
Proof.
  induction items as [| item rest IH]; intros id items' nd; cbn [lineas].
  - intros E. injection E as <-. constructor.
  - destruct (rechazada item); [discriminate |].
    destruct (map_get pm (producto_id item)) as [producto |];
      [| discriminate].
    destruct (lineas pm (id + 1) rest) as [r |] eqn:L; [| discriminate].
    intros E. injection E as <-.
    cbn [number_from salidas]. constructor.
    + split; reflexivity.
    + apply IH. exact L.
Qed.

Lemma Forall2_In_l {A B} (P : A -> B -> Prop) xs ys :
  Forall2 P xs ys -> Forall (fun x => exists y, In y ys /\ P x y) xs.
Proof.
  induction 1 as [| x y xs ys Hxy _ IH]; constructor.
  - exists y. split; [left; reflexivity | exact Hxy].
  - revert IH. apply Forall_impl. intros a (b & Ib & Pab).
    exists b. split; [right; exact Ib | exact Pab].
Qed.

(** X3. A posting that succeeds has added one movement for each line, in
    the order of the lines, and the movement at the place of a line is a
    stock exit of that line's product, warehouse, quantity and unit price,
    described by the line's order.  Every returned line refers, in
    [movimiento_id], to a movement added by the call that is such an exit
    for it. *)
Theorem linea_y_movimiento items w creado w' :
  crearDetalleVenta fault (Some items) w = (inr creado, w') ->
  exists nuevos,
    movimientos (db w') = movimientos (db w) ++ nuevos /\
    List.length nuevos = List.length items /\
    Forall2 (fun d m =>
               tipo (mov_data m) = "salida"%string /\
               mov_producto_id (mov_data m) = producto_id (det_item d) /\
               mov_almacen_id (mov_data m) = almacen_id (det_item d) /\
               mov_cantidad (mov_data m) = cantidad (det_item d) /\
               mov_precio_unitario (mov_data m) =
                 precio_unitario (det_item d) /\
               descripcion (mov_data m) =
                 [Lit "Salida por venta ID: "; Interp (venta_id (det_item d))])
            creado nuevos /\
    Forall (fun d =>
              exists m,
                In m nuevos /\
                movimiento_id (det_item d) = JNum (of_Z (mov_id m)) /\
                tipo (mov_data m) = "salida"%string /\
                mov_producto_id (mov_data m) = producto_id (det_item d) /\
                mov_almacen_id (mov_data m) = almacen_id (det_item d) /\
                mov_cantidad (mov_data m) = cantidad (det_item d) /\
                mov_precio_unitario (mov_data m) =
                  precio_unitario (det_item d) /\
                descripcion (mov_data m) =
                  [Lit "Salida por venta ID: ";
                   Interp (venta_id (det_item d))])
           creado.
Proof.
  intros E. apply crear_inr in E.
  destruct E as (items' & venta & L & -> & _ & _ & Hdb & _).
  exists (salidas (next_mov w) items').
  rewrite Hdb. split; [reflexivity |].
  pose proof (lineas_movimientos _ _ _ _ (next_det w) L) as F.
  split; [| split].
  - destruct (lineas_primera _ _ _ _ L) as (_ & Hl).
    rewrite <- Hl, salidas_length. reflexivity.
  - revert F. apply Forall2_impl. intros d m (_ & ->).
    repeat split; reflexivity.
  - apply Forall2_In_l in F. revert F. apply Forall_impl.
    intros d (m & Im & Hid & Hm). exists m. rewrite Hm.
    split; [exact Im |]. split; [exact Hid |]. repeat split; reflexivity.
Qed.

End ConFallos.


(** *** The theorems at work *)

(** The second line names an unknown product: the batch read, the movement
    of the first line and the rollback are all under the handle. *)
Lemma todo_en_la_transaccion_witness :
  exists e w' t ops,
    crearDetalleVenta sin_fallos (Some lote_ausente) (mundo (JStr "0.00"))
      = (inl e, w') /\
    trace w' = OpTransaction :: ops /\
    List.length ops = 3%nat /\
    forallb (bajo t) ops = true.
Proof.
  eassert (H : crearDetalleVenta sin_fallos (Some lote_ausente)
                 (mundo (JStr "0.00")) = (inl _, _))
    by (vm_compute; reflexivity).
  match type of H with _ = (inl ?e, ?w) => exists e, w end.
  destruct (proj2 (todo_en_la_transaccion sin_fallos _ _ _ _ H))
    as [Hsame | (t & ops & Ht & Hb)].
  - exfalso. revert Hsame. vm_compute. discriminate.
  - exists t, ops. cbn [trace mundo app] in Ht.
    split; [exact H |]. split; [exact Ht |]. split; [| exact Hb].
    injection Ht as <-. reflexivity.
Defined.

Lemma llamadas_de_un_exito_witness :
  exists creado w' guardada,
    crearDetalleVenta sin_fallos (Some lote) (mundo (JStr "0.00"))
      = (inr creado, w') /\
    trace w' =
      llamadas 1%nat [num 1; num 2] (map det_item creado) (num 7) guardada /\
    List.length (trace w')
    = (2 + 5 + match guardada with Some _ => 1 | None => 0 end)%nat.
Proof.
  eassert (H : crearDetalleVenta sin_fallos (Some lote)
                 (mundo (JStr "0.00")) = (inr _, _))
    by (vm_compute; reflexivity).
  match type of H with _ = (inr ?c, ?w) => exists c, w end.
  destruct (llamadas_de_un_exito sin_fallos _ _ _ _ H)
    as (guardada & Ht & _ & Hn).
  exists guardada.
  assert (Hids : set_of [] (map producto_id lote) = [num 1; num 2])
    by (vm_compute; reflexivity).
  rewrite Hids in Ht, Hn.
  split; [exact H |]. split; [exact Ht |].
  rewrite Ht. exact Hn.
Defined.

(** The two lines of the sample batch: movements 1 and 2 are added, and
    the lines refer to them. *)
Lemma linea_y_movimiento_witness :
  exists creado w' nuevos,
    crearDetalleVenta sin_fallos (Some lote) (mundo (JStr "0.00"))
      = (inr creado, w') /\
    movimientos (db w') = nuevos /\
    map mov_id nuevos = [1; 2] /\
    map (fun d => movimiento_id (det_item d)) creado = [num 1; num 2] /\
    Forall (fun d =>
              exists m,
                In m nuevos /\
                movimiento_id (det_item d) = JNum (of_Z (mov_id m)) /\
                tipo (mov_data m) = "salida"%string /\
                mov_producto_id (mov_data m) = producto_id (det_item d) /\
                mov_almacen_id (mov_data m) = almacen_id (det_item d) /\
                mov_cantidad (mov_data m) = cantidad (det_item d) /\
                mov_precio_unitario (mov_data m) =
                  precio_unitario (det_item d) /\
                descripcion (mov_data m) =
                  [Lit "Salida por venta ID: ";
                   Interp (venta_id (det_item d))])
           creado.
Proof.
  eassert (H : crearDetalleVenta sin_fallos (Some lote)
                 (mundo (JStr "0.00")) = (inr _, _))
    by (vm_compute; reflexivity).
  match type of H with
  | _ = (inr ?c, ?w) => exists c, w; set (w' := w) in *
  end.
  destruct (linea_y_movimiento sin_fallos _ _ _ _ H)
    as (nuevos & Hm & _ & _ & Hf).
  assert (Hn : movimientos (db w') = nuevos) by exact Hm.
  exists nuevos. split; [exact H |]. split; [exact Hn |].
  split; [rewrite <- Hn; vm_compute; reflexivity |].
  split; [vm_compute; reflexivity | exact Hf].
Defined.

End TrazasFacts.

Module ServiciosFacts.
Import JsNum Js Servicios JsNumFacts.
Local Open Scope orm_scope.

(** *** The monad *)

Lemma ligar_inr {A B} (m : M A) (k : A -> M B) w b w' :
  bind m k w = (inr b, w') ->
  exists a w1, m w = (inr a, w1) /\ k a w1 = (inr b, w').
Proof.
  unfold bind. destruct (m w) as [[e | a] w1]; intros H.
  - discriminate.
  - exists a, w1. split; [reflexivity | exact H].
Qed.

Lemma ligar_inl {A B} (m : M A) (k : A -> M B) w e w' :
  bind m k w = (inl e, w') ->
  m w = (inl e, w') \/
  exists a w1, m w = (inr a, w1) /\ k a w1 = (inl e, w').
Proof.
  unfold bind. destruct (m w) as [[e1 | a] w1]; intros H.
  - left. injection H as <- <-. reflexivity.
  - right. exists a, w1. split; [reflexivity | exact H].
Qed.

Lemma ligar_paso {A B} (m : M A) (k : A -> M B) w a w1 :
  m w = (inr a, w1) -> bind m k w = k a w1.
Proof. intros H. unfold bind. rewrite H. reflexivity. Qed.

(** *** The committed tables during a transaction *)

Lemma conserva_debil {A} (m : M A) : conserva m -> conserva_si_falla m.
Proof. intros H w e w' E. exact (H _ _ _ E). Qed.

Lemma conserva_ret {A} (a : A) : conserva (ret a).
Proof. intros w r w' E. injection E as _ <-. reflexivity. Qed.

Lemma conserva_throw {A} e : conserva (@throw A e).
Proof. intros w r w' E. injection E as _ <-. reflexivity. Qed.

Lemma conserva_bind {A B} (m : M A) (k : A -> M B) :
  conserva m -> (forall a, conserva (k a)) -> conserva (bind m k).
Proof.
  intros Hm Hk w r w'. unfold bind.
  destruct (m w) as [[e | a] w1] eqn:E; intros H.
  - injection H as _ <-. exact (Hm _ _ _ E).
  - rewrite (Hk a _ _ _ H). exact (Hm _ _ _ E).
Qed.

Lemma conserva_bind_si_falla {A B} (m : M A) (k : A -> M B) :
  conserva m -> (forall a, conserva_si_falla (k a)) ->
  conserva_si_falla (bind m k).
Proof.
  intros Hm Hk w e w'. unfold bind.
  destruct (m w) as [[e1 | a] w1] eqn:E; intros H.
  - injection H as _ <-. exact (Hm _ _ _ E).
  - rewrite (Hk a _ _ _ H). exact (Hm _ _ _ E).
Qed.

Section ConFallos.

Variable fault : nat -> option Excepcion.

Lemma conserva_issue o : conserva (issue fault o).
Proof.
  intros w r w'. unfold issue.
  destruct (fault (calls w)); intros E; injection E as _ <-; reflexivity.
Qed.

Lemma conserva_view t : conserva (view t).
Proof.
  intros w r w'. unfold view. destruct t as [h |].
  - destruct (tx w) as [[h' tb] |]; [destruct (Nat.eqb h h') |];
      intros E; injection E as _ <-; reflexivity.
  - intros E; injection E as _ <-; reflexivity.
Qed.

Lemma conserva_store t tb : conserva (store (Some t) tb).
Proof. intros w r w' E. injection E as _ <-. reflexivity. Qed.

Lemma conserva_fresh_usuario : conserva fresh_usuario.
Proof. intros w r w' E. injection E as _ <-. reflexivity. Qed.

Lemma conserva_fresh_asignaciones n : conserva (fresh_asignaciones n).
Proof. intros w r w' E. injection E as _ <-. reflexivity. Qed.

Lemma conserva_rollback t : conserva (rollback t).
Proof. intros w r w' E. injection E as _ <-. reflexivity. Qed.

Lemma conserva_transaction : conserva (sequelize_transaction fault).
Proof.
  unfold sequelize_transaction.
  apply conserva_bind; [apply conserva_issue | intros _].
  intros w r w' E. injection E as _ <-. reflexivity.
Qed.

Create HintDb conserva.

#[local] Hint Resolve conserva_ret conserva_throw conserva_issue
  conserva_view conserva_store conserva_fresh_usuario
  conserva_fresh_asignaciones conserva_rollback conserva_transaction
  : conserva.

Ltac conserva := repeat (apply conserva_bind; [| intro]); auto with conserva.

Lemma conserva_Inventario_findOne p l t :
  conserva (Inventario_findOne fault p l (Some t)).
Proof. unfold Inventario_findOne. conserva. Qed.

Lemma conserva_Inventario_save i t :
  conserva (Inventario_save fault i (Some t)).
Proof. unfold Inventario_save. conserva. Qed.

Lemma conserva_Usuario_create d t :
  conserva (Usuario_create fault d (Some t)).
Proof. unfold Usuario_create. conserva. Qed.

Lemma conserva_Usuario_findByPk id t :
  conserva (Usuario_findByPk fault id (Some t)).
Proof. unfold Usuario_findByPk. conserva. Qed.

Lemma conserva_Rol_findAll ids t : conserva (Rol_findAll fault ids (Some t)).
Proof. unfold Rol_findAll. conserva. Qed.

Lemma conserva_destroy u r t :
  conserva (UsuarioRol_destroy fault u r (Some t)).
Proof. unfold UsuarioRol_destroy. conserva. Qed.

Lemma conserva_bulkCreate ps t :
  conserva (UsuarioRol_bulkCreate fault ps (Some t)).
Proof.
  unfold UsuarioRol_bulkCreate. conserva.
  destruct (insertar _ _ _) as [e | [created tb']]; conserva.
Qed.

(** A commit that throws has changed nothing; so has a [try] block that ends
    with a commit and throws. *)
Lemma commit_si_falla t : conserva_si_falla (commit fault t).
Proof.
  unfold commit.
  apply conserva_bind_si_falla; [apply conserva_issue | intro].
  apply conserva_bind_si_falla; [apply conserva_view | intro].
  intros w e w' E. discriminate.
Qed.

Lemma commit_y_ret_si_falla {A} t (a : A) :
  conserva_si_falla (commit fault t ;;; ret a).
Proof.
  intros w e w' E. apply ligar_inl in E. destruct E as [E | (u & w1 & _ & E)].
  - exact (commit_si_falla _ _ _ _ E).
  - discriminate.
Qed.

(** The pattern of the transactional services: begin, [try] the body,
    roll back and throw on an error. *)
Lemma patron_si_falla {A} (cuerpo : Transaction -> M A)
    (h : Excepcion -> Excepcion) :
  (forall t, conserva_si_falla (cuerpo t)) ->
  conserva_si_falla
    (transaction <- sequelize_transaction fault ;;
     try_catch (cuerpo transaction)
               (fun error => rollback transaction ;;; throw (h error))).
Proof.
  intros Hc w e w' E.
  apply ligar_inl in E. destruct E as [E | (t & w1 & Et & E)].
  - exact (conserva_transaction _ _ _ E).
  - rewrite <- (conserva_transaction _ _ _ Et).
    unfold try_catch in E.
    destruct (cuerpo t w1) as [[e1 | a] w2] eqn:C; [| discriminate].
    rewrite <- (Hc _ _ _ _ C).
    injection E as _ <-. reflexivity.
Qed.

(** *** Store calls that succeed, step by step *)

Lemma view_abierta t tb w :
  tx w = Some (t, tb) -> view (Some t) w = (inr tb, w).
Proof. intros H. unfold view. rewrite H, Nat.eqb_refl. reflexivity. Qed.

Lemma transaction_exito w t w' :
  sequelize_transaction fault w = (inr t, w') ->
  fault (calls w) = None /\
  w' = mkWorld (db w) (Some (t, db w)) (secuencias w)
         (S (calls w)) (trace w ++ [OpTransaction]).
Proof.
  unfold sequelize_transaction, bind, issue.
  destruct (fault (calls w)); [discriminate |].
  cbn. intros E. injection E as <- <-. split; reflexivity.
Qed.

Lemma commit_exito t tb w u w' :
  tx w = Some (t, tb) ->
  commit fault t w = (inr u, w') ->
  w' = mkWorld tb None (secuencias w) (S (calls w))
         (trace w ++ [OpCommit t]).
Proof.
  intros Htx. unfold commit, bind, issue.
  destruct (fault (calls w)); [discriminate |].
  rewrite (view_abierta t tb) by exact Htx.
  cbn. intros E. injection E as _ <-. reflexivity.
Qed.

(** *** [crearVenta] *)

Lemma conserva_fresh_venta : conserva fresh_venta.
Proof. intros w r w' E. injection E as _ <-. reflexivity. Qed.

Lemma conserva_fresh_detalles n : conserva (fresh_detalles n).
Proof. intros w r w' E. injection E as _ <-. reflexivity. Qed.

Lemma conserva_Venta_create d t : conserva (Venta_create fault d (Some t)).
Proof.
  unfold Venta_create.
  repeat (apply conserva_bind; [| intro]);
    auto using conserva_fresh_venta with conserva.
Qed.

Lemma conserva_DetalleVenta_bulkCreate d t :
  conserva (DetalleVenta_bulkCreate fault d (Some t)).
Proof.
  unfold DetalleVenta_bulkCreate. destruct d as [items |];
    [| apply conserva_throw].
  repeat (apply conserva_bind; [| intro]);
    auto using conserva_fresh_detalles with conserva.
Qed.

Lemma crearVenta_si_falla data : conserva_si_falla (crearVenta fault data).
Proof.
  unfold crearVenta. apply (patron_si_falla _ (fun e => e)). intros t.
  apply conserva_bind_si_falla; [apply conserva_Venta_create | intro].
  apply conserva_bind_si_falla;
    [apply conserva_DetalleVenta_bulkCreate | intro].
  apply commit_y_ret_si_falla.
Qed.

(** X29. [crearVenta] posts all or nothing: every failure, whichever store
    call rejects, leaves the committed tables as they were.  In particular,
    for an object without [detalles] the bulk insert throws a [TypeError]
    after the order has been created under the transaction, and no order
    is persisted. *)
Theorem crearVenta_todo_o_nada data w :
  (forall e w', crearVenta fault data w = (inl e, w') -> db w' = db w) /\
  (vd_detalles data = None ->
   fault (calls w) = None ->
   fault (S (calls w)) = None ->
   exists m w',
     crearVenta fault data w = (inl (TypeError m), w') /\
     db w' = db w /\
     trace w' = trace w ++ [OpTransaction;
                            OpVentaCreate data (Some (S (calls w)));
                            OpRollback (S (calls w))]).
Proof.
  split; [apply crearVenta_si_falla |].
  intros Hd F0 F1.
  unfold crearVenta, sequelize_transaction, Venta_create,
    DetalleVenta_bulkCreate, rollback, bind, try_catch, issue, view, store,
    fresh_venta, ret, throw.
  rewrite F0. cbn [calls log set_tx tx set_secuencias]. rewrite F1.
  cbn [calls log set_tx tx set_secuencias]. rewrite Nat.eqb_refl, Hd.
  eexists. eexists. split; [reflexivity |]. split; [reflexivity |].
  cbn [trace log set_tx set_secuencias]. rewrite <- !app_assoc. reflexivity.
Qed.

(** X30. A successful [crearVenta] has added the order, under the next key,
    and the lines of [ventaData.detalles] exactly as the caller gave them:
    their [venta_id] is the caller's, the key of the new order is not
    written to them. *)
Theorem crearVenta_persiste data w venta w' :
  crearVenta fault data w = (inr venta, w') ->
  exists items,
    vd_detalles data = Some items /\
    venta = Ventas.mkVenta (JNum (of_Z (next_venta w))) (vd_total data) /\
    ventas (db w') = ventas (db w) ++ [venta] /\
    detalles (db w') =
      detalles (db w) ++ Ventas.number_from (next_detalle w) items /\
    map (fun d => Ventas.venta_id (Ventas.det_item d))
        (Ventas.number_from (next_detalle w) items)
      = map Ventas.venta_id items /\
    tx w' = None.
Proof.
  unfold crearVenta, sequelize_transaction, Venta_create,
    DetalleVenta_bulkCreate, commit, rollback, bind, try_catch, issue, view,
    store, fresh_venta, fresh_detalles, ret, throw.
  destruct (fault (calls w)); [discriminate |].
  cbn [calls log set_tx tx set_secuencias].
  destruct (fault (S (calls w))); [discriminate |].
  cbn [calls log set_tx tx set_secuencias]. rewrite Nat.eqb_refl.
  destruct (vd_detalles data) as [items |]; [| discriminate].
  cbn [calls log set_tx tx set_secuencias].
  destruct (fault (S (S (calls w)))); [discriminate |].
  cbn [calls log set_tx tx set_secuencias]. rewrite Nat.eqb_refl.
  cbn [calls log set_tx tx set_secuencias].
  destruct (fault (S (S (S (calls w))))); [discriminate |].
  cbn [calls log set_tx tx set_secuencias]. rewrite Nat.eqb_refl.
  intros E. injection E as <- <-. exists items.
  split; [reflexivity |]. split; [reflexivity |].
  split; [reflexivity |]. split; [reflexivity |]. split; [| reflexivity].
  generalize (next_detalle w). induction items as [| i r IH]; intros n;
    cbn [Ventas.number_from map Ventas.det_item]; [reflexivity |].
  rewrite IH. reflexivity.
Qed.

(** *** [actualizarInventario], with a row lock *)

Lemma round_sig_no_negativo q f : 0 <= q -> leb zero (round_sig q f) = true.
Proof.
  intros Hq. unfold round_sig.
  destruct (Z.log2 q - 52 <=? 0).
  - assert (H : forall r, 0 <= r -> leb zero (Fin r) = true).
    { intros r Hr. unfold leb, zero, ltb, eqb.
      destruct (Z.ltb_spec 0 r); [reflexivity |].
      destruct (Z.eqb_spec 0 r); [reflexivity | lia]. }
    apply H. destruct f; [lia | lia | destruct (Z.even q); lia | lia].
  - set (k := Z.log2 q - 52).
    set (hi := Z.shiftr q k).
    assert (Hhi : 0 <= hi) by (apply Z.shiftr_nonneg; exact Hq).
    match goal with
    | |- context [Z.shiftl (if ?b then hi + 1 else hi) k] =>
        set (m := if b then hi + 1 else hi)
    end.
    assert (Hm : 0 <= m) by (subst m; match goal with
                                      | |- 0 <= (if ?b then _ else _) =>
                                          destruct b; lia
                                      end).
    assert (Hr : 0 <= Z.shiftl m k) by (apply Z.shiftl_nonneg; exact Hm).
    destruct (Z.shiftl m k <? OVF); [| reflexivity].
    unfold leb, zero, ltb, eqb.
    destruct (Z.ltb_spec 0 (Z.shiftl m k)); [reflexivity |].
    destruct (Z.eqb_spec 0 (Z.shiftl m k)); [reflexivity | lia].
Qed.

(** The difference of two finite numbers, the second not above the first,
    is not negative. *)
Lemma resta_no_negativa a c :
  ltb (Fin a) (Fin c) = false ->
  leb zero (add (Fin a) (neg (Fin c))) = true.
Proof.
  cbn [ltb neg add]. intros H. apply Z.ltb_ge in H.
  unfold signed. destruct (Z.ltb_spec (a + - c) 0); [lia |].
  apply round_sig_no_negativo. lia.
Qed.

Lemma cuerpo_inventario_si_falla p c t :
  conserva_si_falla
    (inventario <- Inventario_findOne fault p true (Some t) ;;
     match inventario with
     | None => throw (Error "Inventario no encontrado")
     | Some inventario =>
         if ltb (Number (inv_cantidad inventario)) c
         then throw (Error "Stock insuficiente")
         else
           let inventario :=
             con_cantidad
               (JNum (add (Number (inv_cantidad inventario)) (neg c)))
               inventario in
           Inventario_save fault inventario (Some t) ;;;
           commit fault t ;;;
           ret inventario
     end).
Proof.
  apply conserva_bind_si_falla;
    [apply conserva_Inventario_findOne | intros [inventario |]];
    [| apply conserva_debil, conserva_throw].
  destruct (ltb _ c); [apply conserva_debil, conserva_throw |].
  apply conserva_bind_si_falla; [apply conserva_Inventario_save | intro].
  apply commit_y_ret_si_falla.
Qed.

Lemma actualizarInventario_si_falla p c :
  conserva_si_falla (actualizarInventario fault p c).
Proof.
  unfold actualizarInventario.
  apply (patron_si_falla _ (fun e => e)). intros t.
  apply cuerpo_inventario_si_falla.
Qed.

Lemma Inventario_findOne_exito p l t tb w o w' :
  tx w = Some (t, tb) ->
  Inventario_findOne fault p l (Some t) w = (inr o, w') ->
  o = find (fun i => inv_producto_id i =? p) (inventarios tb) /\
  w' = log (OpInventarioFindOne p l (Some t)) w.
Proof.
  intros Htx. unfold Inventario_findOne, bind, issue.
  destruct (fault (calls w)); [discriminate |].
  rewrite (view_abierta t tb) by exact Htx.
  cbn. intros E. injection E as <- <-. split; reflexivity.
Qed.

Lemma Inventario_save_exito i t tb w u w' :
  tx w = Some (t, tb) ->
  Inventario_save fault i (Some t) w = (inr u, w') ->
  w' = set_tx (Some (t, con_inventarios (guardar i (inventarios tb)) tb))
         (log (OpInventarioSave i (Some t)) w).
Proof.
  intros Htx. unfold Inventario_save, bind, issue.
  destruct (fault (calls w)); [discriminate |].
  rewrite (view_abierta t tb) by exact Htx.
  cbn. intros E. injection E as _ <-. reflexivity.
Qed.

(** What a successful call has done. *)
Lemma actualizarInventario_exito p c w inventario w' :
  actualizarInventario fault p c w = (inr inventario, w') ->
  exists old,
    find (fun i => inv_producto_id i =? p) (inventarios (db w)) = Some old /\
    ltb (Number (inv_cantidad old)) c = false /\
    inventario =
      con_cantidad (JNum (add (Number (inv_cantidad old)) (neg c))) old /\
    db w' = con_inventarios (guardar inventario (inventarios (db w))) (db w) /\
    tx w' = None.
Proof.
  unfold actualizarInventario. intros E.
  apply ligar_inr in E. destruct E as (t & w1 & Et & E).
  apply transaction_exito in Et. destruct Et as (_ & ->).
  unfold try_catch in E.
  match type of E with
  | match ?m with _ => _ end = _ => destruct m as [[e | i] w2] eqn:C
  end.
  - discriminate.
  - injection E as -> ->.
    apply ligar_inr in C. destruct C as (o & w2 & Ef & C).
    apply (Inventario_findOne_exito _ _ _ (db w)) in Ef; [| reflexivity].
    destruct Ef as (-> & ->).
    destruct (find _ (inventarios (db w))) as [old |]; [| discriminate].
    exists old. split; [reflexivity |].
    destruct (ltb (Number (inv_cantidad old)) c); [discriminate |].
    split; [reflexivity |].
    apply ligar_inr in C. destruct C as (u & w3 & Es & C).
    apply (Inventario_save_exito _ _ (db w)) in Es; [| reflexivity].
    subst w3.
    apply ligar_inr in C. destruct C as (u' & w4 & Ec & C).
    eapply commit_exito in Ec; [| reflexivity]. subst w4.
    injection C as <- <-. cbn. repeat split.
Qed.

(** The same call when the store answers. *)
Lemma actualizarInventario_paso p c w old :
  responde fault ->
  find (fun i => inv_producto_id i =? p) (inventarios (db w)) = Some old ->
  ltb (Number (inv_cantidad old)) c = false ->
  exists w',
    actualizarInventario fault p c w =
      (inr (con_cantidad (JNum (add (Number (inv_cantidad old)) (neg c)))
                         old), w').
Proof.
  intros Hf Hold Hlt.
  unfold actualizarInventario, sequelize_transaction, Inventario_findOne,
    Inventario_save, commit, bind, try_catch, issue, view, store, ret.
  cbn. rewrite !Hf. cbn. rewrite Nat.eqb_refl, Hold, Hlt. cbn.
  rewrite !Hf. cbn. rewrite !Nat.eqb_refl. cbn.
  rewrite !Hf. cbn. rewrite !Nat.eqb_refl. eexists. reflexivity.
Qed.

Lemma actualizarInventario_rechaza p c w :
  responde fault ->
  exists w',
    actualizarInventario fault p c w =
      (match find (fun i => inv_producto_id i =? p) (inventarios (db w)) with
       | None => inl (Error "Inventario no encontrado")
       | Some old =>
           if ltb (Number (inv_cantidad old)) c
           then inl (Error "Stock insuficiente")
           else inr (con_cantidad
                       (JNum (add (Number (inv_cantidad old)) (neg c))) old)
       end, w').
Proof.
  intros Hf.
  destruct (find _ (inventarios (db w))) as [old |] eqn:Hold.
  - destruct (ltb (Number (inv_cantidad old)) c) eqn:Hlt.
    + unfold actualizarInventario, sequelize_transaction, Inventario_findOne,
        rollback, bind, try_catch, issue, view, store, ret, throw.
      cbn. rewrite !Hf. cbn. rewrite Nat.eqb_refl, Hold, Hlt.
      eexists. reflexivity.
    + apply actualizarInventario_paso; assumption.
  - unfold actualizarInventario, sequelize_transaction, Inventario_findOne,
      rollback, bind, try_catch, issue, view, store, ret, throw.
    cbn. rewrite !Hf. cbn. rewrite Nat.eqb_refl, Hold.
    eexists. reflexivity.
Qed.

(** X4. Every failure of [actualizarInventario(producto_id, cantidad)],
    whichever store call rejects, leaves the committed tables as they
    were. *)
Theorem actualizarInventario_revierte p c w e w' :
  actualizarInventario fault p c w = (inl e, w') -> db w' = db w.
Proof. apply actualizarInventario_si_falla. Qed.

(** X5. When the store answers, [actualizarInventario] fails with
    "Inventario no encontrado" when the product has no stock row and with
    "Stock insuficiente" when the stock is below [cantidad]; in both cases
    the committed tables are unchanged. *)
Theorem existencias_insuficientes p c w :
  responde fault ->
  (find (fun i => inv_producto_id i =? p) (inventarios (db w)) = None ->
   exists w', actualizarInventario fault p c w =
                (inl (Error "Inventario no encontrado"), w') /\
              db w' = db w) /\
  (forall old,
     find (fun i => inv_producto_id i =? p) (inventarios (db w)) = Some old ->
     ltb (Number (inv_cantidad old)) c = true ->
     exists w', actualizarInventario fault p c w =
                  (inl (Error "Stock insuficiente"), w') /\
                db w' = db w).
Proof.
  intros Hf. destruct (actualizarInventario_rechaza p c w Hf) as (w' & E).
  split.
  - intros Hnone. rewrite Hnone in E. exists w'. split; [exact E |].
    exact (actualizarInventario_si_falla _ _ _ _ _ E).
  - intros old Hold Hlt. rewrite Hold, Hlt in E. exists w'.
    split; [exact E |].
    exact (actualizarInventario_si_falla _ _ _ _ _ E).
Qed.

(** X6. A successful [actualizarInventario] on a finite, non-negative stock
    with a finite [cantidad] stores [stock - cantidad] for the rows with the
    key of the locked row, and that number is not negative. *)
Theorem existencias_no_negativas p a c w inventario w' old :
  find (fun i => inv_producto_id i =? p) (inventarios (db w)) = Some old ->
  Number (inv_cantidad old) = Fin a ->
  0 <= a ->
  actualizarInventario fault p (Fin c) w = (inr inventario, w') ->
  inv_cantidad inventario = JNum (add (Fin a) (neg (Fin c))) /\
  leb zero (add (Fin a) (neg (Fin c))) = true /\
  inventarios (db w') = guardar inventario (inventarios (db w)).
Proof.
  intros Hold Hn Ha E.
  apply actualizarInventario_exito in E.
  destruct E as (old' & Hold' & Hlt & -> & Hdb & _).
  rewrite Hold in Hold'. injection Hold' as <-.
  rewrite Hn in *. split; [reflexivity |]. split.
  - apply resta_no_negativa. exact Hlt.
  - rewrite Hdb. reflexivity.
Qed.

(** X7. [actualizarInventario] does not reject a [cantidad] of [NaN]: the
    stock check [inventario.cantidad < cantidad] is false for it, and the
    stock of the product becomes [NaN]. *)
Theorem cantidad_NaN_aceptada p w old :
  responde fault ->
  find (fun i => inv_producto_id i =? p) (inventarios (db w)) = Some old ->
  exists w',
    actualizarInventario fault p NaN w =
      (inr (con_cantidad (JNum NaN) old), w') /\
    inventarios (db w') =
      guardar (con_cantidad (JNum NaN) old) (inventarios (db w)).
Proof.
  intros Hf Hold.
  assert (Hlt : ltb (Number (inv_cantidad old)) NaN = false)
    by (destruct (Number (inv_cantidad old)); reflexivity).
  destruct (actualizarInventario_paso p NaN w old Hf Hold Hlt) as (w' & E).
  assert (Hadd : add (Number (inv_cantidad old)) (neg NaN) = NaN)
    by (destruct (Number (inv_cantidad old)); reflexivity).
  rewrite Hadd in E. exists w'. split; [exact E |].
  apply actualizarInventario_exito in E.
  destruct E as (old' & Hold' & _ & Hi & Hdb & _).
  rewrite Hdb. reflexivity.
Qed.

(** *** [actualizarInventario], with a version number *)

Lemma OVF_eq : OVF = 2 ^ 2098.
Proof. reflexivity. Qed.

(** A whole number below [2^53] is a double. *)
Lemma round_sig_entero m :
  0 <= m < 2 ^ 53 -> round_sig (m * U) Exact = Fin (m * U).
Proof.
  intros [H0 H1]. unfold round_sig.
  destruct (Z.eq_dec m 0) as [-> | Hm].
  - reflexivity.
  - assert (Hpos : 0 < m) by lia.
    assert (Hl : Z.log2 (m * U) = 1074 + Z.log2 m).
    { rewrite U_eq. apply Z.log2_mul_pow2; lia. }
    assert (Hl53 : Z.log2 m < 53) by (apply Z.log2_lt_pow2; lia).
    assert (Hl0 : 0 <= Z.log2 m) by apply Z.log2_nonneg.
    rewrite Hl.
    set (k := 1074 + Z.log2 m - 52).
    assert (Hk : 0 < k <= 1074) by (subst k; lia).
    destruct (Z.leb_spec k 0); [lia |].
    assert (Hq : m * U = (m * 2 ^ (1074 - k)) * 2 ^ k).
    { rewrite U_eq, <- Z.mul_assoc, <- Z.pow_add_r by lia.
      replace (1074 - k + k) with 1074 by lia. reflexivity. }
    assert (Hlo : Z.land (m * U) (Z.ones k) = 0).
    { rewrite Z.land_ones by lia. rewrite Hq. apply Z.mod_mul. lia. }
    rewrite Hlo.
    assert (Hhalf : 0 < Z.shiftl 1 (k - 1)).
    { rewrite Z.shiftl_1_l. apply Z.pow_pos_nonneg; lia. }
    destruct (Z.compare_spec 0 (Z.shiftl 1 (k - 1))); [lia | | lia].
    assert (Hr : Z.shiftl (Z.shiftr (m * U) k) k = m * U).
    { rewrite Z.shiftl_mul_pow2, Z.shiftr_div_pow2 by lia.
      rewrite Hq at 1. rewrite Z.div_mul by lia. symmetry. exact Hq. }
    rewrite Hr.
    assert (Hovf : m * U < OVF).
    { rewrite OVF_eq, U_eq.
      apply Z.lt_trans with (2 ^ 53 * 2 ^ 1074).
      - apply Z.mul_lt_mono_pos_r; [apply Z.pow_pos_nonneg; lia | lia].
      - rewrite <- Z.pow_add_r by lia. apply Z.pow_lt_mono_r; lia. }
    destruct (Z.ltb_spec (m * U) OVF); [reflexivity | lia].
Qed.

Lemma of_Z_entero n : Z.abs n < 2 ^ 53 -> of_Z n = Fin (n * U).
Proof.
  intros H. unfold of_Z. rewrite round_sig_entero by lia.
  unfold signed. destruct (Z.ltb_spec n 0); cbn [neg]; f_equal.
  - rewrite Z.abs_neq by lia. lia.
  - rewrite Z.abs_eq by lia. reflexivity.
Qed.

(** Below [Number.MAX_SAFE_INTEGER], [version + 1] is the next whole
    number. *)
Lemma version_siguiente n :
  Z.abs n < 2 ^ 53 - 1 -> add (of_Z n) (of_Z 1) = of_Z (n + 1).
Proof.
  intros H. rewrite !of_Z_entero by lia.
  cbn [add]. replace (n * U + 1 * U) with ((n + 1) * U) by lia.
  replace (Z.abs ((n + 1) * U)) with (Z.abs (n + 1) * U)
    by (rewrite Z.abs_mul, (Z.abs_eq U) by (pose proof U_pos; lia);
        reflexivity).
  rewrite round_sig_entero by lia.
  unfold signed. pose proof U_pos as HU.
  destruct (Z.ltb_spec ((n + 1) * U) 0); cbn [neg]; f_equal.
  - rewrite Z.abs_neq by nia. lia.
  - rewrite Z.abs_eq by nia. reflexivity.
Qed.

Lemma version_distinta n :
  Z.abs n < 2 ^ 53 - 1 -> eqb (add (of_Z n) (of_Z 1)) (of_Z n) = false.
Proof.
  intros H. rewrite version_siguiente by exact H.
  rewrite !of_Z_entero by lia. cbn [eqb].
  apply Z.eqb_neq. pose proof U_pos. nia.
Qed.

(** After an update under [version], no row of that key still has it. *)
Lemma sin_coincidencias id c v v' filas :
  eqb v' v = false ->
  filter (coincide id v)
    (map (fun i =>
            if coincide id v i
            then mkInventario (inv_id i) (inv_producto_id i) (JNum c) v'
            else i)
         filas) = [].
Proof.
  intros Hv. induction filas as [| i r IH]; [reflexivity |].
  cbn [map filter]. destruct (coincide id v i) eqn:Hc.
  - unfold coincide at 1. cbn [inv_id inv_version]. rewrite Hv, andb_false_r.
    exact IH.
  - rewrite Hc. exact IH.
Qed.

Lemma sin_cambios id c v v' filas :
  filter (coincide id v) filas = [] ->
  map (fun i =>
         if coincide id v i
         then mkInventario (inv_id i) (inv_producto_id i) (JNum c) v'
         else i)
      filas = filas.
Proof.
  induction filas as [| i r IH]; [reflexivity |].
  cbn [map filter]. destruct (coincide id v i); [discriminate |].
  intros H. rewrite IH by exact H. reflexivity.
Qed.

Lemma con_inventarios_mismo tb : con_inventarios (inventarios tb) tb = tb.
Proof. destruct tb. reflexivity. Qed.

Lemma actualizarInventario_version_exito id c v w u w' :
  actualizarInventario_version fault id c v w = (inr u, w') ->
  fault (calls w) = None /\
  filter (coincide id v) (inventarios (db w)) <> [] /\
  w' = set_db
         (con_inventarios
            (map (fun i =>
                    if coincide id v i
                    then mkInventario (inv_id i) (inv_producto_id i)
                                      (JNum c) (add v (of_Z 1))
                    else i)
                 (inventarios (db w)))
            (db w))
         (log (OpInventarioUpdate id v c (add v (of_Z 1))) w).
Proof.
  unfold actualizarInventario_version, Inventario_update, bind, issue, view,
    store, ret, throw.
  destruct (fault (calls w)); [discriminate |].
  cbn [db log].
  destruct (filter (coincide id v) (inventarios (db w))) eqn:Hfil.
  - cbn [List.length Z.of_nat Z.eqb]. discriminate.
  - destruct (Z.eqb_spec (Z.of_nat (List.length (i :: l))) 0) as [Hb | Hb].
    + cbn [List.length] in Hb. lia.
    + intros E. injection E as _ <-.
      split; [reflexivity |]. split; [discriminate | reflexivity].
Qed.

(** X8. Optimistic locking detects the stale write: of two updates made
    from the same version of a row, a whole number below
    [Number.MAX_SAFE_INTEGER], the second one fails with the conflict error
    and leaves the first update in place. *)
Theorem version_obsoleta_rechazada id c1 c2 n w w1 :
  responde fault ->
  Z.abs n < 2 ^ 53 - 1 ->
  actualizarInventario_version fault id c1 (of_Z n) w = (inr tt, w1) ->
  exists w2,
    actualizarInventario_version fault id c2 (of_Z n) w1
      = (inl conflicto, w2) /\
    db w2 = db w1.
Proof.
  intros Hf Hn E1.
  apply actualizarInventario_version_exito in E1.
  destruct E1 as (_ & _ & ->).
  assert (Hnone :
    filter (coincide id (of_Z n))
      (inventarios (db (set_db
         (con_inventarios
            (map (fun i =>
                    if coincide id (of_Z n) i
                    then mkInventario (inv_id i) (inv_producto_id i)
                                      (JNum c1) (add (of_Z n) (of_Z 1))
                    else i)
                 (inventarios (db w)))
            (db w))
         (log (OpInventarioUpdate id (of_Z n) c1 (add (of_Z n) (of_Z 1))) w))))
      = []).
  { cbn [db set_db con_inventarios inventarios].
    apply sin_coincidencias. apply version_distinta. exact Hn. }
  unfold actualizarInventario_version at 1.
  unfold Inventario_update, bind, issue, view, store, ret, throw.
  rewrite Hf. cbn [db log set_db].
  cbn [db set_db log] in Hnone.
  rewrite Hnone. cbn [List.length Z.of_nat Z.eqb].
  eexists. split; [reflexivity |].
  cbn [db set_db]. rewrite sin_cambios by exact Hnone.
  apply con_inventarios_mismo.
Qed.

(** *** [transferStock] *)

Lemma ltb_asimetrica a b : ltb a b = true -> ltb b a = false.
Proof.
  destruct a as [| s | x], b as [| t | y]; cbn; try discriminate;
    try reflexivity.
  - destruct s, t; cbn; try discriminate; reflexivity.
  - intros ->. reflexivity.
  - destruct t; cbn; [discriminate | reflexivity].
  - intros H. apply Z.ltb_lt in H. apply Z.ltb_ge. lia.
Qed.

Lemma ltb_total a b :
  a <> NaN -> b <> NaN -> ltb a b = false -> ltb b a = false -> a = b.
Proof.
  destruct a as [| s | x], b as [| t | y]; cbn; try congruence.
  - destruct s, t; cbn; congruence.
  - destruct s; cbn; congruence.
  - destruct t; cbn; congruence.
  - intros _ _ H1 H2. apply Z.ltb_ge in H1, H2. f_equal. lia.
Qed.

(** X9. [transferStock] takes its two row locks in an order that does not
    depend on the order of its arguments, for ids other than [NaN]: the two
    calls are the same computation, and when the store answers the first
    lock is on the id that is not above the other. *)
Theorem transferStock_orden a b c c' w :
  a <> NaN -> b <> NaN ->
  transferStock fault a b c w = transferStock fault b a c' w /\
  (responde fault ->
   exists id1 id2,
     ltb id2 id1 = false /\
     trace (snd (transferStock fault a b c w)) =
       trace w ++ [OpInventarioFindByPk id1 true;
                   OpInventarioFindByPk id2 true]).
Proof.
  intros Ha Hb.
  assert (T : forall id1 id2,
             responde fault ->
             trace (snd ((inv1 <- Inventario_findByPk fault id1 true ;;
                          inv2 <- Inventario_findByPk fault id2 true ;;
                          ret tt) w)) =
               trace w ++ [OpInventarioFindByPk id1 true;
                           OpInventarioFindByPk id2 true]).
  { intros id1 id2 Hf.
    unfold Inventario_findByPk, bind, issue, view, ret.
    rewrite Hf. cbn [calls log]. rewrite Hf. cbn [snd trace log].
    rewrite <- app_assoc. reflexivity. }
  unfold transferStock.
  destruct (ltb a b) eqn:Hab.
  - rewrite (ltb_asimetrica _ _ Hab). split; [reflexivity |].
    intros Hf. exists a, b.
    split; [apply ltb_asimetrica; exact Hab | apply T; exact Hf].
  - destruct (ltb b a) eqn:Hba.
    + split; [reflexivity |].
      intros Hf. exists b, a. split; [exact Hab | apply T; exact Hf].
    + pose proof (ltb_total a b Ha Hb Hab Hba) as ->. split; [reflexivity |].
      intros Hf. exists b, b. split; [exact Hba | apply T; exact Hf].
Qed.

(** *** [crearUsuario] *)

Lemma categorizar_otro error :
  name error <> "SequelizeUniqueConstraintError"%string ->
  name error <> "SequelizeForeignKeyConstraintError"%string ->
  name error <> "SequelizeValidationError"%string ->
  categorizar error = error.
Proof.
  intros H1 H2 H3. unfold categorizar.
  apply String.eqb_neq in H1, H2, H3. rewrite H1, H2, H3. reflexivity.
Qed.

(** Where the error of a failing [crearUsuario] comes from. *)
Lemma crearUsuario_falla data w e w' :
  crearUsuario fault data w = (inl e, w') ->
  fault (calls w) = Some e \/
  exists n original,
    (n = S (calls w) \/ n = S (S (calls w))) /\
    fault (calls w) = None /\
    fault n = Some original /\ e = categorizar original.
Proof.
  unfold crearUsuario, sequelize_transaction, Usuario_create, commit,
    rollback, bind, try_catch, issue, view, store, fresh_usuario, ret, throw.
  destruct (fault (calls w)) as [e0 |] eqn:F0.
  - intros E. injection E as <- _. left. reflexivity.
  - cbn [calls log set_tx tx set_secuencias].
    destruct (fault (S (calls w))) as [e1 |] eqn:F1.
    + intros E. injection E as <- _. right.
      exists (S (calls w)), e1. repeat split; auto.
    + cbn [calls log set_tx tx set_secuencias]. rewrite Nat.eqb_refl.
      cbn [calls log set_tx tx set_secuencias].
      destruct (fault (S (S (calls w)))) as [e2 |] eqn:F2.
      * intros E. injection E as <- _. right.
        exists (S (S (calls w))), e2. repeat split; auto.
      * cbn [calls log set_tx tx set_secuencias]. rewrite Nat.eqb_refl. discriminate.
Qed.

Lemma crearUsuario_si_falla data : conserva_si_falla (crearUsuario fault data).
Proof.
  unfold crearUsuario. apply (patron_si_falla _ categorizar). intros t.
  apply conserva_bind_si_falla; [apply conserva_Usuario_create | intro].
  apply commit_y_ret_si_falla.
Qed.

(** X10. Every failure of [crearUsuario] leaves the committed tables as they
    were.  The error it throws is the one the begin call rejected with, or
    what the handler makes of the error that [Usuario.create] or the commit
    rejected with; an error whose name is none of the three the handler
    knows is thrown again unchanged. *)
Theorem crearUsuario_revierte data w e w' :
  crearUsuario fault data w = (inl e, w') ->
  db w' = db w /\
  exists n original,
    fault n = Some original /\
    (e = original \/ e = categorizar original) /\
    (name original <> "SequelizeUniqueConstraintError"%string ->
     name original <> "SequelizeForeignKeyConstraintError"%string ->
     name original <> "SequelizeValidationError"%string ->
     e = original).
Proof.
  intros E. split; [exact (crearUsuario_si_falla _ _ _ _ E) |].
  apply crearUsuario_falla in E.
  destruct E as [F0 | (n & original & _ & _ & Fn & ->)].
  - exists (calls w), e. split; [exact F0 |]. split; [left; reflexivity |].
    reflexivity.
  - exists n, original. split; [exact Fn |]. split; [right; reflexivity |].
    apply categorizar_otro.
Qed.

(** X11. When [Usuario.create] rejects with a unique-constraint error whose
    [errors] array is empty or missing, the handler of [crearUsuario] fails
    while it builds its message: the call throws a [TypeError] in place of
    the constraint error, after the rollback. *)
Theorem crearUsuario_error_sin_detalle data w original :
  fault (calls w) = None ->
  fault (S (calls w)) = Some original ->
  name original = "SequelizeUniqueConstraintError"%string ->
  errors original = None \/ errors original = Some [] ->
  exists m w',
    crearUsuario fault data w = (inl (TypeError m), w') /\
    db w' = db w /\ tx w' = None.
Proof.
  intros F0 F1 Hn He.
  unfold crearUsuario, sequelize_transaction, Usuario_create, commit,
    rollback, bind, try_catch, issue, view, store, fresh_usuario, ret, throw.
  rewrite F0. cbn [calls log set_tx tx set_secuencias]. rewrite F1.
  unfold categorizar. rewrite Hn. cbn [String.eqb Ascii.eqb Bool.eqb].
  destruct He as [-> | ->]; eexists; eexists;
    (split; [reflexivity | split; reflexivity]).
Qed.

(** A successful [crearUsuario] has added exactly the new row, under the
    next key of the sequence, and nothing else. *)
Lemma crearUsuario_exito data w usuario w' :
  crearUsuario fault data w = (inr usuario, w') ->
  usuario =
    Auth.mkUsuario (next_usuario w) (nu_username data) (nu_email data)
      (nu_password data) (nu_activo data) (nu_ultimo_acceso data)
      (nu_mustChangePassword data) /\
  db w' = con_usuarios (usuarios (db w) ++ [usuario]) (db w) /\
  tx w' = None.
Proof.
  unfold crearUsuario, sequelize_transaction, Usuario_create, commit,
    rollback, bind, try_catch, issue, view, store, fresh_usuario, ret, throw.
  destruct (fault (calls w)); [discriminate |].
  cbn [calls log set_tx tx set_secuencias].
  destruct (fault (S (calls w))); [discriminate |].
  cbn [calls log set_tx tx set_secuencias]. rewrite Nat.eqb_refl.
  cbn [calls log set_tx tx set_secuencias].
  destruct (fault (S (S (calls w)))); [discriminate |].
  cbn [calls log set_tx tx set_secuencias]. rewrite Nat.eqb_refl.
  intros E. injection E as <- <-. repeat split.
Qed.

(** *** The role management service *)

Lemma asignado_par u r a :
  asignado u r a = true <-> (a_usuario_id a, a_rol_id a) = (u, r).
Proof.
  unfold asignado. rewrite andb_true_iff, !Z.eqb_eq. split.
  - intros [-> ->]. reflexivity.
  - intros E. injection E as -> ->. split; reflexivity.
Qed.

Lemma existe_par u r tb :
  existsb (asignado u r) (usuarios_roles tb) = true <-> In (u, r) (pares tb).
Proof.
  unfold pares. rewrite existsb_exists, in_map_iff. split.
  - intros (a & Ha & E). exists a. split; [apply asignado_par; exact E | exact Ha].
  - intros (a & E & Ha). exists a. split; [exact Ha | apply asignado_par; exact E].
Qed.

Lemma find_existsb {A} (p : A -> bool) l :
  find p l = None <-> existsb p l = false.
Proof.
  induction l as [| x r IH]; cbn; [tauto |].
  destruct (p x); cbn; [split; discriminate | exact IH].
Qed.

Lemma filter_nada {A} (p : A -> bool) l :
  existsb p l = false -> filter p l = [] /\ filter (fun x => negb (p x)) l = l.
Proof.
  induction l as [| x r IH]; cbn; [split; reflexivity |].
  destruct (p x); cbn; [discriminate |].
  intros H. destruct (IH H) as [-> ->]. split; reflexivity.
Qed.

Lemma con_usuarios_roles_mismo tb :
  con_usuarios_roles (usuarios_roles tb) tb = tb.
Proof. destruct tb. reflexivity. Qed.

(** What [asignarRol] does when the store answers. *)
Lemma asignarRol_paso u r w :
  fault (calls w) = None ->
  fault (S (calls w)) = None ->
  exists w',
    asignarRol fault u r w =
      (if existsb (asignado u r) (usuarios_roles (db w))
       then inl (Error "El usuario ya tiene este rol asignado")
       else match violacion (db w) u r with
            | Some e => inl e
            | None => inr (mkAsignacion (next_asignacion w) u r)
            end, w') /\
    db w' =
      (if existsb (asignado u r) (usuarios_roles (db w)) then db w
       else match violacion (db w) u r with
            | Some _ => db w
            | None =>
                con_usuarios_roles
                  (usuarios_roles (db w)
                   ++ [mkAsignacion (next_asignacion w) u r])
                  (db w)
            end).
Proof.
  intros F0 F1.
  unfold asignarRol, UsuarioRol_findOne, UsuarioRol_create, bind, issue,
    view, store, fresh_asignaciones, ret, throw.
  rewrite F0. cbn [calls log db set_secuencias].
  destruct (existsb (asignado u r) (usuarios_roles (db w))) eqn:Hex.
  - destruct (find (asignado u r) (usuarios_roles (db w))) eqn:Hfind.
    + eexists. split; reflexivity.
    + apply find_existsb in Hfind. congruence.
  - apply find_existsb in Hex. rewrite Hex. cbn [calls log db set_secuencias].
    rewrite F1. cbn [calls log db set_secuencias].
    destruct (violacion (db w) u r); eexists; split; reflexivity.
Qed.

Lemma violacion_unica tb u r e :
  existsb (asignado u r) (usuarios_roles tb) = false ->
  violacion tb u r = Some e ->
  name e = "SequelizeForeignKeyConstraintError"%string /\
  (~ In u (map Auth.u_id (usuarios tb)) \/ ~ In r (map r_id (roles tb))).
Proof.
  intros Hex. unfold violacion. rewrite Hex.
  destruct (existsb (fun x => Auth.u_id x =? u) (usuarios tb)) eqn:Hu;
    cbn [negb orb].
  - destruct (existsb (fun x => r_id x =? r) (roles tb)) eqn:Hr;
      cbn [negb]; [discriminate |].
    intros E. injection E as <-. split; [reflexivity |]. right.
    intros Hin. apply in_map_iff in Hin. destruct Hin as (x & Ex & Hx).
    assert (existsb (fun x => r_id x =? r) (roles tb) = true).
    { apply existsb_exists. exists x. split; [exact Hx | apply Z.eqb_eq; exact Ex]. }
    congruence.
  - intros E. injection E as <-. split; [reflexivity |]. left.
    intros Hin. apply in_map_iff in Hin. destruct Hin as (x & Ex & Hx).
    assert (existsb (fun x => Auth.u_id x =? u) (usuarios tb) = true).
    { apply existsb_exists. exists x. split; [exact Hx | apply Z.eqb_eq; exact Ex]. }
    congruence.
Qed.

Lemma violacion_ninguna tb u r :
  violacion tb u r = None <->
  ~ In (u, r) (pares tb) /\
  In u (map Auth.u_id (usuarios tb)) /\ In r (map r_id (roles tb)).
Proof.
  unfold violacion.
  destruct (existsb (asignado u r) (usuarios_roles tb)) eqn:Hex.
  - apply existe_par in Hex. split; [discriminate | tauto].
  - assert (Hn : ~ In (u, r) (pares tb)).
    { intros H. apply existe_par in H. congruence. }
    destruct (existsb (fun x => Auth.u_id x =? u) (usuarios tb)) eqn:Hu;
      cbn [negb orb].
    + apply existsb_exists in Hu. destruct Hu as (x & Hx & Ex).
      apply Z.eqb_eq in Ex.
      assert (Hiu : In u (map Auth.u_id (usuarios tb)))
        by (apply in_map_iff; exists x; split; assumption).
      destruct (existsb (fun x => r_id x =? r) (roles tb)) eqn:Hr; cbn [negb].
      * apply existsb_exists in Hr. destruct Hr as (y & Hy & Ey).
        apply Z.eqb_eq in Ey.
        split; [intros _ | reflexivity].
        repeat split; [exact Hn | exact Hiu |].
        apply in_map_iff. exists y. split; assumption.
      * split; [discriminate |]. intros (_ & _ & Hin).
        apply in_map_iff in Hin. destruct Hin as (y & Ey & Hy).
        assert (existsb (fun x => r_id x =? r) (roles tb) = true).
        { apply existsb_exists. exists y.
          split; [exact Hy | apply Z.eqb_eq; exact Ey]. }
        congruence.
    + split; [discriminate |]. intros (_ & Hin & _).
      apply in_map_iff in Hin. destruct Hin as (y & Ey & Hy).
      assert (existsb (fun x => Auth.u_id x =? u) (usuarios tb) = true).
      { apply existsb_exists. exists y.
        split; [exact Hy | apply Z.eqb_eq; exact Ey]. }
      congruence.
Qed.

(** X12. When the store answers, [asignarRol] rejects a role that the user
    already has with its own error; it fails on the foreign key when the
    user or the role does not exist; otherwise it adds exactly one row,
    under the next key.  The unique key of the table is never what makes it
    fail, and a failure changes nothing. *)
Theorem asignarRol_casos u r w :
  responde fault ->
  (In (u, r) (pares (db w)) ->
   exists w',
     asignarRol fault u r w =
       (inl (Error "El usuario ya tiene este rol asignado"), w') /\
     db w' = db w) /\
  (~ In (u, r) (pares (db w)) ->
   ~ In u (map Auth.u_id (usuarios (db w)))
   \/ ~ In r (map r_id (roles (db w))) ->
   exists e w',
     asignarRol fault u r w = (inl e, w') /\
     name e = "SequelizeForeignKeyConstraintError"%string /\
     db w' = db w) /\
  (~ In (u, r) (pares (db w)) ->
   In u (map Auth.u_id (usuarios (db w))) ->
   In r (map r_id (roles (db w))) ->
   exists w',
     asignarRol fault u r w =
       (inr (mkAsignacion (next_asignacion w) u r), w') /\
     usuarios_roles (db w') =
       usuarios_roles (db w) ++ [mkAsignacion (next_asignacion w) u r]).
Proof.
  intros Hf.
  destruct (asignarRol_paso u r w (Hf _) (Hf _)) as (w' & E & Hdb).
  split; [| split].
  - intros Hin. apply existe_par in Hin. rewrite Hin in E, Hdb.
    exists w'. split; assumption.
  - intros Hn Hfk.
    destruct (existsb (asignado u r) (usuarios_roles (db w))) eqn:Hex.
    { apply existe_par in Hex. contradiction. }
    destruct (violacion (db w) u r) as [e |] eqn:Hv.
    + exists e, w'. split; [exact E |]. split; [| exact Hdb].
      apply (violacion_unica _ _ _ _ Hex Hv).
    + apply violacion_ninguna in Hv. tauto.
  - intros Hn Hu Hr.
    destruct (existsb (asignado u r) (usuarios_roles (db w))) eqn:Hex.
    { apply existe_par in Hex. contradiction. }
    assert (Hv : violacion (db w) u r = None)
      by (apply violacion_ninguna; tauto).
    rewrite Hv in E, Hdb. exists w'. split; [exact E |].
    rewrite Hdb. reflexivity.
Qed.

(** What [removerRol] does when the store answers. *)
Lemma removerRol_paso u r w :
  fault (calls w) = None ->
  exists w',
    removerRol fault u r w =
      (if existsb (asignado u r) (usuarios_roles (db w))
       then inr (Z.of_nat (List.length (filter (asignado u r)
                                               (usuarios_roles (db w)))))
       else inl (Error "El usuario no tiene este rol asignado"), w') /\
    db w' =
      con_usuarios_roles
        (filter (fun a => negb (asignado u r a)) (usuarios_roles (db w)))
        (db w).
Proof.
  intros F0.
  unfold removerRol, UsuarioRol_destroy, bind, issue, view, store, ret,
    throw.
  change (seleccion u (Some r)) with (asignado u r).
  change (fun a => negb (seleccion u (Some r) a))
    with (fun a => negb (asignado u r a)).
  rewrite F0. cbn [calls log db set_secuencias set_db].
  destruct (existsb (asignado u r) (usuarios_roles (db w))) eqn:Hex.
  - destruct (filter (asignado u r) (usuarios_roles (db w))) eqn:Hfil.
    + apply existsb_exists in Hex. destruct Hex as (a & Ha & Hp).
      assert (Hin : In a (filter (asignado u r) (usuarios_roles (db w))))
        by (apply filter_In; split; assumption).
      rewrite Hfil in Hin. destruct Hin.
    + destruct (Z.eqb_spec (Z.of_nat (List.length (u0 :: l))) 0) as [H | H];
        [cbn [List.length] in H; lia |].
      eexists. split; reflexivity.
  - destruct (filter_nada _ _ Hex) as [-> _]. cbn [List.length Z.of_nat Z.eqb].
    eexists. split; reflexivity.
Qed.

Lemma asignarRol_exito u r w a w' :
  asignarRol fault u r w = (inr a, w') ->
  existsb (asignado u r) (usuarios_roles (db w)) = false /\
  violacion (db w) u r = None /\
  a = mkAsignacion (next_asignacion w) u r /\
  db w' = con_usuarios_roles (usuarios_roles (db w) ++ [a]) (db w) /\
  calls w' = S (S (calls w)).
Proof.
  unfold asignarRol, UsuarioRol_findOne, UsuarioRol_create, bind, issue,
    view, store, fresh_asignaciones, ret, throw.
  destruct (fault (calls w)); [discriminate |].
  cbn [calls log db set_secuencias].
  destruct (find (asignado u r) (usuarios_roles (db w))) eqn:Hfind;
    [discriminate |].
  apply find_existsb in Hfind. cbn [calls log db set_secuencias].
  destruct (fault (S (calls w))); [discriminate |].
  cbn [calls log db set_secuencias].
  destruct (violacion (db w) u r); [discriminate |].
  intros E. injection E as <- <-. repeat split. exact Hfind.
Qed.

(** X13. [removerRol] undoes [asignarRol]: after a successful assignment,
    removing the same role deletes one row and the committed tables are
    again what they were before the assignment. *)
Theorem asignar_y_remover u r w a w1 :
  responde fault ->
  asignarRol fault u r w = (inr a, w1) ->
  exists w2,
    removerRol fault u r w1 = (inr 1, w2) /\ db w2 = db w.
Proof.
  intros Hf E. apply asignarRol_exito in E.
  destruct E as (Hex & _ & -> & Hdb & _).
  destruct (removerRol_paso u r w1 (Hf _)) as (w2 & E2 & Hdb2).
  exists w2. rewrite Hdb in E2, Hdb2.
  cbn [usuarios_roles con_usuarios_roles] in E2, Hdb2.
  assert (Hsel : asignado u r (mkAsignacion (next_asignacion w) u r) = true)
    by (apply asignado_par; reflexivity).
  destruct (filter_nada _ _ Hex) as [Hf1 Hf2].
  rewrite existsb_app, Hex in E2. cbn [existsb orb] in E2.
  rewrite Hsel in E2. cbn [orb] in E2.
  rewrite filter_app, Hf1 in E2. cbn [filter app] in E2.
  rewrite Hsel in E2. cbn [List.length Z.of_nat] in E2.
  split; [exact E2 |].
  rewrite Hdb2, filter_app, Hf2. cbn [filter]. rewrite Hsel.
  cbn [negb]. rewrite app_nil_r. destruct (db w); reflexivity.
Qed.

(** X14. When the store answers, [removerRol] fails with its error, changing
    nothing, when the user does not have the role; when it succeeds the
    pair is gone, every other row is kept, and a second call fails. *)
Theorem removerRol_casos u r w :
  responde fault ->
  (~ In (u, r) (pares (db w)) ->
   exists w',
     removerRol fault u r w =
       (inl (Error "El usuario no tiene este rol asignado"), w') /\
     db w' = db w) /\
  (forall n w1,
     removerRol fault u r w = (inr n, w1) ->
     0 < n /\
     ~ In (u, r) (pares (db w1)) /\
     usuarios_roles (db w1) =
       filter (fun a => negb (asignado u r a)) (usuarios_roles (db w)) /\
     exists w2,
       removerRol fault u r w1 =
         (inl (Error "El usuario no tiene este rol asignado"), w2) /\
       db w2 = db w1).
Proof.
  intros Hf.
  assert (Ausente : forall w0,
            existsb (asignado u r) (usuarios_roles (db w0)) = false ->
            exists w',
              removerRol fault u r w0 =
                (inl (Error "El usuario no tiene este rol asignado"), w') /\
              db w' = db w0).
  { intros w0 Hex.
    destruct (removerRol_paso u r w0 (Hf _)) as (w' & E & Hdb).
    rewrite Hex in E. exists w'. split; [exact E |].
    rewrite Hdb. destruct (filter_nada _ _ Hex) as [_ ->].
    apply con_usuarios_roles_mismo. }
  split.
  - intros Hn. apply Ausente.
    destruct (existsb (asignado u r) (usuarios_roles (db w))) eqn:Hex;
      [| reflexivity].
    apply existe_par in Hex. contradiction.
  - intros n w1 E.
    destruct (removerRol_paso u r w (Hf _)) as (w' & E' & Hdb).
    rewrite E in E'.
    destruct (existsb (asignado u r) (usuarios_roles (db w))) eqn:Hex;
      [| discriminate].
    injection E' as En Ew. subst n w'.
    assert (Hgone :
      existsb (asignado u r) (usuarios_roles (db w1)) = false).
    { rewrite Hdb. cbn [usuarios_roles con_usuarios_roles].
      destruct (existsb _ (filter _ _)) eqn:Hx; [| reflexivity].
      apply existsb_exists in Hx. destruct Hx as (a & Ha & Hp).
      apply filter_In in Ha. destruct Ha as [_ Ha].
      rewrite Hp in Ha. discriminate. }
    split; [| split; [| split]].
    + apply existsb_exists in Hex. destruct Hex as (a & Ha & Hp).
      assert (Hin : In a (filter (asignado u r) (usuarios_roles (db w))))
        by (apply filter_In; split; assumption).
      destruct (filter (asignado u r) (usuarios_roles (db w)));
        [destruct Hin | cbn [List.length]; lia].
    + intros Hin. apply existe_par in Hin. congruence.
    + rewrite Hdb. reflexivity.
    + apply Ausente. exact Hgone.
Qed.

(** *** [sincronizarRoles] *)

Lemma insertar_exito ps : forall id tb created tb',
  insertar id ps tb = inr (created, tb') ->
  created = numerar id ps /\
  tb' = con_usuarios_roles (usuarios_roles tb ++ created) tb /\
  forall a, In a created ->
    In (a_usuario_id a) (map Auth.u_id (usuarios tb)) /\
    In (a_rol_id a) (map r_id (roles tb)).
Proof.
  induction ps as [| [u r] rest IH]; intros id tb created tb'; cbn [insertar].
  - intros E. injection E as <- <-. cbn [numerar].
    rewrite app_nil_r, con_usuarios_roles_mismo.
    split; [reflexivity |]. split; [reflexivity |]. intros x [].
  - destruct (violacion tb u r) eqn:Hv; [discriminate |].
    destruct (insertar (id + 1) rest _) as [e | [c tb1]] eqn:Hi;
      [discriminate |].
    intros E. injection E as <- <-.
    apply IH in Hi. destruct Hi as (-> & -> & Hfk).
    cbn [numerar]. split; [reflexivity |]. split.
    + cbn [con_usuarios_roles usuarios_roles inventarios usuarios roles].
      rewrite <- app_assoc. reflexivity.
    + intros x [<- | Hx].
      * apply violacion_ninguna in Hv. cbn [a_usuario_id a_rol_id]. tauto.
      * exact (Hfk x Hx).
Qed.

Lemma pares_numerar id ps :
  map (fun a => (a_usuario_id a, a_rol_id a)) (numerar id ps) = ps.
Proof.
  revert id. induction ps as [| [u r] rest IH]; intros id; cbn; [reflexivity |].
  rewrite IH. reflexivity.
Qed.

Lemma numerar_del_usuario u ids : forall id,
  filter (fun a => a_usuario_id a =? u)
         (numerar id (map (fun r => (u, r)) ids)) =
    numerar id (map (fun r => (u, r)) ids) /\
  filter (fun a => negb (a_usuario_id a =? u))
         (numerar id (map (fun r => (u, r)) ids)) = [] /\
  map a_rol_id (numerar id (map (fun r => (u, r)) ids)) = ids.
Proof.
  induction ids as [| r rest IH]; intros id; cbn; [repeat split |].
  rewrite Z.eqb_refl. cbn [negb].
  destruct (IH (id + 1)) as (-> & -> & ->). repeat split.
Qed.

Lemma insertar_posible u ids : forall id tb,
  (forall r, In r ids -> ~ In (u, r) (pares tb)) ->
  NoDup ids ->
  In u (map Auth.u_id (usuarios tb)) ->
  incl ids (map r_id (roles tb)) ->
  exists tb',
    insertar id (map (fun r => (u, r)) ids) tb =
      inr (numerar id (map (fun r => (u, r)) ids), tb').
Proof.
  induction ids as [| r rest IH]; intros id tb Hn Hnd Hu Hr; cbn.
  - eexists. reflexivity.
  - assert (Hv : violacion tb u r = None).
    { apply violacion_ninguna. split; [apply Hn; left; reflexivity |].
      split; [exact Hu | apply Hr; left; reflexivity]. }
    rewrite Hv.
    inversion Hnd as [| ? ? Hnotin Hnd']; subst.
    destruct (IH (id + 1)
                (con_usuarios_roles
                   (usuarios_roles tb ++ [mkAsignacion id u r]) tb))
      as (tb' & E).
    + intros r' Hr' Hin. unfold pares in Hin.
      cbn [usuarios_roles con_usuarios_roles] in Hin.
      rewrite map_app in Hin. apply in_app_or in Hin.
      destruct Hin as [Hin | [Hin | []]].
      * apply (Hn r'); [right; exact Hr' | exact Hin].
      * cbn in Hin. injection Hin as <-. contradiction.
    + exact Hnd'.
    + exact Hu.
    + intros x Hx. apply Hr. right. exact Hx.
    + rewrite E. eexists. reflexivity.
Qed.

(** The rows that [Rol.findAll] returns are as many as the ids exactly when
    the ids are distinct and all exist. *)
Lemma NoDup_map_filter {A B} (f : A -> B) (p : A -> bool) l :
  NoDup (map f l) -> NoDup (map f (filter p l)).
Proof.
  induction l as [| x r IH]; cbn; [trivial |].
  intros H. inversion H as [| ? ? Hx Hr]; subst.
  destruct (p x); [| exact (IH Hr)].
  cbn. constructor; [| exact (IH Hr)].
  intros Hin. apply Hx. apply in_map_iff in Hin.
  destruct Hin as (y & Ey & Hy). apply filter_In in Hy.
  apply in_map_iff. exists y. tauto.
Qed.

Lemma todos_existen (rs : list Rol) ids :
  NoDup (map r_id rs) ->
  (List.length (filter (fun r => existsb (Z.eqb (r_id r)) ids) rs)
   = List.length ids
   <-> NoDup ids /\ incl ids (map r_id rs)).
Proof.
  intros Hnd.
  set (F := map r_id (filter (fun r => existsb (Z.eqb (r_id r)) ids) rs)).
  assert (HF : NoDup F) by (apply NoDup_map_filter; exact Hnd).
  assert (Hlen : List.length F
                 = List.length (filter (fun r => existsb (Z.eqb (r_id r)) ids)
                                       rs))
    by (apply length_map).
  assert (Hin : incl F ids).
  { intros x Hx. apply in_map_iff in Hx. destruct Hx as (y & <- & Hy).
    apply filter_In in Hy. destruct Hy as [_ Hy].
    apply existsb_exists in Hy. destruct Hy as (z & Hz & Ez).
    apply Z.eqb_eq in Ez. rewrite Ez. exact Hz. }
  assert (Hsub : incl F (map r_id rs)).
  { intros x Hx. apply in_map_iff in Hx. destruct Hx as (y & <- & Hy).
    apply filter_In in Hy. apply in_map. tauto. }
  rewrite <- Hlen. split.
  - intros E. split.
    + apply (@NoDup_incl_NoDup _ F ids HF); [lia | exact Hin].
    + intros x Hx. apply Hsub.
      apply (@NoDup_length_incl _ F ids HF); [lia | exact Hin | exact Hx].
  - intros [Hids Hall].
    assert (Hback : incl ids F).
    { intros x Hx. pose proof (Hall x Hx) as Hr.
      apply in_map_iff in Hr. destruct Hr as (y & <- & Hy).
      apply in_map_iff. exists y. split; [reflexivity |].
      apply filter_In. split; [exact Hy |].
      apply existsb_exists. exists (r_id y).
      split; [exact Hx | apply Z.eqb_refl]. }
    apply Nat.le_antisymm.
    + apply NoDup_incl_length; assumption.
    + apply NoDup_incl_length; assumption.
Qed.

Lemma Usuario_findByPk_exito id t tb w o w' :
  tx w = Some (t, tb) ->
  Usuario_findByPk fault id (Some t) w = (inr o, w') ->
  o = find (fun u => Auth.u_id u =? id) (usuarios tb) /\
  w' = log (OpUsuarioFindByPk id (Some t)) w.
Proof.
  intros Htx. unfold Usuario_findByPk, bind, issue.
  destruct (fault (calls w)); [discriminate |].
  rewrite (view_abierta t tb) by exact Htx.
  cbn. intros E. injection E as <- <-. split; reflexivity.
Qed.

Lemma Rol_findAll_exito ids t tb w o w' :
  tx w = Some (t, tb) ->
  Rol_findAll fault ids (Some t) w = (inr o, w') ->
  o = filter (fun r => existsb (Z.eqb (r_id r)) ids) (roles tb) /\
  w' = log (OpRolFindAll ids (Some t)) w.
Proof.
  intros Htx. unfold Rol_findAll, bind, issue.
  destruct (fault (calls w)); [discriminate |].
  rewrite (view_abierta t tb) by exact Htx.
  cbn. intros E. injection E as <- <-. split; reflexivity.
Qed.

Lemma destroy_exito u t tb w n w' :
  tx w = Some (t, tb) ->
  UsuarioRol_destroy fault u None (Some t) w = (inr n, w') ->
  w' = set_tx (Some (t, con_usuarios_roles (de_otros u tb) tb))
         (log (OpUsuarioRolDestroy u None (Some t)) w).
Proof.
  intros Htx. unfold UsuarioRol_destroy, bind, issue.
  destruct (fault (calls w)); [discriminate |].
  rewrite (view_abierta t tb) by exact Htx.
  cbn. intros E. injection E as _ <-. reflexivity.
Qed.

Lemma bulkCreate_exito ps t tb w created w' :
  tx w = Some (t, tb) ->
  UsuarioRol_bulkCreate fault ps (Some t) w = (inr created, w') ->
  exists tb',
    insertar (next_asignacion w) ps tb = inr (created, tb') /\
    tx w' = Some (t, tb') /\ db w' = db w /\ calls w' = S (calls w).
Proof.
  intros Htx. unfold UsuarioRol_bulkCreate, bind, issue.
  destruct (fault (calls w)); [discriminate |].
  rewrite (view_abierta t tb) by exact Htx.
  cbn [fresh_asignaciones].
  match goal with
  | |- context [insertar ?n ps tb] => change n with (next_asignacion w)
  end.
  destruct (insertar (next_asignacion w) ps tb) as [e | [c tb']];
    [discriminate |].
  cbn. intros E. injection E as <- <-. exists tb'. repeat split.
Qed.

(** What a successful [sincronizarRoles] has done. *)
Lemma sincronizarRoles_exito u ids w created w' :
  sincronizarRoles fault u ids w = (inr created, w') ->
  In u (map Auth.u_id (usuarios (db w))) /\
  List.length (filter (fun r => existsb (Z.eqb (r_id r)) ids)
                      (roles (db w)))
    = List.length ids /\
  incl ids (map r_id (roles (db w))) /\
  created = numerar (next_asignacion w) (map (fun r => (u, r)) ids) /\
  db w' = con_usuarios_roles (de_otros u (db w) ++ created) (db w) /\
  tx w' = None /\
  calls w' = (calls w + 6)%nat.
Proof.
  unfold sincronizarRoles. intros E.
  apply ligar_inr in E. destruct E as (t & w1 & Et & E).
  apply transaction_exito in Et. destruct Et as (_ & ->).
  unfold try_catch in E.
  match type of E with
  | match ?m with _ => _ end = _ => destruct m as [[e | c] w2] eqn:C
  end; [discriminate |].
  injection E as -> ->.
  apply ligar_inr in C. destruct C as (o & w2 & Ef & C).
  apply (Usuario_findByPk_exito _ _ (db w)) in Ef; [| reflexivity].
  destruct Ef as (-> & ->).
  destruct (find _ (usuarios (db w))) as [usuario |] eqn:Hu; [| discriminate].
  apply ligar_inr in C. destruct C as (rs & w3 & Er & C).
  apply (Rol_findAll_exito _ _ (db w)) in Er; [| reflexivity].
  destruct Er as (-> & ->).
  destruct (Nat.eqb_spec
              (List.length (filter (fun r => existsb (Z.eqb (r_id r)) ids)
                                   (roles (db w))))
              (List.length ids)) as [Hlen | Hlen]; [| discriminate].
  cbn [negb] in C.
  apply ligar_inr in C. destruct C as (n & w4 & Ed & C).
  apply (destroy_exito _ _ (db w)) in Ed; [| reflexivity]. subst w4.
  apply ligar_inr in C. destruct C as (c & w5 & Eb & C).
  eapply bulkCreate_exito in Eb; [| reflexivity].
  destruct Eb as (tb' & Ei & Htx & Hdb & Hcalls).
  apply insertar_exito in Ei. destruct Ei as (-> & -> & Hfk).
  apply ligar_inr in C. destruct C as (x & w6 & Ec & C).
  eapply commit_exito in Ec; [| exact Htx]. subst w6.
  injection C as <- <-.
  cbn [next_asignacion set_tx log db tx calls].
  split.
  { apply find_some in Hu. destruct Hu as [Hin Heq].
    apply Z.eqb_eq in Heq. subst u. apply in_map. exact Hin. }
  split; [exact Hlen |].
  split.
  { intros r Hr.
    assert (Ha : In (mkAsignacion 0 u r)
                    (map (fun a => mkAsignacion 0 (a_usuario_id a) (a_rol_id a))
                         (numerar (next_asignacion w)
                                  (map (fun r0 => (u, r0)) ids)))).
    { apply in_map_iff.
      assert (Hp : In (u, r)
                      (map (fun a => (a_usuario_id a, a_rol_id a))
                           (numerar (next_asignacion w)
                                    (map (fun r0 => (u, r0)) ids)))).
      { rewrite pares_numerar. apply in_map. exact Hr. }
      apply in_map_iff in Hp. destruct Hp as (a & Ea & Ha).
      exists a. injection Ea as -> ->. split; [reflexivity | exact Ha]. }
    apply in_map_iff in Ha. destruct Ha as (a & Ea & Ha).
    injection Ea as _ <-. exact (proj2 (Hfk a Ha)). }
  split; [reflexivity |].
  split; [reflexivity |].
  split; [reflexivity |].
  rewrite Hcalls. cbn [calls log set_tx]. lia.
Qed.

Lemma find_usuario u (us : list Auth.UsuarioRow) :
  find (fun x => Auth.u_id x =? u) us = None <-> ~ In u (map Auth.u_id us).
Proof.
  rewrite find_existsb. split.
  - intros H Hin. apply in_map_iff in Hin. destruct Hin as (x & Ex & Hx).
    assert (existsb (fun x => Auth.u_id x =? u) us = true).
    { apply existsb_exists. exists x. split; [exact Hx | apply Z.eqb_eq; exact Ex]. }
    congruence.
  - intros H. destruct (existsb _ us) eqn:Hex; [| reflexivity].
    apply existsb_exists in Hex. destruct Hex as (x & Hx & Ex).
    apply Z.eqb_eq in Ex. exfalso. apply H. apply in_map_iff.
    exists x. split; assumption.
Qed.

(** The rows of a user after they have been replaced. *)
Lemma filter_filter_neg {A} (p : A -> bool) l :
  filter p (filter (fun x => negb (p x)) l) = [] /\
  filter (fun x => negb (p x)) (filter (fun x => negb (p x)) l)
    = filter (fun x => negb (p x)) l.
Proof.
  induction l as [| x r [IH1 IH2]]; cbn; [split; reflexivity |].
  destruct (p x) eqn:Hp; cbn; [split; assumption |].
  rewrite Hp. cbn. rewrite IH1, IH2. split; reflexivity.
Qed.

Lemma reemplazo u ids id tb :
  roles_de u (con_usuarios_roles
                (de_otros u tb ++ numerar id (map (fun r => (u, r)) ids)) tb)
    = ids /\
  de_otros u (con_usuarios_roles
                (de_otros u tb ++ numerar id (map (fun r => (u, r)) ids)) tb)
    = de_otros u tb.
Proof.
  unfold roles_de, de_otros. cbn [usuarios_roles con_usuarios_roles].
  rewrite !filter_app.
  destruct (numerar_del_usuario u ids id) as (-> & -> & Hm).
  destruct (filter_filter_neg (fun a => a_usuario_id a =? u)
                              (usuarios_roles tb)) as [-> ->].
  cbn [app]. rewrite app_nil_r. split; [exact Hm | reflexivity].
Qed.

Lemma sin_filas_del_usuario u tb r :
  ~ In (u, r) (pares (con_usuarios_roles (de_otros u tb) tb)).
Proof.
  unfold pares, de_otros. cbn [usuarios_roles con_usuarios_roles].
  intros Hin. apply in_map_iff in Hin. destruct Hin as (a & Ea & Ha).
  apply filter_In in Ha. destruct Ha as [_ Ha].
  injection Ea as Eu _. rewrite Eu, Z.eqb_refl in Ha. discriminate.
Qed.

(** What [sincronizarRoles] does when the store answers. *)
Lemma sincronizarRoles_paso u ids w :
  responde fault ->
  exists w',
    sincronizarRoles fault u ids w =
      (match find (fun x => Auth.u_id x =? u) (usuarios (db w)) with
       | None => inl (Error "Usuario no encontrado")
       | Some _ =>
           if negb (Nat.eqb
                      (List.length
                         (filter (fun r => existsb (Z.eqb (r_id r)) ids)
                                 (roles (db w))))
                      (List.length ids))
           then inl (Error "Uno o más roles no existen")
           else
             match insertar (next_asignacion w) (map (fun r => (u, r)) ids)
                     (con_usuarios_roles (de_otros u (db w)) (db w)) with
             | inl e => inl e
             | inr (created, _) => inr created
             end
       end, w').
Proof.
  intros Hf.
  unfold sincronizarRoles, sequelize_transaction, Usuario_findByPk,
    Rol_findAll, UsuarioRol_destroy, UsuarioRol_bulkCreate, commit, rollback,
    bind, try_catch, issue, view, store, fresh_asignaciones, ret, throw.
  rewrite Hf. cbn [calls log set_tx tx set_secuencias db].
  rewrite Hf. cbn [calls log set_tx tx set_secuencias db]. rewrite Nat.eqb_refl.
  cbn [usuarios].
  destruct (find _ (usuarios (db w))); [| eexists; reflexivity].
  rewrite Hf. cbn [calls log set_tx tx set_secuencias db]. rewrite Nat.eqb_refl.
  cbn [roles].
  destruct (negb _); [eexists; reflexivity |].
  rewrite Hf. cbn [calls log set_tx tx set_secuencias db]. rewrite Nat.eqb_refl.
  cbn [calls log set_tx tx set_secuencias db].
  rewrite Hf. cbn [calls log set_tx tx set_secuencias db next_asignacion].
  rewrite Nat.eqb_refl.
  change (filter (fun a => negb (seleccion u None a)) (usuarios_roles (db w)))
    with (de_otros u (db w)).
  destruct (insertar _ _ _) as [e | [created tb']]; [eexists; reflexivity |].
  cbn [calls log set_tx tx set_secuencias db]. rewrite Hf.
  cbn [calls log set_tx tx set_secuencias db]. rewrite Nat.eqb_refl.
  eexists. reflexivity.
Qed.

Lemma sincronizarRoles_si_falla u ids :
  conserva_si_falla (sincronizarRoles fault u ids).
Proof.
  unfold sincronizarRoles. apply (patron_si_falla _ (fun e => e)). intros t.
  apply conserva_bind_si_falla;
    [apply conserva_Usuario_findByPk | intros [usuario |]];
    [| apply conserva_debil, conserva_throw].
  apply conserva_bind_si_falla; [apply conserva_Rol_findAll | intros rs].
  destruct (negb _); [apply conserva_debil, conserva_throw |].
  apply conserva_bind_si_falla; [apply conserva_destroy | intro].
  apply conserva_bind_si_falla; [apply conserva_bulkCreate | intro].
  apply commit_y_ret_si_falla.
Qed.

Lemma sincronizarRoles_posible u ids w :
  responde fault ->
  In u (map Auth.u_id (usuarios (db w))) ->
  NoDup (map r_id (roles (db w))) ->
  NoDup ids ->
  incl ids (map r_id (roles (db w))) ->
  exists w',
    sincronizarRoles fault u ids w =
      (inr (numerar (next_asignacion w) (map (fun r => (u, r)) ids)), w').
Proof.
  intros Hf Hu Hrs Hids Hall.
  destruct (sincronizarRoles_paso u ids w Hf) as (w' & E).
  exists w'. rewrite E. f_equal.
  destruct (find _ (usuarios (db w))) eqn:Hfind.
  - assert (Hlen : List.length
                     (filter (fun r => existsb (Z.eqb (r_id r)) ids)
                             (roles (db w)))
                   = List.length ids)
      by (apply todos_existen; [exact Hrs | split; assumption]).
    rewrite Hlen, Nat.eqb_refl. cbn [negb].
    destruct (insertar_posible u ids (next_asignacion w)
                (con_usuarios_roles (de_otros u (db w)) (db w)))
      as (tb' & Ei).
    + intros r _. apply sin_filas_del_usuario.
    + exact Hids.
    + exact Hu.
    + exact Hall.
    + rewrite Ei. reflexivity.
  - apply find_usuario in Hfind. contradiction.
Qed.

(** X15. A successful [sincronizarRoles] replaces the roles of the user: the
    user has exactly the given roles, in the given order, the rows of the
    other users and the other tables are untouched, and
    [obtenerRolesDeUsuario] reads the same roles back. *)
Theorem sincronizarRoles_reemplaza u ids w created w' :
  sincronizarRoles fault u ids w = (inr created, w') ->
  map a_rol_id created = ids /\
  roles_de u (db w') = ids /\
  de_otros u (db w') = de_otros u (db w) /\
  usuarios (db w') = usuarios (db w) /\
  roles (db w') = roles (db w) /\
  inventarios (db w') = inventarios (db w) /\
  ventas (db w') = ventas (db w) /\
  detalles (db w') = detalles (db w) /\
  forall opts,
    fault (calls w') = None ->
    exists filas w'',
      obtenerRolesDeUsuario fault u opts w' = (inr filas, w'') /\
      map (fun f => a_rol_id (fila f)) filas = ids.
Proof.
  intros E. apply sincronizarRoles_exito in E.
  destruct E as (_ & _ & _ & -> & Hdb & _ & _).
  destruct (reemplazo u ids (next_asignacion w) (db w)) as [Hr Ho].
  destruct (numerar_del_usuario u ids (next_asignacion w)) as (_ & _ & Hm).
  rewrite Hdb.
  split; [exact Hm |]. split; [exact Hr |]. split; [exact Ho |].
  split; [reflexivity |]. split; [reflexivity |]. split; [reflexivity |].
  split; [reflexivity |]. split; [reflexivity |].
  intros opts F.
  unfold obtenerRolesDeUsuario, UsuarioRol_findAll, bind, issue, view, ret.
  rewrite F. cbn [db log]. eexists. eexists. split; [reflexivity |].
  rewrite map_map.
  assert (Hfila : forall tb inc a, fila (unir tb inc a) = a).
  { intros tb inc a. unfold unir.
    assert (G : forall f, fila (fold_left
               (fun f0 inc0 =>
                  match inc0 with
                  | IncUsuario exclude =>
                      mkFila (fila f0)
                        (Some (option_map
                                 (fun u0 =>
                                    filter (fun kv =>
                                              negb (existsb
                                                      (String.eqb (fst kv))
                                                      exclude))
                                           (atributos u0))
                                 (find (fun u0 => Auth.u_id u0 =? a_usuario_id a)
                                       (usuarios tb))))
                        (fila_rol f0)
                  | IncRol =>
                      mkFila (fila f0) (fila_usuario f0)
                        (Some (find (fun r => r_id r =? a_rol_id a) (roles tb)))
                  end) inc f) = fila f).
    { induction inc as [| i r IH]; intros f; cbn [fold_left]; [reflexivity |].
      rewrite IH. destruct i; reflexivity. }
    apply G. }
  rewrite (map_ext _ a_rol_id) by (intros a; rewrite Hfila; reflexivity).
  rewrite Hdb. exact Hr.
Qed.

(** X16. Every failure of [sincronizarRoles], whichever store call rejects,
    leaves the committed tables as they were: the old roles are not lost. *)
Theorem sincronizarRoles_revierte u ids w e w' :
  sincronizarRoles fault u ids w = (inl e, w') -> db w' = db w.
Proof. apply sincronizarRoles_si_falla. Qed.

(** X17. When the store answers and the keys of [roles] are distinct,
    [sincronizarRoles] succeeds exactly when the user exists and the ids are
    distinct and all exist.  It fails with "Usuario no encontrado" for an
    unknown user, and otherwise with "Uno o más roles no existen": also for
    a list in which an existing role is given twice. *)
Theorem sincronizarRoles_criterio u ids w :
  responde fault ->
  NoDup (map r_id (roles (db w))) ->
  (~ In u (map Auth.u_id (usuarios (db w))) ->
   exists w',
     sincronizarRoles fault u ids w =
       (inl (Error "Usuario no encontrado"), w')) /\
  (In u (map Auth.u_id (usuarios (db w))) ->
   ~ (NoDup ids /\ incl ids (map r_id (roles (db w)))) ->
   exists w',
     sincronizarRoles fault u ids w =
       (inl (Error "Uno o más roles no existen"), w')) /\
  (In u (map Auth.u_id (usuarios (db w))) ->
   NoDup ids -> incl ids (map r_id (roles (db w))) ->
   exists created w',
     sincronizarRoles fault u ids w = (inr created, w')).
Proof.
  intros Hf Hrs.
  destruct (sincronizarRoles_paso u ids w Hf) as (w' & E).
  split; [| split].
  - intros Hu. apply find_usuario in Hu. rewrite Hu in E.
    exists w'. exact E.
  - intros Hu Hno.
    destruct (find _ (usuarios (db w))) eqn:Hfind.
    + destruct (Nat.eqb_spec
                  (List.length
                     (filter (fun r => existsb (Z.eqb (r_id r)) ids)
                             (roles (db w))))
                  (List.length ids)) as [Hlen | Hlen].
      * apply todos_existen in Hlen; [contradiction | exact Hrs].
      * exists w'. exact E.
    + apply find_usuario in Hfind. contradiction.
  - intros Hu Hids Hall.
    destruct (sincronizarRoles_posible u ids w Hf Hu Hrs Hids Hall)
      as (w1 & E1).
    eexists. eexists. exact E1.
Qed.

(** X18. [sincronizarRoles] is idempotent on the roles: after a successful
    call, the same call succeeds again and leaves every user with the same
    roles (the rows of the user are new ones, under fresh keys). *)
Theorem sincronizarRoles_idempotente u ids w created w1 :
  responde fault ->
  NoDup (map r_id (roles (db w))) ->
  sincronizarRoles fault u ids w = (inr created, w1) ->
  exists created' w2,
    sincronizarRoles fault u ids w1 = (inr created', w2) /\
    roles_de u (db w2) = roles_de u (db w1) /\
    de_otros u (db w2) = de_otros u (db w1) /\
    map a_rol_id created' = map a_rol_id created.
Proof.
  intros Hf Hrs E. apply sincronizarRoles_exito in E.
  destruct E as (Hu & Hlen & Hall & -> & Hdb & _ & _).
  apply todos_existen in Hlen; [| exact Hrs]. destruct Hlen as [Hids _].
  assert (Hus : usuarios (db w1) = usuarios (db w))
    by (rewrite Hdb; reflexivity).
  assert (Hro : roles (db w1) = roles (db w))
    by (rewrite Hdb; reflexivity).
  destruct (sincronizarRoles_posible u ids w1 Hf) as (w2 & E2).
  - rewrite Hus. exact Hu.
  - rewrite Hro. exact Hrs.
  - exact Hids.
  - rewrite Hro. exact Hall.
  - eexists. exists w2. split; [exact E2 |].
    apply sincronizarRoles_exito in E2.
    destruct E2 as (_ & _ & _ & _ & Hdb2 & _ & _).
    destruct (reemplazo u ids (next_asignacion w1) (db w1)) as [Hr Ho].
    destruct (reemplazo u ids (next_asignacion w) (db w)) as [Hr1 _].
    rewrite Hdb2. split; [| split].
    + rewrite Hr. rewrite Hdb. symmetry. exact Hr1.
    + exact Ho.
    + destruct (numerar_del_usuario u ids (next_asignacion w1))
        as (_ & _ & ->).
      destruct (numerar_del_usuario u ids (next_asignacion w))
        as (_ & _ & ->).
      reflexivity.
Qed.

(** *** The services and the guard *)

Lemma find_rol id (rs : list Rol) :
  In id (map r_id rs) ->
  exists r, find (fun r => r_id r =? id) rs = Some r.
Proof.
  intros Hin. destruct (find _ rs) as [r |] eqn:Hf; [exists r; reflexivity |].
  apply find_existsb in Hf. apply in_map_iff in Hin.
  destruct Hin as (x & Ex & Hx).
  assert (existsb (fun r => r_id r =? id) rs = true).
  { apply existsb_exists. exists x. split; [exact Hx | apply Z.eqb_eq; exact Ex]. }
  congruence.
Qed.

Lemma nombres_identidad u rs (l : list UsuarioRol) :
  (forall a, In a l -> a_usuario_id a = u -> In (a_rol_id a) (map r_id rs)) ->
  Auth.nombres
    (filter (fun ur => Auth.ur_usuario_id ur =? u)
       (map (fun a =>
               Auth.mkUsuarioRol (a_usuario_id a)
                 (option_map r_nombre
                    (find (fun r => r_id r =? a_rol_id a) rs)))
            l)) =
  inr (flat_map (fun id =>
                   match find (fun r => r_id r =? id) rs with
                   | Some r => [r_nombre r]
                   | None => []
                   end)
                (map a_rol_id (filter (fun a => a_usuario_id a =? u) l))).
Proof.
  induction l as [| a rest IH]; intros Hfk; [reflexivity |].
  cbn [map filter Auth.ur_usuario_id].
  assert (Hrest : forall x, In x rest -> a_usuario_id x = u ->
                            In (a_rol_id x) (map r_id rs))
    by (intros x Hx; apply Hfk; right; exact Hx).
  destruct (Z.eqb_spec (a_usuario_id a) u) as [Eu | Nu].
  - destruct (find_rol (a_rol_id a) rs (Hfk a (or_introl eq_refl) Eu))
      as [r Hr].
    cbn [Auth.nombres Auth.ur_rol_nombre map flat_map].
    rewrite Hr. cbn [option_map]. rewrite (IH Hrest). reflexivity.
  - apply IH. exact Hrest.
Qed.

(** X20. The guard sees what [sincronizarRoles] wrote: for a subject without
    cached roles, [verificarRol] over the tables that a successful
    [sincronizarRoles] leaves lets the request through exactly when one of
    the roles just given to the user is among the permitted ones. *)
Theorem sincronizar_y_guardia u ids w created w' rolesPermitidos req p :
  sincronizarRoles fault u ids w = (inr created, w') ->
  Auth.usuario req = Some p ->
  Auth.id p = u ->
  Auth.roles p = None ->
  (exists req' s,
     Auth.verificarRol rolesPermitidos req (identidad (db w'))
       = (inr (Auth.Next req'), s))
  <-> Auth.intersecta rolesPermitidos (nombres_de ids (db w')).
Proof.
  intros E Hreq Hid Hroles.
  apply sincronizarRoles_exito in E.
  destruct E as (_ & _ & Hall & -> & Hdb & _ & _).
  destruct (reemplazo u ids (next_asignacion w) (db w)) as [Hr _].
  assert (Hn :
    Auth.nombres
      (filter (fun ur => Auth.ur_usuario_id ur =? u)
              (Auth.usuarios_roles (identidad (db w'))))
    = inr (nombres_de ids (db w'))).
  { unfold identidad. cbn [Auth.usuarios_roles].
    rewrite nombres_identidad.
    - unfold nombres_de. rewrite <- Hdb in Hr. unfold roles_de in Hr.
      rewrite Hr. reflexivity.
    - intros a Ha Ea. rewrite Hdb in Ha |- *.
      cbn [usuarios_roles con_usuarios_roles roles] in Ha |- *.
      apply in_app_or in Ha. destruct Ha as [Ha | Ha].
      + unfold de_otros in Ha. apply filter_In in Ha. destruct Ha as [_ Ha].
        rewrite Ea, Z.eqb_refl in Ha. discriminate.
      + apply Hall.
        destruct (numerar_del_usuario u ids (next_asignacion w))
          as (_ & _ & Hm).
        rewrite <- Hm. apply in_map. exact Ha. }
  rewrite <- AuthFacts.tienePermiso_intersecta.
  unfold Auth.verificarRol. rewrite Hreq.
  unfold Auth.resolver_roles. rewrite Hroles.
  unfold Auth.UsuarioRol_findAll. cbn [Auth.disponible identidad].
  rewrite Hid.
  change (Auth.usuarios_roles
            (Auth.asked (Auth.QUsuarioRolFindAll u) (identidad (db w'))))
    with (Auth.usuarios_roles (identidad (db w'))).
  fold (identidad (db w')). rewrite Hn.
  destruct (Auth.tienePermiso rolesPermitidos (nombres_de ids (db w')));
    cbn [negb]; split.
  - reflexivity.
  - intros _. eexists. eexists. reflexivity.
  - intros (req' & s & Habs). discriminate.
  - discriminate.
Qed.

(** *** [obtenerRolesDeUsuario] *)

Lemma fila_unir tb inc a : fila (unir tb inc a) = a.
Proof.
  unfold unir.
  match goal with
  | |- fila (fold_left ?g inc ?f0) = _ =>
      assert (G : forall f, fila (fold_left g inc f) = fila f)
  end.
  { induction inc as [| i r IH]; intros f; cbn [fold_left]; [reflexivity |].
    rewrite IH. destruct i; reflexivity. }
  apply G.
Qed.

(** X21. [obtenerRolesDeUsuario] only reads: it returns the rows of the user,
    whatever the options, and the user joined to a row never carries the
    [password] column. *)
Theorem obtenerRolesDeUsuario_sin_password u opts w filas w' :
  obtenerRolesDeUsuario fault u opts w = (inr filas, w') ->
  db w' = db w /\
  map fila filas =
    filter (fun a => a_usuario_id a =? u) (usuarios_roles (db w)) /\
  forall f columnas,
    In f filas ->
    fila_usuario f = Some (Some columnas) ->
    ~ In "password"%string (map fst columnas).
Proof.
  unfold obtenerRolesDeUsuario.
  match goal with
  | |- UsuarioRol_findAll _ _ ?i _ = _ -> _ => set (inc := i)
  end.
  assert (Hinc : inc = [] \/ inc = [IncRol]
                 \/ inc = [IncUsuario ["password"%string]]
                 \/ inc = [IncUsuario ["password"%string]; IncRol]).
  { subst inc.
    destruct (match opts with
              | Some l => existsb (String.eqb "usuario") l
              | None => false
              end);
      destruct (match opts with
                | Some l => existsb (String.eqb "rol") l
                | None => false
                end); cbn [app]; tauto. }
  clearbody inc.
  unfold UsuarioRol_findAll, bind, issue, view, ret.
  destruct (fault (calls w)); [discriminate |].
  cbn [db log]. intros E. injection E as <- <-.
  split; [reflexivity |]. split.
  - rewrite map_map. rewrite (map_ext _ (fun a => a)) by apply fila_unir.
    apply map_id.
  - intros f attrs Hf. apply in_map_iff in Hf. destruct Hf as (a & <- & _).
    destruct Hinc as [-> | [-> | [-> | ->]]];
      cbn [unir fold_left fila_usuario]; try discriminate;
      (match goal with
       | |- context [find ?q (usuarios (db w))] =>
           destruct (find q (usuarios (db w))) as [x |]
       end;
       cbn [option_map]; [| discriminate];
       intros Ex; injection Ex as <-;
       cbn; intuition discriminate).
Qed.

End ConFallos.


(** *** The theorems at work

    The store of the examples holds 8 units of product 10 (as the string
    the driver returns) and 3 units of product 20 at version 4, the users
    ana (1) and luis (2), the roles admin (1), vendedor (2) and gerente (3),
    ana being a seller and luis a manager, and the order 7. *)

Lemma nadie_responde : responde nadie.
Proof. intros n. reflexivity. Qed.

(** The object has no lines. *)
Lemma crearVenta_todo_o_nada_witness :
  exists m w',
    crearVenta nadie venta_sin_detalles inicio = (inl (TypeError m), w') /\
    ventas (db w') = ventas (db inicio).
Proof.
  destruct (proj2 (crearVenta_todo_o_nada nadie venta_sin_detalles inicio)
              eq_refl eq_refl eq_refl) as (m & w' & E & Hdb & _).
  exists m, w'. split; [exact E |]. rewrite Hdb. reflexivity.
Defined.

(** The order 8 is created with two lines that the caller has marked with
    the order 7. *)
Lemma crearVenta_persiste_witness :
  exists venta w' nuevas,
    crearVenta nadie venta_con_detalles inicio = (inr venta, w') /\
    Ventas.venta_pk venta = JNum (of_Z 8) /\
    detalles (db w') = nuevas /\
    map (fun d => Ventas.venta_id (Ventas.det_item d)) nuevas
      = [Ventas.num 7; Ventas.num 7].
Proof.
  eassert (H : crearVenta nadie venta_con_detalles inicio = (inr _, _))
    by (vm_compute; reflexivity).
  match type of H with _ = (inr ?v, ?w) => exists v, w end.
  destruct (crearVenta_persiste nadie _ _ _ _ H)
    as (items & Hi & Hv & _ & Hd & Hm & _).
  injection Hi as <-.
  exists (Ventas.number_from (next_detalle inicio) Ventas.lote).
  split; [exact H |]. split; [rewrite Hv; reflexivity |].
  split; [exact Hd |]. rewrite Hm. reflexivity.
Defined.

(** The commit is rejected after the stock has been written under the
    transaction: the committed stock is still 8. *)
Lemma actualizarInventario_revierte_witness :
  exists e w',
    actualizarInventario (falla_en 3 caida) 10 (of_Z 3) inicio = (inl e, w') /\
    db w' = db inicio.
Proof.
  eassert (H : actualizarInventario (falla_en 3 caida) 10 (of_Z 3) inicio
               = (inl _, _)) by (vm_compute; reflexivity).
  match type of H with _ = (inl ?e, ?w) => exists e, w end.
  split; [exact H |].
  exact (actualizarInventario_revierte _ _ _ _ _ _ H).
Defined.

(** Nine units are asked of a stock of eight. *)
Lemma existencias_insuficientes_witness :
  exists w',
    actualizarInventario nadie 10 (of_Z 9) inicio =
      (inl (Error "Stock insuficiente"), w') /\
    db w' = db inicio.
Proof.
  refine (proj2 (existencias_insuficientes nadie 10 (of_Z 9) inicio
                   nadie_responde)
                (mkInventario 1 10 (JStr "8") (of_Z 0)) eq_refl _).
  vm_compute. reflexivity.
Defined.

(** Three units leave a stock of eight: five are left. *)
Lemma existencias_no_negativas_witness :
  exists inventario w',
    actualizarInventario nadie 10 (Fin (3 * U)) inicio = (inr inventario, w') /\
    inv_cantidad inventario = JNum (Fin (5 * U)) /\
    leb zero (Fin (5 * U)) = true.
Proof.
  eassert (H : actualizarInventario nadie 10 (Fin (3 * U)) inicio
               = (inr _, _)) by (vm_compute; reflexivity).
  match type of H with _ = (inr ?i, ?w) => exists i, w end.
  split; [exact H |].
  assert (Hn : Number (JStr "8") = Fin (8 * U)) by (vm_compute; reflexivity).
  assert (Ha : 0 <= 8 * U) by (apply Z.leb_le; vm_compute; reflexivity).
  destruct (existencias_no_negativas nadie 10 (8 * U) (3 * U) inicio _ _
              (mkInventario 1 10 (JStr "8") (of_Z 0)) eq_refl Hn Ha H)
    as (Hc & Hpos & _).
  assert (Hd : add (Fin (8 * U)) (neg (Fin (3 * U))) = Fin (5 * U))
    by (vm_compute; reflexivity).
  rewrite Hd in Hc, Hpos. split; [exact Hc | exact Hpos].
Defined.

Lemma cantidad_NaN_aceptada_witness :
  exists w',
    actualizarInventario nadie 10 NaN inicio =
      (inr (mkInventario 1 10 (JNum NaN) (of_Z 0)), w') /\
    inventarios (db w') =
      [mkInventario 1 10 (JNum NaN) (of_Z 0);
       mkInventario 2 20 (JNum (of_Z 3)) (of_Z 4)].
Proof.
  exact (cantidad_NaN_aceptada nadie 10 inicio
           (mkInventario 1 10 (JStr "8") (of_Z 0)) nadie_responde eq_refl).
Defined.

(** Two writers have read the row 2 at version 4. *)
Lemma version_obsoleta_rechazada_witness :
  exists w1 w2,
    actualizarInventario_version nadie 2 (of_Z 7) (of_Z 4) inicio
      = (inr tt, w1) /\
    actualizarInventario_version nadie 2 (of_Z 1) (of_Z 4) w1
      = (inl conflicto, w2) /\
    db w2 = db w1.
Proof.
  eassert (H : actualizarInventario_version nadie 2 (of_Z 7) (of_Z 4) inicio
               = (inr tt, _)) by (vm_compute; reflexivity).
  match type of H with _ = (_, ?w) => exists w end.
  assert (Hn : Z.abs 4 < 2 ^ 53 - 1) by reflexivity.
  destruct (version_obsoleta_rechazada nadie 2 (of_Z 7) (of_Z 1) 4 inicio _
              nadie_responde Hn H) as (w2 & E2 & Hdb).
  exists w2. split; [exact H |]. split; [exact E2 | exact Hdb].
Defined.

Lemma transferStock_orden_witness :
  transferStock nadie (Fin (2 * U)) (Fin (1 * U)) (Fin (5 * U)) inicio =
  transferStock nadie (Fin (1 * U)) (Fin (2 * U)) (Fin (5 * U)) inicio.
Proof.
  refine (proj1 (transferStock_orden nadie (Fin (2 * U)) (Fin (1 * U))
                   (Fin (5 * U)) (Fin (5 * U)) inicio _ _));
    discriminate.
Defined.

(** The store rejects the insert because the email is taken. *)
Lemma crearUsuario_revierte_witness :
  exists w',
    crearUsuario
      (falla_en 1 (email_repetido [mkErrorItem (Some "email"%string)
                                               "email must be unique"]))
      eva inicio = (inl (Error "El email ya existe"), w') /\
    db w' = db inicio.
Proof.
  eassert (H : crearUsuario
                 (falla_en 1 (email_repetido
                                [mkErrorItem (Some "email"%string)
                                             "email must be unique"]))
                 eva inicio = (inl _, _)) by (vm_compute; reflexivity).
  match type of H with _ = (_, ?w) => exists w end.
  split; [exact H |].
  exact (proj1 (crearUsuario_revierte _ _ _ _ _ H)).
Defined.

Lemma crearUsuario_error_sin_detalle_witness :
  exists m w',
    crearUsuario (falla_en 1 (email_repetido [])) eva inicio =
      (inl (TypeError m), w') /\
    db w' = db inicio /\ tx w' = None.
Proof.
  exact (crearUsuario_error_sin_detalle (falla_en 1 (email_repetido []))
           eva inicio (email_repetido []) eq_refl eq_refl eq_refl
           (or_intror eq_refl)).
Defined.

(** ana, a seller, is made an administrator as well. *)
Lemma asignarRol_casos_witness :
  (exists w',
     asignarRol nadie 1 2 inicio =
       (inl (Error "El usuario ya tiene este rol asignado"), w') /\
     db w' = db inicio) /\
  (exists w',
     asignarRol nadie 1 1 inicio = (inr (mkAsignacion 3 1 1), w') /\
     usuarios_roles (db w') =
       [mkAsignacion 1 1 2; mkAsignacion 2 2 3; mkAsignacion 3 1 1]).
Proof.
  split.
  - refine (proj1 (asignarRol_casos nadie 1 2 inicio nadie_responde) _).
    cbn. auto.
  - refine (proj2 (proj2 (asignarRol_casos nadie 1 1 inicio nadie_responde))
                  _ _ _).
    + cbn. intuition discriminate.
    + cbn. auto.
    + cbn. auto.
Defined.

Lemma asignar_y_remover_witness :
  exists a w1 w2,
    asignarRol nadie 1 1 inicio = (inr a, w1) /\
    removerRol nadie 1 1 w1 = (inr 1, w2) /\
    db w2 = db inicio.
Proof.
  eassert (H : asignarRol nadie 1 1 inicio = (inr _, _))
    by (vm_compute; reflexivity).
  match type of H with _ = (inr ?a, ?w) => exists a, w end.
  destruct (asignar_y_remover nadie 1 1 inicio _ _ nadie_responde H)
    as (w2 & E & Hdb).
  exists w2. split; [exact H |]. split; [exact E | exact Hdb].
Defined.

Lemma removerRol_casos_witness :
  exists w',
    removerRol nadie 1 1 inicio =
      (inl (Error "El usuario no tiene este rol asignado"), w') /\
    db w' = db inicio.
Proof.
  refine (proj1 (removerRol_casos nadie 1 1 inicio nadie_responde) _).
  cbn. intuition discriminate.
Defined.

(** ana is given the roles admin and gerente in place of vendedor. *)
Lemma sincronizarRoles_reemplaza_witness :
  exists created w',
    sincronizarRoles nadie 1 [1; 3] inicio = (inr created, w') /\
    roles_de 1 (db w') = [1; 3] /\
    de_otros 1 (db w') = de_otros 1 (db inicio) /\
    exists filas w'',
      obtenerRolesDeUsuario nadie 1 (Some ["rol"%string]) w'
        = (inr filas, w'') /\
      map (fun f => a_rol_id (fila f)) filas = [1; 3].
Proof.
  eassert (H : sincronizarRoles nadie 1 [1; 3] inicio = (inr _, _))
    by (vm_compute; reflexivity).
  match type of H with _ = (inr ?c, ?w) => exists c, w end.
  split; [exact H |].
  destruct (sincronizarRoles_reemplaza nadie 1 [1; 3] inicio _ _ H)
    as (_ & Hr & Ho & _ & _ & _ & _ & _ & Hleer).
  split; [exact Hr |]. split; [exact Ho |].
  exact (Hleer (Some ["rol"%string]) eq_refl).
Defined.

(** The bulk insert is rejected after the old roles have been deleted under
    the transaction: ana is still a seller. *)
Lemma sincronizarRoles_revierte_witness :
  exists e w',
    sincronizarRoles (falla_en 4 caida) 1 [1; 3] inicio = (inl e, w') /\
    db w' = db inicio.
Proof.
  eassert (H : sincronizarRoles (falla_en 4 caida) 1 [1; 3] inicio
               = (inl _, _)) by (vm_compute; reflexivity).
  match type of H with _ = (inl ?e, ?w) => exists e, w end.
  split; [exact H |].
  exact (sincronizarRoles_revierte _ _ _ _ _ _ H).
Defined.

(** The role admin exists, and is given twice. *)
Lemma sincronizarRoles_criterio_witness :
  exists w',
    sincronizarRoles nadie 1 [1; 1] inicio =
      (inl (Error "Uno o más roles no existen"), w').
Proof.
  refine (proj1 (proj2 (sincronizarRoles_criterio nadie 1 [1; 1] inicio
                          nadie_responde _)) _ _).
  - repeat constructor; cbn; intuition discriminate.
  - cbn. auto.
  - intros [H _]. inversion H as [| ? ? Hn _]. apply Hn. left. reflexivity.
Defined.

Lemma sincronizarRoles_idempotente_witness :
  exists created w1 created' w2,
    sincronizarRoles nadie 1 [1; 3] inicio = (inr created, w1) /\
    sincronizarRoles nadie 1 [1; 3] w1 = (inr created', w2) /\
    roles_de 1 (db w2) = roles_de 1 (db w1).
Proof.
  eassert (H : sincronizarRoles nadie 1 [1; 3] inicio = (inr _, _))
    by (vm_compute; reflexivity).
  match type of H with _ = (inr ?c, ?w) => exists c, w end.
  assert (Hnd : NoDup (map r_id (roles (db inicio))))
    by (repeat constructor; cbn; intuition discriminate).
  destruct (sincronizarRoles_idempotente nadie 1 [1; 3] inicio _ _
              nadie_responde Hnd H) as (c' & w2 & E & Hr & _).
  exists c', w2. split; [exact H |]. split; [exact E | exact Hr].
Defined.

(** ana, who holds a token without roles, was a seller and is made an
    administrator: the guard of an administrators' route lets her in. *)
Lemma sincronizar_y_guardia_witness :
  exists created w' req' s,
    sincronizarRoles nadie 1 [1] inicio = (inr created, w') /\
    Auth.verificarRol ["admin"%string]
      (Auth.peticion None (Some (Auth.mkPayload 1 "ana" "vendedor" None)))
      (identidad (db w'))
      = (inr (Auth.Next req'), s).
Proof.
  eassert (H : sincronizarRoles nadie 1 [1] inicio = (inr _, _))
    by (vm_compute; reflexivity).
  match type of H with _ = (inr ?c, ?w) => exists c, w end.
  destruct (proj2 (sincronizar_y_guardia nadie 1 [1] inicio _ _
                     ["admin"%string]
                     (Auth.peticion None
                        (Some (Auth.mkPayload 1 "ana" "vendedor" None)))
                     (Auth.mkPayload 1 "ana" "vendedor" None)
                     H eq_refl eq_refl eq_refl))
    as (req' & s & E).
  - exists "admin"%string. split; left; reflexivity.
  - exists req', s. split; [exact H | exact E].
Defined.

Lemma obtenerRolesDeUsuario_sin_password_witness :
  exists filas w',
    obtenerRolesDeUsuario nadie 1 (Some ["usuario"; "rol"]%string) inicio
      = (inr filas, w') /\
    map fila filas = [mkAsignacion 1 1 2] /\
    forall f columnas,
      In f filas ->
      fila_usuario f = Some (Some columnas) ->
      ~ In "password"%string (map fst columnas).
Proof.
  eassert (H : obtenerRolesDeUsuario nadie 1
                 (Some ["usuario"; "rol"]%string) inicio = (inr _, _))
    by (vm_compute; reflexivity).
  match type of H with _ = (inr ?c, ?w) => exists c, w end.
  split; [exact H |].
  destruct (obtenerRolesDeUsuario_sin_password nadie 1 _ inicio _ _ H)
    as (_ & Hf & Hp).
  split; [exact Hf | exact Hp].
Defined.

End ServiciosFacts.

Module RutasFacts.
Import Auth Rutas.
Local Open Scope string_scope.

(** *** Strings *)

Lemma append_vacio s : s ++ EmptyString = s.
Proof. induction s as [| c r IH]; cbn; [reflexivity | rewrite IH; reflexivity]. Qed.

Lemma append_asociativo a b c : (a ++ b) ++ c = a ++ (b ++ c).
Proof. induction a as [| x r IH]; cbn; [reflexivity | rewrite IH; reflexivity]. Qed.

Lemma prefix_propio s t : String.prefix s (s ++ t) = true.
Proof.
  induction s as [| c r IH]; cbn; [destruct t; reflexivity |].
  destruct (ascii_dec c c) as [_ | N]; [exact IH | contradiction].
Qed.

Lemma prefix_mas sub : forall s t,
  String.prefix sub s = true -> String.prefix sub (s ++ t) = true.
Proof.
  induction sub as [| c r IH]; intros s t; cbn.
  - intros _. destruct (s ++ t); reflexivity.
  - destruct s as [| d s']; [discriminate |]. cbn.
    destruct (ascii_dec c d); [apply IH | discriminate].
Qed.

Lemma includes_prefix sub s :
  String.prefix sub s = true -> includes sub s = true.
Proof. destruct s; cbn [includes]; intros ->; reflexivity. Qed.

Lemma includes_propio sub t : includes sub (sub ++ t) = true.
Proof. apply includes_prefix, prefix_propio. Qed.

Lemma includes_derecha sub s t :
  includes sub t = true -> includes sub (s ++ t) = true.
Proof.
  intros H. induction s as [| c r IH]; [exact H |].
  change (String c r ++ t) with (String c (r ++ t)).
  cbn [includes]. rewrite IH.
  destruct (String.prefix sub (String c (r ++ t))); reflexivity.
Qed.

Lemma includes_izquierda sub s t :
  includes sub s = true -> includes sub (s ++ t) = true.
Proof.
  induction s as [| c r IH].
  - cbn [includes]. destruct (String.prefix sub EmptyString) eqn:P;
      [| discriminate].
    intros _. destruct sub; [| discriminate].
    apply includes_prefix. destruct t; reflexivity.
  - change (String c r ++ t) with (String c (r ++ t)). cbn [includes].
    destruct (String.prefix sub (String c r)) eqn:P.
    + intros _. apply (prefix_mas _ _ t) in P.
      change (String c r ++ t) with (String c (r ++ t)) in P.
      rewrite P. reflexivity.
    + intros H. rewrite (IH H).
      destruct (String.prefix sub (String c (r ++ t))); reflexivity.
Qed.

Lemma includes_join sep x l :
  In x l -> includes x (join sep l) = true.
Proof.
  induction l as [| y r IH]; [intros [] |].
  intros [-> | Hin].
  - destruct r as [| z r']; cbn [join].
    + rewrite <- (append_vacio x) at 2. apply includes_propio.
    + apply includes_propio.
  - destruct r as [| z r']; [destruct Hin |]. cbn [join].
    apply includes_derecha, includes_derecha. exact (IH Hin).
Qed.

(** A string without the separator is one field of [split(' ')]. *)
Lemma sin_espacio c r :
  includes " " (String c r) = false ->
  Ascii.eqb c " " = false /\ includes " " r = false.
Proof.
  cbn [includes String.prefix].
  destruct (ascii_dec " " c) as [<- | N]; [destruct r; discriminate |].
  intros H. split; [| exact H].
  apply Ascii.eqb_neq. intros E. apply N. symmetry. exact E.
Qed.

Lemma split_space_campo s : forall cur,
  includes " " s = false -> split_space cur s = [cur ++ s].
Proof.
  induction s as [| c r IH]; intros cur H; cbn [split_space].
  - rewrite append_vacio. reflexivity.
  - destruct (sin_espacio c r H) as [Hc Hr]. rewrite Hc.
    rewrite (IH _ Hr), append_asociativo. reflexivity.
Qed.

Lemma split_space_campos s : forall cur t,
  includes " " s = false ->
  split_space cur (s ++ String " " t)
    = (cur ++ s) :: split_space EmptyString t.
Proof.
  induction s as [| c r IH]; intros cur t H; cbn [split_space append].
  - rewrite append_vacio. reflexivity.
  - destruct (sin_espacio c r H) as [Hc Hr]. rewrite Hc.
    rewrite (IH _ _ Hr), append_asociativo. reflexivity.
Qed.

(** *** [formatearRoles] *)

Lemma formatearRoles_general xs r :
  xs <> [] ->
  formatearRoles (xs ++ [r]) =
    join ", " (map entre_comillas xs) ++ " o " ++ entre_comillas r.
Proof.
  intros Hxs. destruct xs as [| a [| b rest]]; [contradiction | reflexivity |].
  unfold formatearRoles.
  change ((a :: b :: rest) ++ [r])%list with (a :: b :: (rest ++ [r]))%list.
  destruct (rest ++ [r])%list as [| z zs] eqn:E;
    [destruct rest; discriminate |].
  rewrite <- E.
  change (a :: b :: (rest ++ [r]))%list with ((a :: b :: rest) ++ [r])%list.
  rewrite last_last, removelast_last. reflexivity.
Qed.

(** X22. The text that [formatearRoles] builds for the 403 response names
    every required role, between double quotes. *)
Theorem formatearRoles_nombra_todos roles r :
  In r roles ->
  includes (entre_comillas r) (formatearRoles roles) = true.
Proof.
  intros Hin.
  destruct (exists_last (l := roles)) as (xs & z & ->).
  { intros ->. destruct Hin. }
  destruct xs as [| a xs'].
  - destruct Hin as [-> | []]. cbn [app formatearRoles].
    rewrite <- (append_vacio (entre_comillas r)) at 2.
    apply includes_propio.
  - rewrite formatearRoles_general by discriminate.
    apply in_app_or in Hin. destruct Hin as [Hin | [-> | []]].
    + apply includes_izquierda, includes_join, in_map. exact Hin.
    + apply includes_derecha, includes_derecha.
      rewrite <- (append_vacio (entre_comillas r)) at 2.
      apply includes_propio.
Qed.

(** *** The token of a request *)

Section Token.

Variable jwt_verify : string -> thrown + JWTPayload.

(** X23. [autenticarToken] takes the second field of the header, whatever
    the first one is: a header made of any word, a space and a token
    authenticates like a [Bearer] header, and a header without a space,
    such as the bare token, is answered with 401 TOKEN_NOT_PROVIDED. *)
Theorem campo_del_token req w :
  (forall esquema token,
     includes " " esquema = false ->
     includes " " token = false ->
     token <> EmptyString ->
     authorization req = Some (esquema ++ " " ++ token) ->
     bearer_token req = Some token /\
     forall payload,
       jwt_verify token = inr payload ->
       autenticarToken jwt_verify req w =
         (inr (Next (set_usuario (Some payload) req)), w)) /\
  (forall header,
     includes " " header = false ->
     authorization req = Some header ->
     exists body,
       autenticarToken jwt_verify req w = (inr (Respond 401 body req), w) /\
       b_code body = Some "TOKEN_NOT_PROVIDED").
Proof.
  split.
  - intros esquema token He Ht Hne Hauth.
    assert (Hb : bearer_token req = Some token).
    { unfold bearer_token. rewrite Hauth.
      destruct (String.eqb_spec (esquema ++ " " ++ token) EmptyString)
        as [E | _].
      { destruct esquema; discriminate. }
      change (esquema ++ " " ++ token) with (esquema ++ String " " token).
      rewrite split_space_campos by exact He.
      rewrite split_space_campo by exact Ht.
      cbn [nth_error append].
      destruct (String.eqb_spec token EmptyString) as [E | _];
        [contradiction |].
      reflexivity. }
    split; [exact Hb |].
    intros payload V. unfold autenticarToken, verificarToken.
    rewrite Hb, V. reflexivity.
  - intros header Hh Hauth.
    assert (Hb : bearer_token req = None).
    { unfold bearer_token. rewrite Hauth.
      destruct (String.eqb header EmptyString); [reflexivity |].
      rewrite split_space_campo by exact Hh. reflexivity. }
    unfold autenticarToken. rewrite Hb. eexists. split; reflexivity.
Qed.

(** X24. Behind [autenticarToken], the guard of a protected route never
    answers AUTHENTICATION_REQUIRED, and the handler is reached only with
    a token that verified and a role, cached in the token or read from the
    store, that is among the permitted ones. *)
Theorem ruta_protegida rolesPermitidos req w o w' :
  protegida jwt_verify rolesPermitidos req w = (o, w') ->
  (exists r, o = inr r) /\
  (forall body req', o = inr (Respond 401 body req') ->
     b_code body = Some "TOKEN_NOT_PROVIDED" /\ bearer_token req = None) /\
  (forall req', o = inr (Next req') ->
     exists token payload rs,
       bearer_token req = Some token /\
       jwt_verify token = inr payload /\
       resolver_roles payload w = (inr rs, w') /\
       (forall cached, roles payload = Some cached -> rs = cached) /\
       intersecta rolesPermitidos rs /\
       usuario req' = Some (set_roles rs payload)).
Proof.
  unfold protegida, autenticarToken.
  destruct (bearer_token req) as [token |] eqn:Hb.
  - destruct (verificarToken jwt_verify token) as [error | payload] eqn:V.
    + cbv zeta. intros E. injection E as <- <-.
      split; [eexists; reflexivity |]. split; intros; discriminate.
    + assert (V' : jwt_verify token = inr payload).
      { unfold verificarToken in V.
        destruct (jwt_verify token) as [e | p]; [| exact V].
        destruct (instanceof_TokenExpiredError e); [discriminate |].
        destruct (instanceof_JsonWebTokenError e); discriminate. }
      unfold verificarRol. cbn [usuario set_usuario].
      destruct (resolver_roles payload w) as [[e | rs] w1] eqn:Rr.
      * intros E. injection E as <- <-.
        split; [eexists; reflexivity |]. split; intros; discriminate.
      * destruct (tienePermiso rolesPermitidos rs) eqn:Tp; cbn [negb].
        -- intros E. injection E as <- <-.
           split; [eexists; reflexivity |]. split; [intros; discriminate |].
           intros req' E. injection E as <-.
           exists token, payload, rs. split; [reflexivity |].
           split; [exact V' |]. split; [exact Rr |]. split.
           { intros cached Hc. unfold resolver_roles in Rr.
             rewrite Hc in Rr. injection Rr as <- _. reflexivity. }
           split.
           { unfold intersecta. unfold tienePermiso in Tp.
             apply existsb_exists in Tp. destruct Tp as (r & Ir & Ep).
             apply existsb_exists in Ep. destruct Ep as (q & Iq & Eq).
             apply String.eqb_eq in Eq. subst q. exists r. split; assumption. }
           reflexivity.
        -- intros E. injection E as <- <-.
           split; [eexists; reflexivity |]. split; intros; discriminate.
  - intros E. injection E as <- <-.
    split; [eexists; reflexivity |]. split.
    + intros body req' E. injection E as <- _. split; reflexivity.
    + intros; discriminate.
Qed.

End Token.

(** *** [login] *)

Section Sesion.

Variable jwt_sign : JWTPayload -> string.
Variable ahora : Z.

Lemma Usuario_findOne_criterio body w :
  Usuario_findOne body w =
    (if negb (disponible w)
     then inl (ErrorObj (COtra "SequelizeConnectionError")
                        "store unavailable")
     else match criterio body with
          | Some p => inr (find p (usuarios w))
          | None =>
              inl (ErrorObj CError
                     "WHERE parameter has invalid undefined value")
          end,
     asked QUsuarioFindOne w).
Proof.
  unfold Usuario_findOne, criterio.
  destruct (negb (disponible w)); [reflexivity |].
  destruct (match lb_email body with
            | Some e => if String.eqb e EmptyString then None else Some e
            | None => None
            end), (lb_username body); reflexivity.
Qed.

(** What [login] answers, by cases, when the store answers and the body
    names a user. *)
Lemma login_casos argon2_verify body w p :
  disponible w = true ->
  criterio body = Some p ->
  login jwt_sign argon2_verify ahora body w =
    match find p (usuarios w) with
    | None => ((401, credenciales_invalidas), asked QUsuarioFindOne w)
    | Some u =>
        if negb (u_activo u) then
          ((403,
            mkBody "error" "Cuenta deshabilitada"
              (Some "Tu cuenta ha sido deshabilitada. Contacta al administrador.")
              (Some "ACCOUNT_DISABLED") None None),
           asked QUsuarioFindOne w)
        else
          match argon2_verify (u_password u) (lb_password body) with
          | inl e => ((500, error_autenticacion e), asked QUsuarioFindOne w)
          | inr false =>
              ((401, credenciales_invalidas), asked QUsuarioFindOne w)
          | inr true =>
              match nombres (filter (fun ur =>
                                       (ur_usuario_id ur =? u_id u)%Z)
                                    (usuarios_roles w)) with
              | inl e =>
                  ((500, error_autenticacion e),
                   asked (QUsuarioRolFindAll (u_id u))
                         (asked QUsuarioFindOne w))
              | inr rs =>
                  ((200,
                    mkBody "ok" "Autenticación exitosa" None None None
                      (Some (mkLoginData (jwt_sign (login_payload u rs)) "1h"
                               (mkLoginUsuario (u_id u) (u_username u)
                                  (u_email u) rs
                                  (u_mustChangePassword u))))),
                   mkStore
                     (map (fun r => if (u_id r =? u_id u)%Z
                                    then con_acceso ahora u else r)
                          (usuarios w))
                     (usuarios_roles w) true
                     (consultas w ++ [QUsuarioFindOne;
                                      QUsuarioRolFindAll (u_id u);
                                      QUsuarioSave (u_id u)]))
              end
          end
    end.
Proof.
  intros Hd Hc. unfold login. rewrite Usuario_findOne_criterio, Hd, Hc.
  cbn [negb]. destruct (find p (usuarios w)) as [u |]; [| reflexivity].
  destruct (negb (u_activo u)); [reflexivity |].
  destruct (argon2_verify _ _) as [e | [|]]; try reflexivity.
  unfold UsuarioRol_findAll. cbn [disponible asked usuarios_roles].
  rewrite Hd.
  destruct (nombres _) as [e | rs]; [reflexivity |].
  unfold Usuario_save. cbn [disponible asked usuarios usuarios_roles
                            consultas u_id].
  rewrite Hd. unfold con_acceso. rewrite <- !app_assoc. reflexivity.
Qed.

(** X25. [login] issues a token only for a user that the store holds under
    the email or username of the request, that is active and whose stored
    hash [argon2.verify] accepts for the password of the request; the token
    signs the key, the username and the roles of that user. *)
Theorem login_exige_credenciales argon2_verify body w b w' :
  login jwt_sign argon2_verify ahora body w = ((200, b), w') ->
  exists p u rs,
    criterio body = Some p /\
    find p (usuarios w) = Some u /\
    u_activo u = true /\
    argon2_verify (u_password u) (lb_password body) = inr true /\
    nombres (filter (fun ur => (ur_usuario_id ur =? u_id u)%Z)
                    (usuarios_roles w)) = inr rs /\
    b_data b =
      Some (mkLoginData (jwt_sign (login_payload u rs)) "1h"
              (mkLoginUsuario (u_id u) (u_username u) (u_email u) rs
                 (u_mustChangePassword u))).
Proof.
  unfold login. rewrite Usuario_findOne_criterio.
  destruct (disponible w) eqn:Hd; cbn [negb]; [| discriminate].
  destruct (criterio body) as [p |] eqn:Hc; [| discriminate].
  destruct (find p (usuarios w)) as [u |] eqn:Hf; [| discriminate].
  destruct (u_activo u) eqn:Ha; cbn [negb]; [| discriminate].
  destruct (argon2_verify (u_password u) (lb_password body))
    as [e | [|]] eqn:Hv; try discriminate.
  unfold UsuarioRol_findAll. cbn [disponible asked usuarios_roles].
  rewrite Hd.
  destruct (nombres _) as [e | rs] eqn:Hn; [discriminate |].
  destruct (Usuario_save _ _) as [[e | x] w3]; [discriminate |].
  intros E. injection E as <- _.
  exists p, u, rs. repeat split; assumption.
Qed.

(** X26. [login] answers an unknown user and a wrong password in the same
    way: the same 401 response, after the same single query. *)
Theorem rechazo_uniforme argon2_verify body w p :
  disponible w = true ->
  criterio body = Some p ->
  (find p (usuarios w) = None \/
   exists u, find p (usuarios w) = Some u /\ u_activo u = true /\
             argon2_verify (u_password u) (lb_password body) = inr false) ->
  login jwt_sign argon2_verify ahora body w =
    ((401, credenciales_invalidas), asked QUsuarioFindOne w).
Proof.
  intros Hd Hc H. rewrite (login_casos _ _ _ p Hd Hc).
  destruct H as [-> | (u & -> & Ha & Hv)]; [reflexivity |].
  rewrite Ha, Hv. reflexivity.
Qed.

(** X27. A disabled account is reported as such whatever password is sent:
    [login] answers 403 ACCOUNT_DISABLED before it looks at the password,
    and writes nothing. *)
Theorem cuenta_deshabilitada body w p u :
  disponible w = true ->
  criterio body = Some p ->
  find p (usuarios w) = Some u ->
  u_activo u = false ->
  forall argon2_verify,
  exists b,
    login jwt_sign argon2_verify ahora body w =
      ((403, b), asked QUsuarioFindOne w) /\
    b_code b = Some "ACCOUNT_DISABLED".
Proof.
  intros Hd Hc Hf Ha argon2_verify.
  rewrite (login_casos _ _ _ p Hd Hc), Hf, Ha. cbn [negb].
  eexists. split; reflexivity.
Qed.

Lemma asked_tablas q w :
  usuarios (asked q w) = usuarios w /\
  usuarios_roles (asked q w) = usuarios_roles w.
Proof. split; reflexivity. Qed.

(** X28. The only thing [login] writes is the last access of the user it
    lets in: the assignments of roles are never changed, and the rows of
    the users change only with a 200 response, in which case the rows with
    the key of that user get the instant of the login. *)
Theorem login_solo_escribe_acceso argon2_verify body w status b w' :
  login jwt_sign argon2_verify ahora body w = ((status, b), w') ->
  usuarios_roles w' = usuarios_roles w /\
  (status <> 200 -> usuarios w' = usuarios w) /\
  (status = 200 ->
   exists u,
     In u (usuarios w) /\
     usuarios w' =
       map (fun r => if (u_id r =? u_id u)%Z then con_acceso ahora u else r)
           (usuarios w)).
Proof.
  unfold login. rewrite Usuario_findOne_criterio.
  destruct (negb (disponible w)) eqn:Hd.
  { intros E. injection E as <- _ <-.
    split; [reflexivity |]. split; [reflexivity | discriminate]. }
  destruct (criterio body) as [p |].
  2:{ intros E. injection E as <- _ <-.
      split; [reflexivity |]. split; [reflexivity | discriminate]. }
  destruct (find p (usuarios w)) as [u |] eqn:Hf.
  2:{ intros E. injection E as <- _ <-.
      split; [reflexivity |]. split; [reflexivity | discriminate]. }
  destruct (negb (u_activo u)).
  { intros E. injection E as <- _ <-.
    split; [reflexivity |]. split; [reflexivity | discriminate]. }
  destruct (argon2_verify _ _) as [e | [|]];
    try (intros E; injection E as <- _ <-;
         split; [reflexivity |]; split; [reflexivity | discriminate]).
  unfold UsuarioRol_findAll. cbn [disponible asked usuarios_roles].
  apply negb_false_iff in Hd. rewrite Hd.
  destruct (nombres _) as [e | rs].
  { intros E. injection E as <- _ <-.
    split; [reflexivity |]. split; [reflexivity | discriminate]. }
  unfold Usuario_save. cbn [disponible asked usuarios usuarios_roles
                            consultas u_id].
  rewrite Hd. intros E. injection E as <- _ <-.
  split; [reflexivity |]. split; [intros N; contradiction |].
  intros _. exists u. split; [| reflexivity].
  apply find_some in Hf. tauto.
Qed.

End Sesion.

(** *** The theorems at work *)

Lemma formatearRoles_nombra_todos_witness :
  includes (entre_comillas "gerente")
           (formatearRoles ["admin"; "gerente"; "vendedor"]) = true.
Proof.
  apply (formatearRoles_nombra_todos ["admin"; "gerente"; "vendedor"]).
  right. left. reflexivity.
Defined.

(** A header of another scheme carries the valid token. *)
Lemma campo_del_token_witness :
  autenticarToken jwt_de_prueba (peticion (Some "Basic vigente") None)
                  almacen =
    (inr (Next (set_usuario (Some ana)
                  (peticion (Some "Basic vigente") None))),
     almacen).
Proof.
  refine (proj2 (proj1 (campo_del_token jwt_de_prueba
                          (peticion (Some "Basic vigente") None) almacen)
                   "Basic" "vigente" eq_refl eq_refl _ eq_refl)
                ana eq_refl).
  discriminate.
Defined.

(** ana, a seller, on a route for sellers and managers. *)
Lemma ruta_protegida_witness :
  exists req' token payload rs,
    protegida jwt_de_prueba ["vendedor"; "gerente"]
      (peticion (Some "Bearer vigente") None) almacen
      = (inr (Next req'), almacen) /\
    bearer_token (peticion (Some "Bearer vigente") None) = Some token /\
    jwt_de_prueba token = inr payload /\
    intersecta ["vendedor"; "gerente"] rs /\
    usuario req' = Some (set_roles rs payload).
Proof.
  eassert (H : protegida jwt_de_prueba ["vendedor"; "gerente"]
                 (peticion (Some "Bearer vigente") None) almacen
               = (inr (Next _), almacen)) by (vm_compute; reflexivity).
  match type of H with _ = (inr (Next ?r), _) => exists r end.
  destruct (proj2 (proj2 (ruta_protegida jwt_de_prueba _ _ _ _ _ H))
              _ eq_refl)
    as (token & payload & rs & Hb & Hv & _ & _ & Hi & Hu).
  exists token, payload, rs.
  split; [exact H |]. split; [exact Hb |]. split; [exact Hv |].
  split; [exact Hi | exact Hu].
Defined.

Lemma login_exige_credenciales_witness :
  exists b w' u,
    login firma_de_prueba clave_de_prueba 5
          (cuerpo "ana@tienda.test" "secreto") almacen = ((200, b), w') /\
    In u (usuarios almacen) /\
    u_email u = "ana@tienda.test" /\
    u_activo u = true /\
    clave_de_prueba (u_password u) (Some "secreto") = inr true.
Proof.
  eassert (H : login firma_de_prueba clave_de_prueba 5
                 (cuerpo "ana@tienda.test" "secreto") almacen
               = ((200, _), _)) by (vm_compute; reflexivity).
  match type of H with _ = ((_, ?b), ?w) => exists b, w end.
  destruct (login_exige_credenciales firma_de_prueba 5 _ _ _ _ _ H)
    as (p & u & rs & Hc & Hf & Ha & Hv & _ & _).
  exists u. split; [exact H |].
  injection Hc as <-. apply find_some in Hf. destruct Hf as [Hin He].
  apply String.eqb_eq in He.
  split; [exact Hin |]. split; [exact He |]. split; [exact Ha | exact Hv].
Defined.

(** An unknown email, and the email of ana with a wrong password. *)
Lemma rechazo_uniforme_witness :
  login firma_de_prueba clave_de_prueba 5
        (cuerpo "eva@tienda.test" "secreto") almacen =
  login firma_de_prueba clave_de_prueba 5
        (cuerpo "ana@tienda.test" "otra") almacen.
Proof.
  rewrite (rechazo_uniforme firma_de_prueba 5 clave_de_prueba
             (cuerpo "eva@tienda.test" "secreto") almacen _
             eq_refl eq_refl (or_introl eq_refl)).
  rewrite (rechazo_uniforme firma_de_prueba 5 clave_de_prueba
             (cuerpo "ana@tienda.test" "otra") almacen _
             eq_refl eq_refl
             (or_intror
                (ex_intro _ (mkUsuario 1 "ana" "ana@tienda.test" "hash"
                                       true 0 false)
                   (conj eq_refl (conj eq_refl eq_refl))))).
  reflexivity.
Defined.

(** The account of ana is disabled; the password sent is the wrong one. *)
Lemma cuenta_deshabilitada_witness :
  exists b,
    login firma_de_prueba clave_de_prueba 5
          (cuerpo "ana@tienda.test" "otra") almacen_baja
      = ((403, b), asked QUsuarioFindOne almacen_baja) /\
    b_code b = Some "ACCOUNT_DISABLED".
Proof.
  exact (cuenta_deshabilitada firma_de_prueba 5
           (cuerpo "ana@tienda.test" "otra") almacen_baja _
           (mkUsuario 1 "ana" "ana@tienda.test" "hash" false 0 false)
           eq_refl eq_refl eq_refl eq_refl clave_de_prueba).
Defined.

Lemma login_solo_escribe_acceso_witness :
  exists b w',
    login firma_de_prueba clave_de_prueba 5
          (cuerpo "ana@tienda.test" "secreto") almacen = ((200, b), w') /\
    usuarios_roles w' = usuarios_roles almacen /\
    usuarios w' = [mkUsuario 1 "ana" "ana@tienda.test" "hash" true 5 false].
Proof.
  eassert (H : login firma_de_prueba clave_de_prueba 5
                 (cuerpo "ana@tienda.test" "secreto") almacen
               = ((200, _), _)) by (vm_compute; reflexivity).
  match type of H with _ = ((_, ?b), ?w) => exists b, w end.
  destruct (login_solo_escribe_acceso firma_de_prueba 5 _ _ _ _ _ _ H)
    as (Hr & _ & _).
  split; [exact H |]. split; [exact Hr | reflexivity].
Defined.

End RutasFacts.
